(** * The report-generation pipeline of [src/pages/GenerateReport.tsx]

    A shallow embedding of the result cache, the sliding-window rate limiter,
    the retry/backoff controller and the report orchestrator, followed by the
    properties established for them.

    Conventions of the embedding.
    - JavaScript values that come from outside the typed code (response
      bodies, parsed JSON, cached payloads) are terms of [JSValue].
    - Numbers that matter to the code (timestamps, delays, counters, HTTP
      status codes) are integers in [Z]; [Date.now()] is the [clock] field of
      the system state, which advances with the exchanges with the remote
      service, the backoff timers and the hashing of an image.
    - A JavaScript string is a Rocq [string] that holds its UTF-8 encoding;
      lengths and indices are those of the code units for ASCII text.
    - An [async] function is a computation of the monad [M]: it threads the
      system state and either returns or throws.  Awaited calls are executed
      in program order; a run is never interleaved with another run. *)

From Stdlib Require Import ZArith List String Ascii Bool Lia DecimalString.
Import ListNotations.

Local Open Scope string_scope.
Local Open Scope Z_scope.

(** ** JavaScript values *)

#[local] Set Warnings "-register-all".

Inductive JSValue : Type :=
| JUndefined
| JNull
| JBool (b : bool)
| JNum (n : Z)
| JStr (s : string)
| JArr (items : list JSValue)
| JObj (fields : list (string * JSValue)).

(** [Boolean(v)]: what [if (v)], [!v], [&&] and [||] test. *)
Definition truthy (v : JSValue) : bool :=
  match v with
  | JUndefined | JNull => false
  | JBool b => b
  | JNum n => negb (n =? 0)
  | JStr s => negb (s =? "")%string
  | JArr _ | JObj _ => true
  end.

(** Decimal rendering of an integer, as a template literal prints a number. *)
Definition showZ (z : Z) : string := NilZero.string_of_int (Z.to_int z).

(** [hay.includes(needle)]. *)
Fixpoint includes (hay needle : string) : bool :=
  if prefix needle hay then true
  else match hay with
       | EmptyString => false
       | String _ rest => includes rest needle
       end.

(** [s.substring(0, n)]. *)
Definition substring0 (n : nat) (s : string) : string := substring 0 n s.

(** ** Configuration constants (lines 33-42 and 150-155) *)

Module RATE_LIMIT_CONFIG.
Definition maxRequestsPerMinute : Z := 10.
Definition cooldownPeriod : Z := 60000.
End RATE_LIMIT_CONFIG.

Module CACHE_CONFIG.
Definition maxAge : Z := 24 * 60 * 60 * 1000.
Definition maxEntries : Z := 50.
End CACHE_CONFIG.

Record RetryConfig : Type := mkRetryConfig {
  maxRetries : Z;
  initialDelay : Z;
  maxDelay : Z;
  backoffFactor : Z
}.

Definition RETRY_CONFIG : RetryConfig :=
  {| maxRetries := 3;
     initialDelay := 2000;    (* 2 seconds *)
     maxDelay := 30000;       (* 30 seconds *)
     backoffFactor := 2 |}.

(** ** The cache entries and the JavaScript [Map] that holds them *)

Record CacheEntry : Type := mkEntry {
  data : JSValue;
  timestamp : Z;
  imageHash : string
}.

(** A [Map<string, CacheEntry>] in insertion order.  [Map_set] on a key that
    is present replaces the value where it stands; on a new key it appends. *)
Definition JsMap : Type := list (string * CacheEntry).

Fixpoint Map_get (k : string) (m : JsMap) : option CacheEntry :=
  match m with
  | [] => None
  | (k', e) :: rest => if (k' =? k)%string then Some e else Map_get k rest
  end.

Definition Map_delete (k : string) (m : JsMap) : JsMap :=
  filter (fun kv => negb (fst kv =? k)%string) m.

Fixpoint Map_set (k : string) (e : CacheEntry) (m : JsMap) : JsMap :=
  match m with
  | [] => [(k, e)]
  | (k', e') :: rest =>
      if (k' =? k)%string then (k, e) :: rest else (k', e') :: Map_set k e rest
  end.

Definition Map_size (m : JsMap) : Z := Z.of_nat (List.length m).

(** [entries.sort(([, a], [, b]) => a.timestamp - b.timestamp)]: the sort of
    an array is stable, so entries of equal timestamp keep their order. *)
Fixpoint insertByTimestamp (x : string * CacheEntry) (l : JsMap) : JsMap :=
  match l with
  | [] => [x]
  | y :: rest =>
      if timestamp (snd x) <=? timestamp (snd y) then x :: y :: rest
      else y :: insertByTimestamp x rest
  end.

Definition sortByTimestamp (m : JsMap) : JsMap :=
  fold_right insertByTimestamp [] m.

(** ** The durable store: the record 'geminiApiCache' of [localStorage] *)

(** The item is described by what [loadFromLocalStorage] makes of it:
    - [NoItem]: [getItem] returns null (or the empty text);
    - [Unreadable]: [JSON.parse], or [Object.entries] on its result, throws;
    - [SavedCache m]: the text is [JSON.stringify(Object.fromEntries(m))],
      which [JSON.parse] and [Object.entries] read back as the entries [m]
      (the keys of the cache hold a dash, so none is an array index and the
      order of the entries is kept).
    The map is typed as the source types it, [Map<string, CacheEntry>]: a
    text that parses to something else than a record of cache entries (a
    JSON string, an array), which only another program can have stored, is
    not described. *)
Inductive StoredItem : Type :=
| NoItem
| Unreadable
| SavedCache (m : JsMap).

Record LocalStorage : Type := mkStorage {
  geminiApiCache : StoredItem;
  writable : bool             (* false: setItem throws (quota, private mode) *)
}.

(** ** CacheManager (lines 55-144) *)

Module CacheManager.

Record t : Type := mk {
  cache : JsMap;
  requestTimestamps : list Z
}.

Definition with_cache (m : JsMap) (this : t) : t :=
  mk m (requestTimestamps this).

Definition with_timestamps (ts : list Z) (this : t) : t :=
  mk (cache this) ts.

(** [loadFromLocalStorage]: [this.cache] is assigned only when the item is
    there and could be read; the [catch] swallows the error otherwise. *)
Definition loadFromLocalStorage (ls : LocalStorage) (this : t) : t :=
  match geminiApiCache ls with
  | SavedCache m => with_cache m this
  | NoItem => this
  | Unreadable => this
  end.

(** [constructor]. *)
Definition new (ls : LocalStorage) : t :=
  loadFromLocalStorage ls (mk [] []).

(** [saveToLocalStorage]: a failed write is logged and swallowed. *)
Definition saveToLocalStorage (this : t) (ls : LocalStorage) : LocalStorage :=
  if writable ls then mkStorage (SavedCache (cache this)) (writable ls)
  else ls.

Definition cacheKey (imageHash prompt : string) : string :=
  imageHash ++ "-" ++ prompt.

(** [get], after [generateImageHash] has produced [imageHash] and with
    [Date.now() = now].  [None] is the [null] result. *)
Definition get (now : Z) (imageHash prompt : string) (this : t)
  : option JSValue * t :=
  let cacheKey := cacheKey imageHash prompt in
  match Map_get cacheKey (cache this) with
  | Some entry =>
      let age := now - timestamp entry in
      if age <? CACHE_CONFIG.maxAge then (Some (data entry), this)
      else (None, with_cache (Map_delete cacheKey (cache this)) this)
  | None => (None, this)
  end.

(** The eviction step of [set]. *)
Definition evictOldest (m : JsMap) : JsMap :=
  if Map_size m >=? CACHE_CONFIG.maxEntries then
    match sortByTimestamp m with
    | (oldestKey, _) :: _ => Map_delete oldestKey m
    | [] => m   (* not reached: the map holds maxEntries > 0 entries *)
    end
  else m.

(** [set], after [generateImageHash] has produced [imageHash] and with
    [Date.now() = now]. *)
Definition set (now : Z) (imageHash prompt : string) (data : JSValue)
    (this : t) (ls : LocalStorage) : t * LocalStorage :=
  let cacheKey := cacheKey imageHash prompt in
  let this1 := with_cache (evictOldest (cache this)) this in
  let this2 :=
    with_cache (Map_set cacheKey (mkEntry data now imageHash) (cache this1)) this1 in
  (this2, saveToLocalStorage this2 ls).

Definition canMakeRequest (now : Z) (this : t) : bool * t :=
  let kept :=
    filter (fun timestamp => now - timestamp <? RATE_LIMIT_CONFIG.cooldownPeriod)
           (requestTimestamps this) in
  (Z.of_nat (List.length kept) <? RATE_LIMIT_CONFIG.maxRequestsPerMinute,
   with_timestamps kept this).

Definition recordRequest (now : Z) (this : t) : t :=
  with_timestamps (requestTimestamps this ++ [now]) this.

Definition getNextAvailableTime (now : Z) (this : t) : Z * t :=
  let (ok, this') := canMakeRequest now this in
  if ok then (0, this')
  else match requestTimestamps this' with
       | oldestTimestamp :: _ =>
           (Z.max 0 (oldestTimestamp + RATE_LIMIT_CONFIG.cooldownPeriod - now), this')
       | [] => (0, this')   (* not reached: a refusal leaves >= 10 timestamps *)
       end.

End CacheManager.

(** ** Reading JavaScript values *)

Fixpoint lookupField (k : string) (fields : list (string * JSValue)) : JSValue :=
  match fields with
  | [] => JUndefined
  | (k', v) :: rest => if (k' =? k)%string then v else lookupField k rest
  end.

(** [v.name], for the property names the code reads (none of them is a
    built-in member of a string, an array, a number or a boolean).  [None]
    is the TypeError raised on [undefined] and [null]. *)
Definition prop (v : JSValue) (name : string) : option JSValue :=
  match v with
  | JUndefined | JNull => None
  | JObj fields => Some (lookupField name fields)
  | JBool _ | JNum _ | JStr _ | JArr _ => Some JUndefined
  end.

(** [v[i]] for a literal index [i]. *)
Definition item (v : JSValue) (i : nat) : option JSValue :=
  match v with
  | JUndefined | JNull => None
  | JArr items => Some (nth i items JUndefined)
  | JObj fields => Some (lookupField (showZ (Z.of_nat i)) fields)
  | JStr s => Some (match String.get i s with
                    | Some c => JStr (String c EmptyString)
                    | None => JUndefined
                    end)
  | JBool _ | JNum _ => Some JUndefined
  end.

(** [v?.name]. *)
Definition optProp (v : JSValue) (name : string) : JSValue :=
  match prop v name with
  | Some x => x
  | None => JUndefined
  end.

(** [String(v)], the conversion a template literal applies.  [element] is
    the rendering of an array element: [Array.prototype.join] prints
    [undefined] and [null] as the empty string. *)
Fixpoint element (v : JSValue) : string :=
  match v with
  | JUndefined | JNull => ""
  | JBool true => "true"
  | JBool false => "false"
  | JNum n => showZ n
  | JStr s => s
  | JArr items =>
      (fix join (l : list JSValue) : string :=
         match l with
         | [] => ""
         | [x] => element x
         | x :: rest => element x ++ "," ++ join rest
         end) items
  | JObj _ => "[object Object]"
  end.

Definition toString (v : JSValue) : string :=
  match v with
  | JUndefined => "undefined"
  | JNull => "null"
  | _ => element v
  end.

(** The message of the TypeError an engine raises for a read on [undefined]
    or [null] (the wording is the engine's; this is V8's). *)
Definition typeErrorMessage (v : JSValue) (name : string) : string :=
  "Cannot read properties of " ++ toString v ++ " (reading '" ++ name ++ "')".

(** ** The structured-output match: [analysisResponse.match(/\{[\s\S]*\}/)]

    The pattern is searched from the left, so a match starts at the first
    opening brace; the star is greedy and [[\s\S]] accepts every character,
    so the match runs to the last closing brace.  [None] is [null]. *)

Definition openBrace : ascii := "{"%char.
Definition closeBrace : ascii := "}"%char.

Fixpoint fromFirstOpen (s : string) : option string :=
  match s with
  | EmptyString => None
  | String c rest => if Ascii.eqb c openBrace then Some s else fromFirstOpen rest
  end.

Fixpoint throughLastClose (s : string) : option string :=
  match s with
  | EmptyString => None
  | String c rest =>
      match throughLastClose rest with
      | Some p => Some (String c p)
      | None => if Ascii.eqb c closeBrace then Some (String c EmptyString) else None
      end
  end.

Definition jsonMatch (analysisResponse : string) : option string :=
  match fromFirstOpen analysisResponse with
  | Some tail => throughLastClose tail
  | None => None
  end.

(** The block the specification describes: the first balanced brace block,
    from the first opening brace to the closing brace that brings the
    nesting depth back to zero.  Written from the specification's words, to
    be compared with [jsonMatch]. *)
Fixpoint balancedPrefix (depth : nat) (s : string) : option string :=
  match s with
  | EmptyString => None
  | String c rest =>
      if Ascii.eqb c openBrace then
        option_map (String c) (balancedPrefix (S depth) rest)
      else if Ascii.eqb c closeBrace then
        match depth with
        | O => None
        | S O => Some (String c EmptyString)
        | S d => option_map (String c) (balancedPrefix d rest)
        end
      else option_map (String c) (balancedPrefix depth rest)
  end.

Definition spec_firstBalancedBlock (analysisResponse : string) : option string :=
  match fromFirstOpen analysisResponse with
  | Some tail => balancedPrefix 0 tail
  | None => None
  end.

(** The line feed and the double quote, for the texts that contain them. *)
Definition nl : string := String (ascii_of_nat 10) EmptyString.
Definition dq : string := String (ascii_of_nat 34) EmptyString.

(** ** Thrown values and outcomes *)

Inductive Thrown : Type :=
| ErrorObject (message : string)   (* an Error or one of its subclasses *)
| OtherValue (text : string).      (* any other value; [text] is String(value) *)

Inductive Outcome (A : Type) : Type :=
| Returned (a : A)
| Threw (e : Thrown).

Arguments Returned {A} a.
Arguments Threw {A} e.

Definition newError (message : string) : Thrown := ErrorObject message.

(** ** The component state of [GenerateReport] (lines 199-208) *)

Record ReportData : Type := mkReport {
  repaired_image_url : string;
  repair_description : JSValue;
  cost_estimation : JSValue;
  timeline : JSValue
}.

Record UIState : Type := mkUI {
  uploadedImage : option string;
  userDescription : string;
  isLoading : bool;
  reportData : option ReportData;
  error : option string;
  processingStep : string;
  retryCount : Z;
  retryDelay : Z;
  cacheStatus : option string;
  rateLimitStatus : option string
}.

Definition initialUI : UIState :=
  mkUI None "" false None None "" 0 0 None None.

Definition ui_setUploadedImage (v : option string) (u : UIState) : UIState :=
  mkUI v (userDescription u) (isLoading u) (reportData u) (error u)
       (processingStep u) (retryCount u) (retryDelay u) (cacheStatus u)
       (rateLimitStatus u).
Definition ui_setUserDescription (v : string) (u : UIState) : UIState :=
  mkUI (uploadedImage u) v (isLoading u) (reportData u) (error u)
       (processingStep u) (retryCount u) (retryDelay u) (cacheStatus u)
       (rateLimitStatus u).
Definition ui_setIsLoading (v : bool) (u : UIState) : UIState :=
  mkUI (uploadedImage u) (userDescription u) v (reportData u) (error u)
       (processingStep u) (retryCount u) (retryDelay u) (cacheStatus u)
       (rateLimitStatus u).
Definition ui_setReportData (v : option ReportData) (u : UIState) : UIState :=
  mkUI (uploadedImage u) (userDescription u) (isLoading u) v (error u)
       (processingStep u) (retryCount u) (retryDelay u) (cacheStatus u)
       (rateLimitStatus u).
Definition ui_setError (v : option string) (u : UIState) : UIState :=
  mkUI (uploadedImage u) (userDescription u) (isLoading u) (reportData u) v
       (processingStep u) (retryCount u) (retryDelay u) (cacheStatus u)
       (rateLimitStatus u).
Definition ui_setProcessingStep (v : string) (u : UIState) : UIState :=
  mkUI (uploadedImage u) (userDescription u) (isLoading u) (reportData u)
       (error u) v (retryCount u) (retryDelay u) (cacheStatus u)
       (rateLimitStatus u).
Definition ui_setRetryCount (f : Z -> Z) (u : UIState) : UIState :=
  mkUI (uploadedImage u) (userDescription u) (isLoading u) (reportData u)
       (error u) (processingStep u) (f (retryCount u)) (retryDelay u)
       (cacheStatus u) (rateLimitStatus u).
Definition ui_setRetryDelay (f : Z -> Z) (u : UIState) : UIState :=
  mkUI (uploadedImage u) (userDescription u) (isLoading u) (reportData u)
       (error u) (processingStep u) (retryCount u) (f (retryDelay u))
       (cacheStatus u) (rateLimitStatus u).
Definition ui_setCacheStatus (v : option string) (u : UIState) : UIState :=
  mkUI (uploadedImage u) (userDescription u) (isLoading u) (reportData u)
       (error u) (processingStep u) (retryCount u) (retryDelay u) v
       (rateLimitStatus u).
Definition ui_setRateLimitStatus (v : option string) (u : UIState) : UIState :=
  mkUI (uploadedImage u) (userDescription u) (isLoading u) (reportData u)
       (error u) (processingStep u) (retryCount u) (retryDelay u)
       (cacheStatus u) v.

(** ** The network *)

Inductive Endpoint : Type :=
| GenerateContent   (* .../models/gemini-1.5-pro:generateContent *)
| GenerateImage.    (* .../models/imagen-3.0-generate-001:generateImage *)

Record Request : Type := mkRequest {
  endpoint : Endpoint;
  key : string;
  promptText : string;
  inlineImage : option string
}.

Inductive Body : Type :=
| Json (v : JSValue)            (* response.json() resolves to v *)
| NotJson (message : string).   (* response.json() rejects with a SyntaxError *)

Inductive Reply : Type :=
| Rejected (message : string)           (* fetch rejects (transport failure) *)
| Responded (status : Z) (body : Body).

(** ** What the browser and the remote service decide

    [respond] gives, for the requests sent so far (the last one being the
    one in flight), the time the exchange takes and its reply; [hashTime]
    gives the time that fetching and hashing an image takes when it starts
    at a given time. *)
Record Platform : Type := mkPlatform {
  apiKey : option string;                 (* import.meta.env.VITE_GEMINI_API_KEY *)
  imageDigest : string -> option string;  (* fetch + SHA-256 of an image URL *)
  hashTime : Z -> string -> Z;
  loadImage : string -> option string;    (* canvas re-encoding; None: img.onerror *)
  respond : list Request -> Z * Reply;
  JSON_parse : string -> option JSValue;  (* None: SyntaxError *)
  JSON_stringify : JSValue -> JSValue     (* JSON.stringify(v, null, 2) *)
}.

(** ** The system state and the monad of asynchronous code *)

Record Sys : Type := mkSys {
  clock : Z;                      (* Date.now() *)
  manager : CacheManager.t;       (* the module-level cacheManager *)
  localStorage : LocalStorage;
  ui : UIState;
  sent : list Request;            (* fetches dispatched to the remote service *)
  slept : list Z;                 (* delays of the backoff timers awaited *)
  invocations : nat               (* calls of operation() by retryWithBackoff *)
}.

(** [sent], [slept] and [invocations] are observation logs: the code never
    reads them (only [respond] looks at the requests sent). *)

Definition M (A : Type) : Type := Sys -> Outcome A * Sys.

Definition ret {A} (a : A) : M A := fun s => (Returned a, s).

Definition bind {A B} (c : M A) (k : A -> M B) : M B :=
  fun s => match c s with
           | (Returned a, s') => k a s'
           | (Threw e, s') => (Threw e, s')
           end.

Definition throw {A} (e : Thrown) : M A := fun s => (Threw e, s).

Definition tryCatch {A} (body : M A) (handler : Thrown -> M A) : M A :=
  fun s => match body s with
           | (Returned a, s') => (Returned a, s')
           | (Threw e, s') => handler e s'
           end.

Definition tryFinally {A} (body : M A) (finalizer : M unit) : M A :=
  fun s => match body s with
           | (r, s') => match finalizer s' with
                        | (Returned _, s'') => (r, s'')
                        | (Threw e, s'') => (Threw e, s'')
                        end
           end.

Notation "x <- c ;; k" := (bind c (fun x => k))
  (at level 61, c at next level, right associativity).
Notation "c ;; k" := (bind c (fun _ => k))
  (at level 61, right associativity).

Definition setState (f : UIState -> UIState) : M unit :=
  fun s => (Returned tt,
            mkSys (clock s) (manager s) (localStorage s) (f (ui s)) (sent s) (slept s)
                  (invocations s)).

Definition withManager {A} (f : Z -> CacheManager.t -> A * CacheManager.t) : M A :=
  fun s => let (a, m) := f (clock s) (manager s) in
           (Returned a,
            mkSys (clock s) m (localStorage s) (ui s) (sent s) (slept s)
                  (invocations s)).

(** [await new Promise(resolve => setTimeout(resolve, delay))]. *)
Definition sleep (delay : Z) : M unit :=
  fun s => (Returned tt,
            mkSys (clock s + delay) (manager s) (localStorage s) (ui s) (sent s)
                  (slept s ++ [delay]) (invocations s)).

(** The call [operation()] of line 173, counted. *)
Definition invoke {A} (operation : Sys -> Outcome A * Sys) : Sys -> Outcome A * Sys :=
  fun s => operation (mkSys (clock s) (manager s) (localStorage s) (ui s) (sent s)
                            (slept s) (S (invocations s))).

(** Code that reads values without touching the state. *)
Definition andThen {A B} (o : Outcome A) (k : A -> Outcome B) : Outcome B :=
  match o with
  | Returned a => k a
  | Threw e => Threw e
  end.

Notation "x <~ o ;; k" := (andThen o (fun x => k))
  (at level 61, o at next level, right associativity).

Definition lift {A} (o : Outcome A) : M A := fun s => (o, s).

(** [x.name] and [x[i]] as expressions that may throw. *)
Definition read (v : JSValue) (name : string) : Outcome JSValue :=
  match prop v name with
  | Some x => Returned x
  | None => Threw (ErrorObject (typeErrorMessage v name))
  end.

Definition readItem (v : JSValue) (i : nat) : Outcome JSValue :=
  match item v i with
  | Some x => Returned x
  | None => Threw (ErrorObject (typeErrorMessage v (showZ (Z.of_nat i))))
  end.

(** [!data.candidates || !data.candidates[0] || !data.candidates[0].content]
    (line 353). *)
Definition noCandidate (data : JSValue) : Outcome bool :=
  candidates <~ read data "candidates" ;;
  if negb (truthy candidates) then Returned true
  else
    first <~ readItem candidates 0 ;;
    if negb (truthy first) then Returned true
    else
      content <~ read first "content" ;;
      Returned (negb (truthy content)).

(** [data.candidates[0].content.parts[0].text] (lines 357 and 417). *)
Definition candidateText (data : JSValue) : Outcome JSValue :=
  candidates <~ read data "candidates" ;;
  first <~ readItem candidates 0 ;;
  content <~ read first "content" ;;
  parts <~ read content "parts" ;;
  part <~ readItem parts 0 ;;
  read part "text".

(** [errorData.error?.message]. *)
Definition errorMessageOf (errorData : JSValue) : Outcome JSValue :=
  errorField <~ read errorData "error" ;;
  Returned (optProp errorField "message").

(** [data.generatedImages && data.generatedImages[0]], then the data URL of
    the image (lines 453-455); [None] when the test fails. *)
Definition generatedImage (data : JSValue) : Outcome (option string) :=
  generatedImages <~ read data "generatedImages" ;;
  if truthy generatedImages then
    first <~ readItem generatedImages 0 ;;
    if truthy first then
      bytes <~ read first "bytesBase64Encoded" ;;
      Returned (Some ("data:image/png;base64," ++ toString bytes))
    else Returned None
  else Returned None.

(** [Math.ceil(waitTime / 1000)]. *)
Definition ceilSeconds (waitTime : Z) : Z := - ((- waitTime) / 1000).

Definition rateLimitMessage (waitTime : Z) : string :=
  "Rate limit reached. Please wait " ++ showZ (ceilSeconds waitTime) ++ " seconds.".

(** [error instanceof Error ? error : new Error(String(error))]. *)
Definition asError (error : Thrown) : Thrown :=
  match error with
  | ErrorObject _ => error
  | OtherValue text => newError text
  end.

Definition messageOf (error : Thrown) : string :=
  match error with
  | ErrorObject message => message
  | OtherValue text => text
  end.

(** The error class that [retryWithBackoff] retries (lines 180-182). *)
Definition retryable (message : string) : bool :=
  includes message "quota" || includes message "429" || includes message "Rate limit".

Section Pipeline.

Variable P : Platform.

(** *** The cache manager as the asynchronous code calls it *)

(** [generateImageHash] (lines 45-52) awaits the fetch of the image and its
    digest: the clock read after it is later than the one read before. *)
Definition hashed (imageUrl : string) (s : Sys) : Sys :=
  mkSys (clock s + hashTime P (clock s) imageUrl) (manager s)
        (localStorage s) (ui s) (sent s) (slept s) (invocations s).

Definition generateImageHash (imageUrl : string) : M string :=
  fun s =>
    match imageDigest P imageUrl with
    | Some digest => (Returned digest, hashed imageUrl s)
    | None => (Threw (ErrorObject "Failed to fetch"), hashed imageUrl s)
    end.

Definition cacheManager_get (imageUrl prompt : string) : M (option JSValue) :=
  imageHash <- generateImageHash imageUrl ;;
  withManager (fun now this => CacheManager.get now imageHash prompt this).

Definition cacheManager_set (imageUrl prompt : string) (data : JSValue) : M unit :=
  imageHash <- generateImageHash imageUrl ;;
  fun s =>
    let (this, ls) :=
      CacheManager.set (clock s) imageHash prompt data (manager s) (localStorage s) in
    (Returned tt, mkSys (clock s) this ls (ui s) (sent s) (slept s) (invocations s)).

Definition cacheManager_canMakeRequest : M bool :=
  withManager CacheManager.canMakeRequest.

Definition cacheManager_recordRequest : M unit :=
  withManager (fun now this => (tt, CacheManager.recordRequest now this)).

Definition cacheManager_getNextAvailableTime : M Z :=
  withManager CacheManager.getNextAvailableTime.

(** *** fetch *)

Definition fetch (req : Request) : M (Z * Body) :=
  fun s =>
    let log := (sent s ++ [req])%list in
    let (elapsed, reply) := respond P log in
    let s' := mkSys (clock s + elapsed) (manager s) (localStorage s) (ui s)
                    log (slept s) (invocations s) in
    match reply with
    | Rejected message => (Threw (ErrorObject message), s')
    | Responded status body => (Returned (status, body), s')
    end.

(** [response.ok]. *)
Definition ok (status : Z) : bool := (200 <=? status) && (status <=? 299).

(** [await response.json()]. *)
Definition json (body : Body) : M JSValue :=
  match body with
  | Json v => ret v
  | NotJson message => throw (ErrorObject message)
  end.

(** *** retryWithBackoff (lines 158-196)

    [retryLoop] is the [for] loop: [remaining] counts the iterations
    left, [attempt] is the loop variable. *)
Fixpoint retryLoop {T} (retryConfig : RetryConfig) (operation : M T)
    (remaining : nat) (attempt delay : Z) (lastError : option Thrown) : M T :=
  match remaining with
  | O =>
      match lastError with
      | Some e => throw e
      | None => throw (OtherValue "null")
      end
  | S remaining' =>
      fun s =>
        match
          (permitted <- cacheManager_canMakeRequest ;;
           (if negb permitted then
              waitTime <- cacheManager_getNextAvailableTime ;;
              throw (newError (rateLimitMessage waitTime))
            else
              result <- invoke operation ;;
              cacheManager_recordRequest ;;
              ret result)) s
        with
        | (Returned result, s') => (Returned result, s')
        | (Threw error, s') =>
            let lastError := asError error in
            if negb (retryable (messageOf lastError)) then (Threw lastError, s')
            else if attempt <? maxRetries retryConfig - 1 then
              (sleep delay ;;
               retryLoop retryConfig operation remaining' (attempt + 1)
                 (Z.min (delay * backoffFactor retryConfig) (maxDelay retryConfig))
                 (Some lastError)) s'
            else
              retryLoop retryConfig operation remaining' (attempt + 1) delay
                (Some lastError) s'
        end
  end.

Definition retryWithBackoff {T} (operation : M T) (retryConfig : RetryConfig) : M T :=
  retryLoop retryConfig operation (Z.to_nat (maxRetries retryConfig)) 0
            (initialDelay retryConfig) None.

(** *** Fixed texts *)

Definition SYSTEM_PROMPT : string :=
"You are a civil engineer and architect AI specializing in infrastructure completion and restoration. Your task is to analyze the provided image and description of incomplete or damaged infrastructure. Focus on:

1. Identifying missing or incomplete structural elements
2. Analyzing the current state of the infrastructure
3. Providing detailed recommendations for completion and restoration
4. Ensuring compliance with Indian safety codes and structural standards

For the analysis, consider:
- Structural integrity and safety requirements
- Modern construction materials and techniques
- Cost-effective solutions
- Required permits and approvals
- Timeline for completion

Provide your analysis in a structured format with clear sections for:
- Current State Assessment
- Required Completion Work
- Safety and Compliance Requirements
- Cost Estimation
- Timeline and Phases
- Required Permits and Approvals".

(** The output-schema instructions that end the analysis prompt
    (lines 496-516). *)
Definition jsonFormat : string :=
  "{" ++ nl ++
  "  " ++ dq ++ "repair_description" ++ dq ++ ": {" ++ nl ++
  "    " ++ dq ++ "current_state" ++ dq ++ ": " ++ dq ++ "Analysis of current infrastructure state" ++ dq ++ "," ++ nl ++
  "    " ++ dq ++ "completion_requirements" ++ dq ++ ": " ++ dq ++ "Detailed list of what needs to be completed" ++ dq ++ "," ++ nl ++
  "    " ++ dq ++ "safety_measures" ++ dq ++ ": " ++ dq ++ "Required safety features and compliance measures" ++ dq ++ "," ++ nl ++
  "    " ++ dq ++ "recommendations" ++ dq ++ ": " ++ dq ++ "Step-by-step recommendations for completion" ++ dq ++ nl ++
  "  }," ++ nl ++
  "  " ++ dq ++ "cost_estimation" ++ dq ++ ": {" ++ nl ++
  "    " ++ dq ++ "total" ++ dq ++ ": " ++ dq ++ "₹X,XX,XXX INR" ++ dq ++ "," ++ nl ++
  "    " ++ dq ++ "breakdown" ++ dq ++ ": {" ++ nl ++
  "      " ++ dq ++ "materials" ++ dq ++ ": " ++ dq ++ "₹XX,XXX INR" ++ dq ++ "," ++ nl ++
  "      " ++ dq ++ "labor" ++ dq ++ ": " ++ dq ++ "₹XX,XXX INR" ++ dq ++ "," ++ nl ++
  "      " ++ dq ++ "permits" ++ dq ++ ": " ++ dq ++ "₹XX,XXX INR" ++ dq ++ "," ++ nl ++
  "      " ++ dq ++ "safety_equipment" ++ dq ++ ": " ++ dq ++ "₹XX,XXX INR" ++ dq ++ nl ++
  "    }" ++ nl ++
  "  }," ++ nl ++
  "  " ++ dq ++ "timeline" ++ dq ++ ": {" ++ nl ++
  "    " ++ dq ++ "estimated_duration" ++ dq ++ ": " ++ dq ++ "X weeks/months" ++ dq ++ "," ++ nl ++
  "    " ++ dq ++ "phases" ++ dq ++ ": [" ++ dq ++ "Phase 1: ..." ++ dq ++ ", " ++ dq ++ "Phase 2: ..." ++ dq ++ "]" ++ nl ++
  "  }" ++ nl ++
  "}".

Definition fullPrompt (userDescription : string) : string :=
  SYSTEM_PROMPT ++ "

User's Infrastructure Description: " ++ userDescription ++ "

Please analyze the image and description to provide a comprehensive infrastructure completion plan. Include specific details about:
1. What elements are missing or incomplete
2. What needs to be added or repaired
3. How to ensure structural integrity
4. Cost estimates for completion
5. Required safety measures and compliance

Please provide your response in the following JSON format:
" ++ jsonFormat.

Definition missingKeyMessage : string :=
  "Gemini API key not found. Please add VITE_GEMINI_API_KEY to your .env file.".

Definition quotaMessage : string := "API quota exceeded. Retrying automatically...".

Definition accessDeniedMessage : string :=
  "API access denied. Please check your API key and billing status. " ++
  "Make sure your API key is valid and has the necessary permissions.".

(** The inline SVG returned when no image was synthesized
    (lines 449 and 458 hold the same text). *)
Definition placeholderImage : string :=
  "data:image/svg+xml;base64,PHN2ZyB3aWR0aD0iNTEyIiBoZWlnaHQ9IjUxMiIgeG1sbnM9Imh0dHA6Ly93d3cudzMub3JnLzIwMDAvc3ZnIj4KICA8cmVjdCB3aWR0aD0iNTEyIiBoZWlnaHQ9IjUxMiIgZmlsbD0iI2Y3ZjhmOSIvPgogIDx0ZXh0IHg9IjUwJSIgeT0iNDAlIiBmb250LWZhbWlseT0iQXJpYWwsIHNhbnMtc2VyaWYiIGZvbnQtc2l6ZT0iMjQiIGZpbGw9IiM2YjczODAiIHRleHQtYW5jaG9yPSJtaWRkbGUiPgogICAgUmVzdG9yZWQgU3RydWN0dXJlCiAgPC90ZXh0PgogIDx0ZXh0IHg9IjUwJSIgeT0iNjAlIiBmb250LWZhbWlseT0iQXJpYWwsIHNhbnMtc2VyaWYiIGZvbnQtc2l6ZT0iMTYiIGZpbGw9IiM5Y2EzYWYiIHRleHQtYW5jaG9yPSJtaWRkbGUiPgogICAgVmlzdWFsaXphdGlvbgogIDwvdGV4dD4KPC9zdmc+".

(** [!apiKey] is false exactly for a non-empty key. *)
Definition presentKey : option string :=
  match apiKey P with
  | Some k => if (k =? "")%string then None else Some k
  | None => None
  end.

(** *** convertImageToBase64 (lines 240-257)

    The promise rejects with the event of [img.onerror], which is not an
    Error. *)
Definition convertImageToBase64 (imageUrl : string) : M string :=
  match loadImage P imageUrl with
  | Some base64 => ret base64
  | None => throw (OtherValue "[object Event]")
  end.

(** *** callGeminiVision (lines 259-376)

    [uploadedImage] is the value the enclosing render captured. *)

(** The operation handed to [retryWithBackoff] (lines 275-375). *)
Definition analysisOperation (apiKey uploadedImage imageBase64 prompt : string)
  : M JSValue :=
  tryCatch
    (permitted <- cacheManager_canMakeRequest ;;
     (if negb permitted then
        waitTime <- cacheManager_getNextAvailableTime ;;
        setState (ui_setRateLimitStatus (Some (rateLimitMessage waitTime))) ;;
        throw (newError (rateLimitMessage waitTime))
      else ret tt) ;;
     response <- fetch (mkRequest GenerateContent apiKey prompt (Some imageBase64)) ;;
     let (status, body) := response in
     (if negb (ok status) then
        errorData <- json body ;;
        (if status =? 429 then
           setState (ui_setRetryCount (fun prev => prev + 1)) ;;
           setState (ui_setRetryDelay (fun prev =>
             Z.min (if prev * 2 =? 0 then initialDelay RETRY_CONFIG else prev * 2)
                   (maxDelay RETRY_CONFIG))) ;;
           throw (newError quotaMessage)
         else ret tt) ;;
        (if status =? 403 then throw (newError accessDeniedMessage)
         else
           message <- lift (errorMessageOf errorData) ;;
           if truthy message then
             throw (newError ("Gemini API error: " ++ toString message))
           else
             throw (newError ("API request failed with status " ++ showZ status)))
      else ret tt) ;;
     data <- json body ;;
     missing <- lift (noCandidate data) ;;
     (if (missing : bool) then throw (newError "No response generated from Gemini")
      else ret tt) ;;
     result <- lift (candidateText data) ;;
     cacheManager_set uploadedImage prompt result ;;
     setState (ui_setRetryCount (fun _ => 0)) ;;
     setState (ui_setRetryDelay (fun _ => 0)) ;;
     setState (ui_setCacheStatus None) ;;
     setState (ui_setRateLimitStatus None) ;;
     ret result)
    (fun error =>
       match error with
       | ErrorObject _ => throw error
       | OtherValue _ =>
           throw (newError "An unexpected error occurred while calling the Gemini API")
       end).

Definition callGeminiVision (uploadedImage imageBase64 prompt : string) : M JSValue :=
  match presentKey with
  | None => throw (newError missingKeyMessage)
  | Some apiKey =>
      cachedResult <- cacheManager_get uploadedImage prompt ;;
      let miss :=
        setState (ui_setCacheStatus (Some "Cache miss - calling API")) ;;
        retryWithBackoff
          (analysisOperation apiKey uploadedImage imageBase64 prompt) RETRY_CONFIG in
      match cachedResult with
      | Some v =>
          if truthy v then
            setState (ui_setCacheStatus (Some "Using cached result")) ;;
            ret v
          else miss
      | None => miss
      end
  end.

(** *** generateImageDescription (lines 378-418) *)

Definition imagePrompt (analysisText : string) : string :=
  "Based on this structural analysis: " ++ dq ++ substring0 500 analysisText ++ "..." ++ dq ++
  ", create a detailed description for generating an image of a fully restored Indian commercial building/viaduct structure. The description should include: modern materials, proper safety features, compliance with Indian building codes, professional finish, contemporary Indian infrastructure design elements, proper concrete finishing, modern safety railings, and urban Indian setting. Make it suitable for AI image generation.".

Definition generateImageDescription (analysisText : JSValue) : M JSValue :=
  match presentKey with
  | None => throw (newError missingKeyMessage)
  | Some apiKey =>
      match analysisText with
      | JStr text =>
          response <- fetch (mkRequest GenerateContent apiKey (imagePrompt text) None) ;;
          let (status, body) := response in
          if negb (ok status) then
            errorData <- json body ;;
            message <- lift (errorMessageOf errorData) ;;
            throw (newError ("Gemini API error: " ++
                             (if truthy message then toString message
                              else "Unknown error")))
          else
            data <- json body ;;
            lift (candidateText data)
      | JUndefined | JNull =>
          throw (ErrorObject (typeErrorMessage analysisText "substring"))
      | JBool _ | JNum _ | JArr _ | JObj _ =>
          throw (ErrorObject "analysisText.substring is not a function")
      end
  end.

(** *** generateRepairedImageWithGemini (lines 420-459) *)

Definition synthesisPrompt (enhancedDescription : JSValue) : string :=
  "Photorealistic image of a fully restored Indian commercial building/viaduct structure. " ++
  toString enhancedDescription ++
  " High quality architectural photography, professional lighting, modern construction materials, safety compliance with Indian building codes.".

Definition generateRepairedImageWithGemini (description : JSValue) : M string :=
  match presentKey with
  | None => throw (newError missingKeyMessage)
  | Some apiKey =>
      enhancedDescription <- generateImageDescription description ;;
      response <- fetch (mkRequest GenerateImage apiKey
                                   (synthesisPrompt enhancedDescription) None) ;;
      let (status, body) := response in
      if negb (ok status) then
        errorData <- json body ;;
        ret placeholderImage
      else
        data <- json body ;;
        image <- lift (generatedImage data) ;;
        match image with
        | Some url => ret url
        | None => ret placeholderImage
        end
  end.

(** *** handleGenerateReport (lines 461-600) *)

(** The report synthesized when no JSON could be read (lines 536-556). *)
Definition fallbackResponse (analysisResponse : string) : JSValue :=
  JObj
    [ ("repair_description",
       JObj [ ("current_state", JStr analysisResponse);
              ("completion_requirements", JStr "See detailed analysis above");
              ("safety_measures", JStr "Standard safety protocols apply");
              ("recommendations", JStr "Follow standard construction guidelines") ]);
      ("cost_estimation",
       JObj [ ("total", JStr "₹3,00,000 INR");
              ("breakdown",
               JObj [ ("materials", JStr "₹1,00,000 INR");
                      ("labor", JStr "₹1,50,000 INR");
                      ("permits", JStr "₹25,000 INR");
                      ("safety_equipment", JStr "₹25,000 INR") ]) ]);
      ("timeline",
       JObj [ ("estimated_duration", JStr "3 months");
              ("phases",
               JArr [ JStr "Phase 1: Initial assessment and planning";
                      JStr "Phase 2: Construction and completion" ]) ]) ].

(** The inner [try]/[catch] (lines 525-557): a missing match and a
    SyntaxError of [JSON.parse] both end in the fallback. *)
Definition parseAnalysis (analysisResponse : string) : JSValue :=
  match jsonMatch analysisResponse with
  | Some block =>
      match JSON_parse P block with
      | Some parsed => parsed
      | None => fallbackResponse analysisResponse
      end
  | None => fallbackResponse analysisResponse
  end.

(** [analysisResponse.match]: the receiver must be a string. *)
Definition parseStep (analysisResponse : JSValue) : M JSValue :=
  match analysisResponse with
  | JStr text => ret (parseAnalysis text)
  | JUndefined | JNull =>
      throw (ErrorObject (typeErrorMessage analysisResponse "match"))
  | JBool _ | JNum _ | JArr _ | JObj _ =>
      throw (ErrorObject "analysisResponse.match is not a function")
  end.

(** [finalReportData] (lines 559-564). *)
Definition assemble (repairedImageUrl : string) (parsedResponse : JSValue)
  : Outcome ReportData :=
  description <~ read parsedResponse "repair_description" ;;
  cost <~ read parsedResponse "cost_estimation" ;;
  time <~ read parsedResponse "timeline" ;;
  Returned (mkReport repairedImageUrl (JSON_stringify P description) cost time).

(** The body of the outer [try] (lines 479-567). *)
Definition runReport (uploadedImage userDescription : string) : M unit :=
  imageBase64 <- convertImageToBase64 uploadedImage ;;
  setState (ui_setProcessingStep "Analyzing infrastructure with Gemini AI...") ;;
  analysisResponse <-
    callGeminiVision uploadedImage imageBase64 (fullPrompt userDescription) ;;
  setState (ui_setProcessingStep "Generating completed infrastructure visualization...") ;;
  repairedImageUrl <- generateRepairedImageWithGemini analysisResponse ;;
  parsedResponse <- parseStep analysisResponse ;;
  finalReportData <- lift (assemble repairedImageUrl parsedResponse) ;;
  setState (ui_setReportData (Some finalReportData)) ;;
  setState (ui_setProcessingStep "").

Definition maxRetriesText : string :=
  "

Maximum retry attempts reached. API Quota Exceeded
The application has reached its API usage limit. Please:
1. Try again later
2. Check your Google Cloud Console for quota status
3. Consider upgrading your API quota if needed

For more information, visit: https://ai.google.dev/gemini-api/docs/rate-limits".

(** The message computed by the outer [catch] (lines 570-589);
    [retryCount] is the value the render captured. *)
Definition errorMessageFor (retryCount : Z) (err : Thrown) : string :=
  match err with
  | ErrorObject message =>
      if includes message "quota" || includes message "429" then
        if retryCount >=? maxRetries RETRY_CONFIG then
          "Failed to generate report. " ++ maxRetriesText
        else
          "Retrying automatically (Attempt " ++ showZ (retryCount + 1) ++ "/" ++
          showZ (maxRetries RETRY_CONFIG) ++ ")..."
      else "Failed to generate report. " ++ message
  | OtherValue _ =>
      "Failed to generate report. " ++ "An unexpected error occurred. Please try again."
  end.

(** The outer [catch] block (lines 568-594). *)
Definition reportFailure (retryCount : Z) (err : Thrown) : M unit :=
  let errorMessage := errorMessageFor retryCount err in
  setState (ui_setError (Some errorMessage)) ;;
  if negb (includes errorMessage "Retrying") then
    setState (ui_setProcessingStep "")
  else ret tt.

(** The [finally] block (lines 595-599). *)
Definition releaseLoading (retryCount : Z) : M unit :=
  if retryCount >=? maxRetries RETRY_CONFIG then setState (ui_setIsLoading false)
  else ret tt.

(** [!s.trim()]: every character of [s] is white space or a line
    terminator.  Texts are held as UTF-8: the white space of ECMAScript is
    the ASCII characters 9 to 13 and 32, and the code points U+00A0, U+1680,
    U+2000 to U+200A, U+2028, U+2029, U+202F, U+205F, U+3000 and U+FEFF,
    which take two or three bytes. *)
Definition isWhiteSpace (c : ascii) : bool :=
  let n := nat_of_ascii c in
  (Nat.eqb n 32 || (Nat.leb 9 n && Nat.leb n 13))%bool.

Definition isWhiteSpace2 (c1 c2 : ascii) : bool :=
  (Nat.eqb (nat_of_ascii c1) 194 && Nat.eqb (nat_of_ascii c2) 160)%bool.

Definition isWhiteSpace3 (c1 c2 c3 : ascii) : bool :=
  let n1 := nat_of_ascii c1 in
  let n2 := nat_of_ascii c2 in
  let n3 := nat_of_ascii c3 in
  ((Nat.eqb n1 225 && Nat.eqb n2 154 && Nat.eqb n3 128)
   || (Nat.eqb n1 226 && Nat.eqb n2 128
       && ((Nat.leb 128 n3 && Nat.leb n3 138) || Nat.eqb n3 168 || Nat.eqb n3 169
           || Nat.eqb n3 175))
   || (Nat.eqb n1 226 && Nat.eqb n2 129 && Nat.eqb n3 159)
   || (Nat.eqb n1 227 && Nat.eqb n2 128 && Nat.eqb n3 128)
   || (Nat.eqb n1 239 && Nat.eqb n2 187 && Nat.eqb n3 191))%bool.

Fixpoint blank (s : string) : bool :=
  match s with
  | EmptyString => true
  | String c1 rest1 =>
      if isWhiteSpace c1 then blank rest1
      else
        match rest1 with
        | EmptyString => false
        | String c2 rest2 =>
            if isWhiteSpace2 c1 c2 then blank rest2
            else
              match rest2 with
              | EmptyString => false
              | String c3 rest3 =>
                  if isWhiteSpace3 c1 c2 c3 then blank rest3 else false
              end
        end
  end.

(** The setters called before the outer [try] (lines 472-476). *)
Definition startRun : M unit :=
  setState (ui_setIsLoading true) ;;
  setState (ui_setError None) ;;
  setState (ui_setProcessingStep "Converting image...") ;;
  setState (ui_setRetryCount (fun _ => 0)) ;;
  setState (ui_setRetryDelay (fun _ => 0)).

(** [handleGenerateReport], as created by the render whose state is
    [render]: the constants [uploadedImage], [userDescription] and
    [retryCount] it reads are the ones of that render, whatever the
    setters do meanwhile. *)
Definition handleGenerateReport (render : UIState) : M unit :=
  match uploadedImage render with
  | None => setState (ui_setError (Some "Please upload an image of the infrastructure."))
  | Some image =>
      if (image =? "")%string then
        setState (ui_setError (Some "Please upload an image of the infrastructure."))
      else if blank (userDescription render) then
        setState (ui_setError (Some
          "Please provide a description of the infrastructure and what needs to be completed."))
      else
        startRun ;;
        tryFinally
          (tryCatch (runReport image (userDescription render))
                    (reportFailure (retryCount render)))
          (releaseLoading (retryCount render))
  end.

(** [canGenerateReport] (line 602), which enables the button. *)
Definition canGenerateReport (u : UIState) : bool :=
  match uploadedImage u with
  | Some image => negb (image =? "")%string && negb (isLoading u)
  | None => false
  end.

(** A click on the button: the handler of the current render runs. *)
Definition click : M unit :=
  fun s => handleGenerateReport (ui s) s.

(** [handleImageUpload] (lines 234-238). *)
Definition handleImageUpload (imageUrl : string) : M unit :=
  setState (ui_setUploadedImage (Some imageUrl)) ;;
  setState (ui_setError None) ;;
  setState (ui_setReportData None).

End Pipeline.

(** ** Vocabulary of the statements *)

(** The operation throws a retryable error whenever it is invoked. *)
Definition failsRetryably {T} (operation : M T) : Prop :=
  forall s, exists error s',
    operation s = (Threw error, s') /\ retryable (messageOf (asError error)) = true.

(** The operation does not itself await backoff timers or go through the
    retry controller: it leaves the two observation logs alone. *)
Definition keepsLogs {T} (operation : M T) : Prop :=
  forall s, slept (snd (operation s)) = slept s /\
            invocations (snd (operation s)) = invocations s.

(** Fewer than [maxRequestsPerMinute] timestamps are held, so that
    [canMakeRequest] answers true whatever the time. *)
Definition windowOpen (s : Sys) : Prop :=
  Z.of_nat (List.length (CacheManager.requestTimestamps (manager s)))
  < RATE_LIMIT_CONFIG.maxRequestsPerMinute.

Definition keepsWindowOpen {T} (operation : M T) : Prop :=
  forall s, windowOpen s -> windowOpen (snd (operation s)).

(** The delays of [count] successive backoff timers, the first being
    [delay] (line 190). *)
Fixpoint backoffDelays (retryConfig : RetryConfig) (count : nat) (delay : Z) : list Z :=
  match count with
  | O => []
  | S count' =>
      delay :: backoffDelays retryConfig count'
                 (Z.min (delay * backoffFactor retryConfig) (maxDelay retryConfig))
  end.

(** [l] is non-decreasing. *)
Fixpoint nonDecreasing (l : list Z) : Prop :=
  match l with
  | [] => True
  | x :: rest =>
      match rest with
      | [] => True
      | y :: _ => x <= y /\ nonDecreasing rest
      end
  end.

(** The state in which a run that passed the input checks calls
    [callGeminiVision] (line 518), and the state in which it calls
    [generateRepairedImageWithGemini] (line 522) once the analysis has
    returned in state [s]. *)
Definition atAnalysis (s : Sys) : Sys :=
  snd ((startRun ;;
        setState (ui_setProcessingStep "Analyzing infrastructure with Gemini AI...")) s).

Definition atVisualization (s : Sys) : Sys :=
  snd (setState
         (ui_setProcessingStep "Generating completed infrastructure visualization...") s).

(** The character [c] occurs in [s]. *)
Fixpoint occurs (c : ascii) (s : string) : bool :=
  match s with
  | EmptyString => false
  | String c' rest => Ascii.eqb c' c || occurs c rest
  end.

(** How a session evolves from a state [s0]: the user uploads images, edits
    the description and, while the button is enabled, clicks it; time
    passes between the events. *)
Inductive evolves (P : Platform) (s0 : Sys) : Sys -> Prop :=
| evolves_here : evolves P s0 s0
| evolves_upload (s : Sys) (imageUrl : string) :
    evolves P s0 s -> evolves P s0 (snd (handleImageUpload imageUrl s))
| evolves_edit (s : Sys) (text : string) :
    evolves P s0 s -> evolves P s0 (snd (setState (ui_setUserDescription text) s))
| evolves_click (s : Sys) :
    evolves P s0 s -> canGenerateReport (ui s) = true -> evolves P s0 (snd (click P s))
| evolves_wait (s : Sys) (elapsed : Z) :
    evolves P s0 s -> 0 <= elapsed ->
    evolves P s0 (mkSys (clock s + elapsed) (manager s) (localStorage s) (ui s)
                        (sent s) (slept s) (invocations s)).

(** A session starts with a fresh component and a manager loaded from the
    durable store. *)
Definition sessionStart (now : Z) (ls : LocalStorage) : Sys :=
  mkSys now (CacheManager.new ls) ls initialUI [] [] 0.

Definition reachable (P : Platform) (s : Sys) : Prop :=
  exists now ls, evolves P (sessionStart now ls) s.

(** [keeps Q c]: whatever [c] does, and whether it returns or throws, a
    component state that satisfies [Q] before satisfies [Q] after. *)
Definition keeps {A} (Q : UIState -> Prop) (c : M A) : Prop :=
  forall s, Q (ui s) -> Q (ui (snd (c s))).

(** [ensures R c]: whenever [c] returns, the component state satisfies
    [R]. *)
Definition ensures {A} (R : UIState -> Prop) (c : M A) : Prop :=
  forall s a s', c s = (Returned a, s') -> R (ui s').

(** [Q] is stable under the setters that the analysis call uses. *)
Definition aboveAnalysis (Q : UIState -> Prop) : Prop :=
  (forall v u, Q u -> Q (ui_setCacheStatus v u)) /\
  (forall v u, Q u -> Q (ui_setRateLimitStatus v u)) /\
  (forall f u, Q u -> Q (ui_setRetryCount f u)) /\
  (forall f u, Q u -> Q (ui_setRetryDelay f u)).

(** An operation that always answers with a quota error. *)
Definition alwaysQuota : M JSValue :=
  fun s => (Threw (ErrorObject "API quota exceeded. Retrying automatically..."), s).

(** ** A reference platform

    The theorems below hold for every [Platform].  To run the model on
    concrete inputs, [Json] gives [JSON.stringify(v, null, 2)] and a
    [JSON.parse] for the texts whose numbers are integers and whose strings
    carry no \u escape, and [browser] packs them with a scripted network. *)

Module Json.

(** *** Printing *)

Definition hexDigit (n : nat) : ascii :=
  ascii_of_nat (if Nat.ltb n 10 then 48 + n else 87 + n).

Definition escapeChar (c : ascii) : string :=
  let n := nat_of_ascii c in
  if Nat.eqb n 34 then "\" ++ dq
  else if Nat.eqb n 92 then "\\"
  else if Nat.eqb n 8 then "\b"
  else if Nat.eqb n 9 then "\t"
  else if Nat.eqb n 10 then "\n"
  else if Nat.eqb n 12 then "\f"
  else if Nat.eqb n 13 then "\r"
  else if Nat.ltb n 32 then
    "\u00" ++ String (hexDigit (Nat.div n 16)) (String (hexDigit (Nat.modulo n 16)) "")
  else String c "".

Fixpoint escape (s : string) : string :=
  match s with
  | EmptyString => ""
  | String c rest => escapeChar c ++ escape rest
  end.

Definition quote (s : string) : string := dq ++ escape s ++ dq.

Definition present (v : JSValue) : bool :=
  match v with JUndefined => false | _ => true end.

(** [render indent v]: the text of [v] when it stands at indentation
    [indent]; [undefined] has no text of its own. *)
Fixpoint render (indent : string) (v : JSValue) : string :=
  match v with
  | JUndefined | JNull => "null"
  | JBool true => "true"
  | JBool false => "false"
  | JNum n => showZ n
  | JStr s => quote s
  | JArr [] => "[]"
  | JArr items =>
      let inner := indent ++ "  " in
      "[" ++ nl ++
      (fix rows (l : list JSValue) : string :=
         match l with
         | [] => ""
         | [x] => inner ++ render inner x ++ nl
         | x :: rest => inner ++ render inner x ++ "," ++ nl ++ rows rest
         end) items ++
      indent ++ "]"
  | JObj fields =>
      let inner := indent ++ "  " in
      let body :=
        (fix rows (l : list (string * JSValue)) : list string :=
           match l with
           | [] => []
           | (k, x) :: rest =>
               if present x then (inner ++ quote k ++ ": " ++ render inner x) :: rows rest
               else rows rest
           end) fields in
      match body with
      | [] => "{}"
      | _ => "{" ++ nl ++ String.concat ("," ++ nl) body ++ nl ++ indent ++ "}"
      end
  end.

(** [JSON.stringify(v, null, 2)]. *)
Definition stringify (v : JSValue) : JSValue :=
  match v with
  | JUndefined => JUndefined
  | _ => JStr (render "" v)
  end.

(** *** Parsing *)

Inductive token : Type :=
| TOpenBrace | TCloseBrace | TOpenBracket | TCloseBracket | TColon | TComma
| TString (s : string) | TNumber (n : Z) | TTrue | TFalse | TNull.

Inductive mode : Type :=
| Idle
| InString (acc : string)      (* characters read so far, last first *)
| Escaped (acc : string)
| InNumber (negative : bool) (digits : list nat)   (* last digit first *)
| InWord (acc : string).

Fixpoint reverse (s acc : string) : string :=
  match s with
  | EmptyString => acc
  | String c rest => reverse rest (String c acc)
  end.

Definition isDigit (c : ascii) : bool :=
  let n := nat_of_ascii c in (Nat.leb 48 n && Nat.leb n 57)%bool.

Definition isSpace (c : ascii) : bool :=
  let n := nat_of_ascii c in
  (Nat.eqb n 32 || Nat.eqb n 9 || Nat.eqb n 10 || Nat.eqb n 13)%bool.

Definition isLetter (c : ascii) : bool :=
  let n := nat_of_ascii c in (Nat.leb 97 n && Nat.leb n 122)%bool.

Definition numberOf (negative : bool) (digits : list nat) : option token :=
  match rev digits with
  | [] => None
  | 0%nat :: _ :: _ => None          (* no leading zero *)
  | ds =>
      let n := fold_left (fun acc d => 10 * acc + Z.of_nat d) ds 0 in
      Some (TNumber (if negative then - n else n))
  end.

Definition wordOf (w : string) : option token :=
  if (w =? "true")%string then Some TTrue
  else if (w =? "false")%string then Some TFalse
  else if (w =? "null")%string then Some TNull
  else None.

Definition punctuation (c : ascii) : option token :=
  let n := nat_of_ascii c in
  if Nat.eqb n 123 then Some TOpenBrace
  else if Nat.eqb n 125 then Some TCloseBrace
  else if Nat.eqb n 91 then Some TOpenBracket
  else if Nat.eqb n 93 then Some TCloseBracket
  else if Nat.eqb n 58 then Some TColon
  else if Nat.eqb n 44 then Some TComma
  else None.

Definition unescape (c : ascii) : option ascii :=
  let n := nat_of_ascii c in
  if Nat.eqb n 34 then Some c
  else if Nat.eqb n 92 then Some c
  else if Nat.eqb n 47 then Some c
  else if Nat.eqb n 98 then Some (ascii_of_nat 8)
  else if Nat.eqb n 102 then Some (ascii_of_nat 12)
  else if Nat.eqb n 110 then Some (ascii_of_nat 10)
  else if Nat.eqb n 114 then Some (ascii_of_nat 13)
  else if Nat.eqb n 116 then Some (ascii_of_nat 9)
  else None.

(** What a character does outside a string, once the token that was being
    read (if any) has been closed. *)
Definition start (c : ascii) (out : list token) : option (mode * list token) :=
  if isSpace c then Some (Idle, out)
  else if Nat.eqb (nat_of_ascii c) 34 then Some (InString "", out)
  else if Nat.eqb (nat_of_ascii c) 45 then Some (InNumber true [], out)
  else if isDigit c then Some (InNumber false [(nat_of_ascii c - 48)%nat], out)
  else if isLetter c then Some (InWord (String c ""), out)
  else match punctuation c with
       | Some t => Some (Idle, t :: out)
       | None => None
       end.

(** The tokens of a text, last first. *)
Fixpoint lex (m : mode) (s : string) (out : list token) : option (list token) :=
  match s with
  | EmptyString =>
      match m with
      | Idle => Some out
      | InString _ | Escaped _ => None
      | InNumber negative digits => option_map (fun t => t :: out) (numberOf negative digits)
      | InWord w => option_map (fun t => t :: out) (wordOf (reverse w ""))
      end
  | String c rest =>
      match m with
      | Idle =>
          match start c out with
          | Some (m', out') => lex m' rest out'
          | None => None
          end
      | InString acc =>
          let n := nat_of_ascii c in
          if Nat.eqb n 34 then lex Idle rest (TString (reverse acc "") :: out)
          else if Nat.eqb n 92 then lex (Escaped acc) rest out
          else if Nat.ltb n 32 then None
          else lex (InString (String c acc)) rest out
      | Escaped acc =>
          match unescape c with
          | Some c' => lex (InString (String c' acc)) rest out
          | None => None
          end
      | InNumber negative digits =>
          if isDigit c then
            lex (InNumber negative ((nat_of_ascii c - 48)%nat :: digits)) rest out
          else
            match numberOf negative digits with
            | Some t =>
                match start c (t :: out) with
                | Some (m', out') => lex m' rest out'
                | None => None
                end
            | None => None
            end
      | InWord w =>
          if isLetter c then lex (InWord (String c w)) rest out
          else
            match wordOf (reverse w "") with
            | Some t =>
                match start c (t :: out) with
                | Some (m', out') => lex m' rest out'
                | None => None
                end
            | None => None
            end
      end
  end.

(** A later member of the same name replaces the earlier one where it
    stands. *)
Fixpoint define (k : string) (v : JSValue) (fields : list (string * JSValue))
  : list (string * JSValue) :=
  match fields with
  | [] => [(k, v)]
  | (k', v') :: rest =>
      if (k' =? k)%string then (k, v) :: rest else (k', v') :: define k v rest
  end.

Fixpoint value (fuel : nat) (ts : list token) : option (JSValue * list token) :=
  match fuel with
  | O => None
  | S fuel' =>
      match ts with
      | TString s :: rest => Some (JStr s, rest)
      | TNumber n :: rest => Some (JNum n, rest)
      | TTrue :: rest => Some (JBool true, rest)
      | TFalse :: rest => Some (JBool false, rest)
      | TNull :: rest => Some (JNull, rest)
      | TOpenBracket :: TCloseBracket :: rest => Some (JArr [], rest)
      | TOpenBracket :: rest =>
          match value fuel' rest with
          | Some (v, rest') => elements fuel' [v] rest'
          | None => None
          end
      | TOpenBrace :: TCloseBrace :: rest => Some (JObj [], rest)
      | TOpenBrace :: TString k :: TColon :: rest =>
          match value fuel' rest with
          | Some (v, rest') => members fuel' [(k, v)] rest'
          | None => None
          end
      | _ => None
      end
  end
with elements (fuel : nat) (acc : list JSValue) (ts : list token)
  : option (JSValue * list token) :=
  match fuel with
  | O => None
  | S fuel' =>
      match ts with
      | TCloseBracket :: rest => Some (JArr acc, rest)
      | TComma :: rest =>
          match value fuel' rest with
          | Some (v, rest') => elements fuel' (acc ++ [v]) rest'
          | None => None
          end
      | _ => None
      end
  end
with members (fuel : nat) (acc : list (string * JSValue)) (ts : list token)
  : option (JSValue * list token) :=
  match fuel with
  | O => None
  | S fuel' =>
      match ts with
      | TCloseBrace :: rest => Some (JObj acc, rest)
      | TComma :: TString k :: TColon :: rest =>
          match value fuel' rest with
          | Some (v, rest') => members fuel' (define k v acc) rest'
          | None => None
          end
      | _ => None
      end
  end.

(** [JSON.parse] on the texts whose numbers are integers and whose strings
    carry no \u escape; [None] is the SyntaxError. *)
Definition parse (text : string) : option JSValue :=
  match lex Idle text [] with
  | Some reversed =>
      let ts := rev reversed in
      match value (S (List.length ts)) ts with
      | Some (v, []) => Some v
      | _ => None
      end
  | None => None
  end.

End Json.

(** The [n]-th request sent receives the [n]-th reply of the script; past
    its end the transport fails. *)
Definition scripted (script : list (Z * Reply)) (log : list Request) : Z * Reply :=
  nth (List.length log - 1) script (0, Rejected "Failed to fetch").

(** A browser in which every image loads, the text of an image URL stands
    for its digest and for its base64 re-encoding, hashing takes no time,
    and the network follows [script]. *)
Definition browser (apiKey : option string) (script : list (Z * Reply)) : Platform :=
  {| apiKey := apiKey;
     imageDigest := fun imageUrl => Some imageUrl;
     hashTime := fun _ _ => 0;
     loadImage := fun imageUrl => Some imageUrl;
     respond := scripted script;
     JSON_parse := Json.parse;
     JSON_stringify := Json.stringify |}.

(** The same platform, on which every hashing of an image takes [t]
    milliseconds. *)
Definition withHashTime (t : Z) (P : Platform) : Platform :=
  {| apiKey := apiKey P;
     imageDigest := imageDigest P;
     hashTime := fun _ _ => t;
     loadImage := loadImage P;
     respond := respond P;
     JSON_parse := JSON_parse P;
     JSON_stringify := JSON_stringify P |}.

(** Replies of the remote service: a generated text, a quota refusal, a
    server error, and the refusal of a model that is not available. *)
Definition candidateReply (text : string) : Reply :=
  Responded 200
    (Json (JObj [("candidates",
                  JArr [JObj [("content",
                               JObj [("parts", JArr [JObj [("text", JStr text)]])])]])])).

Definition quotaReply : Reply :=
  Responded 429
    (Json (JObj [("error",
                  JObj [("code", JNum 429);
                        ("message", JStr "Resource has been exhausted.");
                        ("status", JStr "RESOURCE_EXHAUSTED")])])).

Definition serverErrorReply : Reply :=
  Responded 500
    (Json (JObj [("error", JObj [("code", JNum 500);
                                 ("message", JStr "Internal error encountered.")])])).

Definition modelNotFoundReply : Reply :=
  Responded 404
    (Json (JObj [("error", JObj [("code", JNum 404);
                                 ("message", JStr "Model is not found.")])])).

(** The component once an image is uploaded and a description typed. *)
Definition readyUI : UIState :=
  ui_setUserDescription "crack in beam" (ui_setUploadedImage (Some "blob:1") initialUI).

Definition freshSystem (now : Z) (u : UIState) : Sys :=
  mkSys now (CacheManager.new (mkStorage NoItem true)) (mkStorage NoItem true) u [] [] 0.

(** A system whose limiter holds ten requests recorded at time [now]. *)
Definition saturatedSystem (now : Z) : Sys :=
  mkSys now
        (fold_left (fun m t => CacheManager.recordRequest t m) (repeat now 10)
                   (CacheManager.new (mkStorage NoItem true)))
        (mkStorage NoItem true) initialUI [] [] 0.

(** ** Vocabulary of the further properties *)

(** The keys of a map, in insertion order. *)
Definition keysOf (m : JsMap) : list string := map fst m.

(** A map of [n] entries, numbered from 0 in the order of their creation. *)
Definition numberedEntries (n : nat) : JsMap :=
  map (fun i => (CacheManager.cacheKey (showZ (Z.of_nat i)) "p",
                 mkEntry (JStr "kept") (1000 + Z.of_nat i) (showZ (Z.of_nat i))))
      (seq 0 n).

(** The bounds of the manager: distinct keys, at most [maxEntries] entries,
    at most [maxRequestsPerMinute] timestamps; [withRoom] leaves room for
    one more timestamp. *)
Definition withinBounds (m : CacheManager.t) : Prop :=
  NoDup (keysOf (CacheManager.cache m)) /\
  Map_size (CacheManager.cache m) <= CACHE_CONFIG.maxEntries /\
  Z.of_nat (List.length (CacheManager.requestTimestamps m))
    <= RATE_LIMIT_CONFIG.maxRequestsPerMinute.

Definition withRoom (m : CacheManager.t) : Prop :=
  NoDup (keysOf (CacheManager.cache m)) /\
  Map_size (CacheManager.cache m) <= CACHE_CONFIG.maxEntries /\
  Z.of_nat (List.length (CacheManager.requestTimestamps m))
    < RATE_LIMIT_CONFIG.maxRequestsPerMinute.

(** [maintains J c]: whatever [c] does, a manager that satisfies [J] before
    satisfies [J] after. *)
Definition maintains {A} (J : CacheManager.t -> Prop) (c : M A) : Prop :=
  forall s, J (manager s) -> J (manager (snd (c s))).

(** [J] withstands the lookups, the insertions and the pruning of the
    window. *)
Definition withstands (J : CacheManager.t -> Prop) : Prop :=
  (forall now h p m, J m -> J (snd (CacheManager.get now h p m))) /\
  (forall now h p v m ls, J m -> J (fst (CacheManager.set now h p v m ls))) /\
  (forall now m, J m -> J (snd (CacheManager.canMakeRequest now m))).

(** The limiter is asked again at each of [times], in turn. *)
Definition askedAgain (times : list Z) (m : CacheManager.t) : CacheManager.t :=
  fold_left (fun m t => snd (CacheManager.canMakeRequest t m)) times m.

(** ** PDFGenerator.tsx: the name of the saved file (lines 176-177) *)

Module PDFGenerator.

(** [s.replace(/:/g, '-')]. *)
Fixpoint replaceColons (s : string) : string :=
  match s with
  | EmptyString => EmptyString
  | String c rest =>
      String (if Ascii.eqb c ":"%char then "-"%char else c) (replaceColons rest)
  end.

(** [timestamp], for [iso] the text of [new Date().toISOString()]. *)
Definition timestamp (iso : string) : string :=
  replaceColons (substring 0 19 iso).

(** The argument of [pdf.save]. *)
Definition fileName (iso : string) : string :=
  "Infrastructure-Completion-Report-" ++ timestamp iso ++ ".pdf".

End PDFGenerator.


(** What a request to the service leaves alone, and the bound [n] on the
    requests sent between two states. *)
Definition besidesNetwork (s s' : Sys) : Prop :=
  manager s' = manager s /\ localStorage s' = localStorage s /\
  slept s' = slept s /\ invocations s' = invocations s /\ ui s' = ui s.

Definition sendsAtMost (n : nat) (s s' : Sys) : Prop :=
  besidesNetwork s s' /\ (List.length (sent s') <= n + List.length (sent s))%nat.

(** * Properties *)

(** ** Lists, maps and the sliding window *)

Lemma filter_keeps_all {A} (f : A -> bool) (l : list A) :
  (forall x, In x l -> f x = true) -> filter f l = l.
Proof.
  induction l as [|a l IH]; intros H; simpl; [reflexivity|].
  rewrite (H a (or_introl eq_refl)), IH; [reflexivity|].
  intros x Hx. apply H. now right.
Qed.

Lemma filter_drops_one {A} (f : A -> bool) (l : list A) (x : A) :
  In x l -> f x = false -> (List.length (filter f l) < List.length l)%nat.
Proof.
  induction l as [|a l IH]; intros Hin Hx; simpl in *; [contradiction|].
  destruct Hin as [->|Hin].
  - rewrite Hx. pose proof (filter_length_le f l). lia.
  - specialize (IH Hin Hx). destruct (f a); simpl; lia.
Qed.

Lemma recorded_timestamps (stamps : list Z) (this : CacheManager.t) :
  CacheManager.requestTimestamps
    (fold_left (fun m t => CacheManager.recordRequest t m) stamps this)
  = (CacheManager.requestTimestamps this ++ stamps)%list.
Proof.
  revert this. induction stamps as [|t stamps IH]; intros this; simpl.
  - now rewrite app_nil_r.
  - rewrite IH. simpl. now rewrite <- app_assoc.
Qed.

Lemma new_has_no_timestamps (ls : LocalStorage) :
  CacheManager.requestTimestamps (CacheManager.new ls) = [].
Proof.
  unfold CacheManager.new, CacheManager.loadFromLocalStorage.
  destruct (geminiApiCache ls); reflexivity.
Qed.

Lemma Map_get_set_same (k : string) (e : CacheEntry) (m : JsMap) :
  Map_get k (Map_set k e m) = Some e.
Proof.
  induction m as [|[k' e'] m IH]; simpl.
  - now rewrite String.eqb_refl.
  - destruct (k' =? k)%string eqn:E; simpl.
    + now rewrite String.eqb_refl.
    + now rewrite E.
Qed.

Lemma Map_get_delete_same (k : string) (m : JsMap) :
  Map_get k (Map_delete k m) = None.
Proof.
  induction m as [|[k' e'] m IH]; simpl; [reflexivity|].
  destruct (k' =? k)%string eqn:E; simpl; [assumption|].
  now rewrite E.
Qed.

Lemma Map_get_delete_other (k k0 : string) (m : JsMap) :
  k0 <> k -> Map_get k0 (Map_delete k m) = Map_get k0 m.
Proof.
  intros Hne. induction m as [|[k' e'] m IH]; simpl; [reflexivity|].
  destruct (k' =? k)%string eqn:E; simpl.
  - apply String.eqb_eq in E. subst k'.
    destruct (k =? k0)%string eqn:E0; [|assumption].
    apply String.eqb_eq in E0. congruence.
  - now rewrite IH.
Qed.

Lemma Map_get_set_other (k k0 : string) (e : CacheEntry) (m : JsMap) :
  k0 <> k -> Map_get k0 (Map_set k e m) = Map_get k0 m.
Proof.
  intros Hne. induction m as [|[k' e'] m IH]; simpl.
  - destruct (k =? k0)%string eqn:E; [apply String.eqb_eq in E; congruence | reflexivity].
  - destruct (k' =? k)%string eqn:E; simpl.
    + apply String.eqb_eq in E. subst k'.
      destruct (k =? k0)%string eqn:E0; [apply String.eqb_eq in E0; congruence|reflexivity].
    + now rewrite IH.
Qed.

Lemma Map_get_delete_absent (k k0 : string) (m : JsMap) :
  Map_get k0 m = None -> Map_get k0 (Map_delete k m) = None.
Proof.
  induction m as [|[k' e'] m IH]; simpl; [reflexivity|].
  destruct (k' =? k0)%string eqn:E0; [discriminate|]. intros H.
  destruct (k' =? k)%string; simpl; [now apply IH|].
  rewrite E0. now apply IH.
Qed.

Lemma Map_get_evictOldest_absent (k0 : string) (m : JsMap) :
  Map_get k0 m = None -> Map_get k0 (CacheManager.evictOldest m) = None.
Proof.
  intros H. unfold CacheManager.evictOldest.
  destruct (Map_size m >=? CACHE_CONFIG.maxEntries); [|exact H].
  destruct (sortByTimestamp m) as [|[oldestKey oldest] rest]; [exact H|].
  now apply Map_get_delete_absent.
Qed.

Lemma canMakeRequest_answer (now : Z) (this : CacheManager.t) :
  fst (CacheManager.canMakeRequest now this) =
  (Z.of_nat (List.length
     (filter (fun t => now - t <? RATE_LIMIT_CONFIG.cooldownPeriod)
             (CacheManager.requestTimestamps this)))
   <? RATE_LIMIT_CONFIG.maxRequestsPerMinute).
Proof. reflexivity. Qed.

Lemma canMakeRequest_timestamps (now : Z) (this : CacheManager.t) :
  CacheManager.requestTimestamps (snd (CacheManager.canMakeRequest now this)) =
  filter (fun t => now - t <? RATE_LIMIT_CONFIG.cooldownPeriod)
         (CacheManager.requestTimestamps this).
Proof. reflexivity. Qed.

(** C7. Rate limiter: once [maxRequestsPerMinute] requests have been
    recorded on a fresh manager, all of them inside the window at [now],
    [canMakeRequest] answers false and prunes nothing; at a later time at
    which a recorded request (the oldest one in particular) is at least
    [cooldownPeriod] old, [canMakeRequest] answers true with no further
    [recordRequest], because the timestamps that left the window are
    filtered out before the count is compared. *)
Theorem rate_limiter_refuses_then_recovers
    (ls : LocalStorage) (stamps : list Z) (now later oldest : Z) :
  Z.of_nat (List.length stamps) = RATE_LIMIT_CONFIG.maxRequestsPerMinute ->
  (forall t, In t stamps -> now - t < RATE_LIMIT_CONFIG.cooldownPeriod) ->
  In oldest stamps ->
  (forall t, In t stamps -> oldest <= t) ->
  RATE_LIMIT_CONFIG.cooldownPeriod <= later - oldest ->
  let recorded :=
    fold_left (fun m t => CacheManager.recordRequest t m) stamps (CacheManager.new ls) in
  let first := CacheManager.canMakeRequest now recorded in
  let second := CacheManager.canMakeRequest later (snd first) in
  fst first = false /\
  CacheManager.requestTimestamps (snd first) = stamps /\
  fst second = true /\
  CacheManager.requestTimestamps (snd second) =
    filter (fun t => later - t <? RATE_LIMIT_CONFIG.cooldownPeriod) stamps.
Proof.
  intros Hlen Hin Hold _ Hlater recorded first second.
  assert (Hrec : CacheManager.requestTimestamps recorded = stamps).
  { unfold recorded. now rewrite recorded_timestamps, new_has_no_timestamps. }
  assert (Hkeep :
    filter (fun t => now - t <? RATE_LIMIT_CONFIG.cooldownPeriod) stamps = stamps).
  { apply filter_keeps_all. intros t Ht. apply Z.ltb_lt. now apply Hin. }
  assert (Hfirst : CacheManager.requestTimestamps (snd first) = stamps).
  { unfold first. now rewrite canMakeRequest_timestamps, Hrec. }
  repeat split.
  - unfold first. rewrite canMakeRequest_answer, Hrec, Hkeep.
    apply Z.ltb_ge. lia.
  - exact Hfirst.
  - unfold second. rewrite canMakeRequest_answer, Hfirst.
    apply Z.ltb_lt.
    pose proof (filter_drops_one
      (fun t => later - t <? RATE_LIMIT_CONFIG.cooldownPeriod) stamps oldest Hold)
      as Hdrop.
    assert (Hgone : (later - oldest <? RATE_LIMIT_CONFIG.cooldownPeriod) = false)
      by (apply Z.ltb_ge; lia).
    specialize (Hdrop Hgone). lia.
  - unfold second. now rewrite canMakeRequest_timestamps, Hfirst.
Qed.

(** The theorem at ten requests recorded one second apart. *)
Lemma rate_limiter_refuses_then_recovers_witness :
  let stamps := [1000; 2000; 3000; 4000; 5000; 6000; 7000; 8000; 9000; 10000] in
  let recorded :=
    fold_left (fun m t => CacheManager.recordRequest t m) stamps
              (CacheManager.new (mkStorage NoItem true)) in
  fst (CacheManager.canMakeRequest 10500 recorded) = false /\
  fst (CacheManager.canMakeRequest 61000
         (snd (CacheManager.canMakeRequest 10500 recorded))) = true.
Proof.
  pose proof (rate_limiter_refuses_then_recovers (mkStorage NoItem true)
    [1000; 2000; 3000; 4000; 5000; 6000; 7000; 8000; 9000; 10000] 10500 61000 1000)
    as H.
  assert (Hbound : forall t,
    In t [1000; 2000; 3000; 4000; 5000; 6000; 7000; 8000; 9000; 10000] ->
    1000 <= t <= 10000).
  { simpl. intros t Ht.
    repeat (destruct Ht as [<-|Ht]; [lia|]). contradiction. }
  destruct H as (H1 & _ & H3 & _).
  - reflexivity.
  - intros t Ht. apply Hbound in Ht. unfold RATE_LIMIT_CONFIG.cooldownPeriod. lia.
  - simpl. now left.
  - intros t Ht. apply Hbound in Ht. lia.
  - unfold RATE_LIMIT_CONFIG.cooldownPeriod. lia.
  - split; assumption.
Defined.

(** ** The result cache *)

(** C8. Cache: a [set] followed by a [get] with the same content hash and
    request text, less than [maxAge] later, returns the stored value; and a
    [get] that finds an entry whose age is at least [maxAge] returns null
    and deletes that entry (and no other) from the map. *)
Theorem cache_put_get_and_expiry
    (this that : CacheManager.t) (ls : LocalStorage)
    (contentHash requestIntent : string) (value : JSValue)
    (putTime getTime lookupTime : Z) (entry : CacheEntry) :
  getTime - putTime < CACHE_CONFIG.maxAge ->
  Map_get (CacheManager.cacheKey contentHash requestIntent) (CacheManager.cache that)
    = Some entry ->
  CACHE_CONFIG.maxAge <= lookupTime - timestamp entry ->
  fst (CacheManager.get getTime contentHash requestIntent
         (fst (CacheManager.set putTime contentHash requestIntent value this ls)))
    = Some value
  /\
  (let lookup := CacheManager.get lookupTime contentHash requestIntent that in
   fst lookup = None /\
   Map_get (CacheManager.cacheKey contentHash requestIntent)
           (CacheManager.cache (snd lookup)) = None /\
   forall k, k <> CacheManager.cacheKey contentHash requestIntent ->
             Map_get k (CacheManager.cache (snd lookup))
             = Map_get k (CacheManager.cache that)).
Proof.
  intros Hfresh Hentry Hold. split.
  - unfold CacheManager.set, CacheManager.get. simpl.
    rewrite Map_get_set_same. simpl.
    destruct (getTime - putTime <? CACHE_CONFIG.maxAge) eqn:E; [reflexivity|].
    apply Z.ltb_ge in E. lia.
  - unfold CacheManager.get. rewrite Hentry. simpl.
    destruct (lookupTime - timestamp entry <? CACHE_CONFIG.maxAge) eqn:E.
    + apply Z.ltb_lt in E. lia.
    + simpl. repeat split.
      * apply Map_get_delete_same.
      * intros k Hk. now apply Map_get_delete_other.
Qed.

(** The theorem at a value stored at time 0 and read back at once, and at an
    entry read exactly [maxAge] after its creation. *)
Lemma cache_put_get_and_expiry_witness :
  let fresh := CacheManager.mk [] [] in
  let old := CacheManager.mk [("abc-describe", mkEntry (JStr "kept") 0 "abc")] [] in
  fst (CacheManager.get 0 "abc" "describe"
         (fst (CacheManager.set 0 "abc" "describe" (JStr "analysis") fresh
                 (mkStorage NoItem true))))
    = Some (JStr "analysis")
  /\ fst (CacheManager.get 86400000 "abc" "describe" old) = None
  /\ CacheManager.cache (snd (CacheManager.get 86400000 "abc" "describe" old)) = [].
Proof.
  pose proof (cache_put_get_and_expiry
    (CacheManager.mk [] [])
    (CacheManager.mk [("abc-describe", mkEntry (JStr "kept") 0 "abc")] [])
    (mkStorage NoItem true) "abc" "describe" (JStr "analysis") 0 0 86400000
    (mkEntry (JStr "kept") 0 "abc")) as H.
  destruct H as (H1 & H2 & _).
  - reflexivity.
  - reflexivity.
  - vm_compute. discriminate.
  - split; [exact H1|]. split; [exact H2|]. reflexivity.
Defined.

(** ** The retry controller *)

Lemma canMakeRequest_run (s : Sys) :
  cacheManager_canMakeRequest s =
  (Returned (fst (CacheManager.canMakeRequest (clock s) (manager s))),
   mkSys (clock s) (snd (CacheManager.canMakeRequest (clock s) (manager s)))
         (localStorage s) (ui s) (sent s) (slept s) (invocations s)).
Proof. reflexivity. Qed.

Lemma windowOpen_admits (s : Sys) :
  windowOpen s -> fst (CacheManager.canMakeRequest (clock s) (manager s)) = true.
Proof.
  unfold windowOpen. intros H. rewrite canMakeRequest_answer. apply Z.ltb_lt.
  pose proof (filter_length_le
    (fun t => clock s - t <? RATE_LIMIT_CONFIG.cooldownPeriod)
    (CacheManager.requestTimestamps (manager s))).
  lia.
Qed.

Lemma windowOpen_pruned (s : Sys) :
  windowOpen s -> windowOpen (snd (cacheManager_canMakeRequest s)).
Proof.
  unfold windowOpen. intros H. rewrite canMakeRequest_run. simpl.
  pose proof (filter_length_le
    (fun t => clock s - t <? RATE_LIMIT_CONFIG.cooldownPeriod)
    (CacheManager.requestTimestamps (manager s))).
  lia.
Qed.

(** *** The analysis operation and the loop, one step at a time *)






Lemma filter_idem {A} (f : A -> bool) (l : list A) :
  filter f (filter f l) = filter f l.
Proof.
  induction l as [|x l IH]; [reflexivity|]. simpl.
  destruct (f x) eqn:E; simpl; [rewrite E, IH; reflexivity | exact IH].
Qed.

Lemma admitted_windowOpen (s : Sys) :
  fst (CacheManager.canMakeRequest (clock s) (manager s)) = true ->
  windowOpen (snd (cacheManager_canMakeRequest s)).
Proof.
  intros H. rewrite canMakeRequest_answer in H. apply Z.ltb_lt in H.
  unfold windowOpen. rewrite canMakeRequest_run. cbn [snd manager].
  now rewrite canMakeRequest_timestamps.
Qed.

Lemma retryLoop_exhausts {T} (retryConfig : RetryConfig) (operation : M T) :
  failsRetryably operation -> keepsLogs operation -> keepsWindowOpen operation ->
  forall (n : nat) (attempt delay : Z) (lastError : option Thrown) (s : Sys),
    windowOpen s ->
    attempt + Z.of_nat (S n) = maxRetries retryConfig ->
    exists error sLast,
      retryLoop retryConfig operation (S n) attempt delay lastError s
        = (Threw (asError error), snd (operation sLast)) /\
      fst (operation sLast) = Threw error /\
      retryable (messageOf (asError error)) = true /\
      invocations (snd (operation sLast)) = (invocations s + S n)%nat /\
      slept (snd (operation sLast)) = (slept s ++ backoffDelays retryConfig n delay)%list /\
      windowOpen (snd (operation sLast)).
Proof.
  intros Hfail Hlogs Hopen n.
  induction n as [|n IH]; intros attempt delay lastError s Hs Hattempt.
  - (* the last attempt *)
    set (s1 := snd (cacheManager_canMakeRequest s)).
    set (s2 := mkSys (clock s1) (manager s1) (localStorage s1) (ui s1) (sent s1)
                     (slept s1) (S (invocations s1))).
    destruct (Hfail s2) as (error & s3 & Hrun & Hretry).
    exists error, s2.
    assert (Hs3 : snd (operation s2) = s3) by now rewrite Hrun.
    destruct (Hlogs s2) as [Hslept Hinv].
    repeat split.
    + cbn [retryLoop]. unfold bind at 1. rewrite canMakeRequest_run.
      rewrite (windowOpen_admits s Hs). cbn [negb].
      unfold bind at 1, invoke.
      change (mkSys _ _ _ _ _ _ (S _)) with s2 at 1.
      rewrite Hrun. rewrite Hretry. cbn [negb].
      replace (attempt <? maxRetries retryConfig - 1) with false
        by (symmetry; apply Z.ltb_ge; lia).
      reflexivity.
    + now rewrite Hrun.
    + exact Hretry.
    + rewrite Hinv. unfold s2, s1. rewrite canMakeRequest_run. simpl. lia.
    + rewrite Hslept. unfold s2, s1. rewrite canMakeRequest_run. simpl.
      now rewrite app_nil_r.
    + apply Hopen. unfold s2. apply windowOpen_pruned in Hs. exact Hs.
  - (* an attempt followed by a timer *)
    set (s1 := snd (cacheManager_canMakeRequest s)).
    set (s2 := mkSys (clock s1) (manager s1) (localStorage s1) (ui s1) (sent s1)
                     (slept s1) (S (invocations s1))).
    destruct (Hfail s2) as (error & s3 & Hrun & Hretry).
    assert (Hs3 : snd (operation s2) = s3) by now rewrite Hrun.
    destruct (Hlogs s2) as [Hslept Hinv].
    assert (Hopen3 : windowOpen s3).
    { rewrite <- Hs3. apply Hopen. unfold s2. apply windowOpen_pruned in Hs. exact Hs. }
    set (s4 := snd (sleep delay s3)).
    assert (Hopen4 : windowOpen s4) by exact Hopen3.
    destruct (IH (attempt + 1)
                 (Z.min (delay * backoffFactor retryConfig) (maxDelay retryConfig))
                 (Some (asError error)) s4 Hopen4 ltac:(lia))
      as (error' & sLast & Hloop & Hlast & Hretry' & Hinv' & Hslept' & Hopen').
    exists error', sLast. repeat split; try assumption.
    + rewrite <- Hloop.
      cbn [retryLoop]. unfold bind at 1. rewrite canMakeRequest_run.
      rewrite (windowOpen_admits s Hs). cbn [negb].
      unfold bind at 1, invoke.
      change (mkSys _ _ _ _ _ _ (S _)) with s2 at 1.
      rewrite Hrun. rewrite Hretry. cbn [negb].
      replace (attempt <? maxRetries retryConfig - 1) with true
        by (symmetry; apply Z.ltb_lt; lia).
      reflexivity.
    + rewrite Hinv'. unfold s4. simpl. rewrite <- Hs3, Hinv.
      unfold s2, s1. rewrite canMakeRequest_run. simpl. lia.
    + rewrite Hslept'. unfold s4. simpl. rewrite <- Hs3, Hslept.
      unfold s2, s1. rewrite canMakeRequest_run. simpl.
      now rewrite <- app_assoc.
Qed.

Lemma backoffDelays_bounded (retryConfig : RetryConfig) (count : nat) :
  1 <= backoffFactor retryConfig ->
  forall delay, 0 <= delay <= maxDelay retryConfig ->
    nonDecreasing (backoffDelays retryConfig count delay) /\
    Forall (fun d => d <= maxDelay retryConfig) (backoffDelays retryConfig count delay).
Proof.
  intros Hfactor. induction count as [|count IH]; intros delay Hdelay.
  - split; [exact I | constructor].
  - assert (Hnext : 0 <= Z.min (delay * backoffFactor retryConfig) (maxDelay retryConfig)
                    <= maxDelay retryConfig) by nia.
    destruct (IH _ Hnext) as [Hsorted Hcapped].
    split.
    + cbn [backoffDelays nonDecreasing].
      destruct count as [|count']; [exact I|].
      cbn [backoffDelays]. cbn [backoffDelays] in Hsorted.
      split; [nia | exact Hsorted].
    + cbn [backoffDelays]. constructor; [lia | exact Hcapped].
Qed.

Lemma canMakeRequest_idem (now : Z) (m : CacheManager.t) :
  CacheManager.canMakeRequest now (snd (CacheManager.canMakeRequest now m))
  = CacheManager.canMakeRequest now m.
Proof.
  unfold CacheManager.canMakeRequest, CacheManager.with_timestamps.
  cbn [snd CacheManager.requestTimestamps CacheManager.cache].
  now rewrite filter_idem.
Qed.

(** The loop behaves in the same way from the state that its first limiter
    check leaves. *)
Lemma retryLoop_from_pruned {T} (retryConfig : RetryConfig) (operation : M T)
    (n : nat) (attempt delay : Z) (lastError : option Thrown) (s : Sys) :
  retryLoop retryConfig operation (S n) attempt delay lastError
            (snd (cacheManager_canMakeRequest s))
  = retryLoop retryConfig operation (S n) attempt delay lastError s.
Proof.
  cbn [retryLoop]. unfold bind at 1 3.
  rewrite !canMakeRequest_run. cbn [snd clock manager].
  rewrite canMakeRequest_idem. reflexivity.
Qed.

(** Each iteration of the loop invokes the operation once at most. *)
Lemma retryLoop_invocations {T} (retryConfig : RetryConfig) (operation : M T) :
  keepsLogs operation ->
  forall (n : nat) (attempt delay : Z) (lastError : option Thrown) (s : Sys),
    (invocations (snd (retryLoop retryConfig operation n attempt delay lastError s))
     <= invocations s + n)%nat.
Proof.
  intros Hlogs n. induction n as [|n IH]; intros attempt delay lastError s.
  - simpl. destruct lastError; simpl; lia.
  - cbn [retryLoop].
    match goal with
    | |- (invocations (snd (match ?body s with _ => _ end)) <= _)%nat =>
        assert (Hbody : (invocations (snd (body s)) <= S (invocations s))%nat)
    end.
    { unfold bind at 1. rewrite canMakeRequest_run.
      destruct (fst (CacheManager.canMakeRequest (clock s) (manager s))); cbn [negb].
      - unfold bind at 1. unfold invoke.
        match goal with
        | |- context [operation ?s1] =>
            destruct (Hlogs s1) as [_ Hinv]; destruct (operation s1) as [[result|e] s2]
        end; cbn in *; lia.
      - unfold bind at 1, cacheManager_getNextAvailableTime, withManager.
        cbn [clock manager].
        destruct (CacheManager.getNextAvailableTime _ _); cbn; lia. }
    match goal with
    | |- (invocations (snd (match ?body with _ => _ end)) <= _)%nat =>
        destruct body as [[result|error] s']
    end; cbn [snd] in *; [lia|].
    destruct (negb (retryable (messageOf (asError error)))); cbn [snd]; [lia|].
    destruct (attempt <? maxRetries retryConfig - 1).
    + unfold bind at 1. cbn [sleep].
      match goal with
      | |- context [retryLoop ?c ?o n ?a ?d ?l ?s1] =>
          pose proof (IH a d l s1) as H1
      end. cbn [invocations] in H1. lia.
    + pose proof (IH (attempt + 1) delay (Some (asError error)) s') as H1. lia.
Qed.

(** When the limiter refuses the first attempt, that attempt invokes
    nothing. *)
Lemma retryLoop_refused_first {T} (retryConfig : RetryConfig) (operation : M T) :
  keepsLogs operation ->
  forall (n : nat) (attempt delay : Z) (lastError : option Thrown) (s : Sys),
    fst (CacheManager.canMakeRequest (clock s) (manager s)) = false ->
    (invocations (snd (retryLoop retryConfig operation (S n) attempt delay lastError s))
     <= invocations s + n)%nat.
Proof.
  intros Hlogs n attempt delay lastError s Hrefused.
  cbn [retryLoop]. unfold bind at 1. rewrite canMakeRequest_run, Hrefused.
  cbn [negb]. unfold bind at 1, cacheManager_getNextAvailableTime, withManager.
  cbn [clock manager].
  destruct (CacheManager.getNextAvailableTime _ _) as [w m']. cbn [throw].
  match goal with
  | |- context [retryable ?m] => destruct (negb (retryable m))
  end; cbn [snd invocations]; [lia|].
  destruct (attempt <? maxRetries retryConfig - 1).
  - unfold bind at 1. cbn [sleep].
    match goal with
    | |- context [retryLoop ?c ?o n ?a ?d ?l ?s1] =>
        pose proof (retryLoop_invocations c o Hlogs n a d l s1) as H1
    end. cbn [invocations] in H1. exact H1.
  - match goal with
    | |- context [retryLoop ?c ?o n ?a ?d ?l ?s1] =>
        pose proof (retryLoop_invocations c o Hlogs n a d l s1) as H1
    end. cbn [invocations] in H1. exact H1.
Qed.

(** C6 (amended). Retry controller: for an operation that throws a
    retryable error whenever it is invoked, and that records no request,
    - when the limiter admits the first attempt (fewer than
      [maxRequestsPerMinute] of the timestamps it holds are inside the
      window when [retryWithBackoff] starts; the later attempts are then
      admitted as well), the operation is invoked exactly [maxRetries]
      times; the timers awaited between the attempts are non-decreasing and
      never exceed [maxDelay]; and the error raised at the end is the one
      thrown by the last invocation, a retryable one;
    - when the limiter refuses the first attempt, the operation is invoked
      fewer than [maxRetries] times. *)
Theorem retry_exhaustion {T} (operation : M T) (retryConfig : RetryConfig) (s : Sys) :
  failsRetryably operation ->
  keepsLogs operation ->
  keepsWindowOpen operation ->
  1 <= maxRetries retryConfig ->
  0 <= initialDelay retryConfig <= maxDelay retryConfig ->
  1 <= backoffFactor retryConfig ->
  (fst (CacheManager.canMakeRequest (clock s) (manager s)) = true ->
   exists error sLast delays,
     retryWithBackoff operation retryConfig s
       = (Threw (asError error), snd (operation sLast)) /\
     fst (operation sLast) = Threw error /\
     retryable (messageOf (asError error)) = true /\
     invocations (snd (operation sLast))
       = (invocations s + Z.to_nat (maxRetries retryConfig))%nat /\
     slept (snd (operation sLast)) = (slept s ++ delays)%list /\
     delays = backoffDelays retryConfig (Z.to_nat (maxRetries retryConfig) - 1)
                            (initialDelay retryConfig) /\
     nonDecreasing delays /\
     Forall (fun d => d <= maxDelay retryConfig) delays)
  /\
  (fst (CacheManager.canMakeRequest (clock s) (manager s)) = false ->
   (invocations (snd (retryWithBackoff operation retryConfig s))
    < invocations s + Z.to_nat (maxRetries retryConfig))%nat).
Proof.
  intros Hfail Hlogs Hopen Hmax Hdelay Hfactor.
  destruct (Z.to_nat (maxRetries retryConfig)) as [|n] eqn:En; [lia|].
  split.
  - intros Hadmitted.
    destruct (retryLoop_exhausts retryConfig operation Hfail Hlogs Hopen n 0
                (initialDelay retryConfig) None
                (snd (cacheManager_canMakeRequest s))
                (admitted_windowOpen s Hadmitted) ltac:(lia))
      as (error & sLast & Hloop & Hlast & Hretry & Hinv & Hslept & _).
    rewrite retryLoop_from_pruned in Hloop.
    exists error, sLast, (backoffDelays retryConfig n (initialDelay retryConfig)).
    destruct (backoffDelays_bounded retryConfig n Hfactor _ Hdelay) as [Hsorted Hcapped].
    unfold retryWithBackoff. rewrite En.
    replace (S n - 1)%nat with n by lia.
    repeat split; assumption.
  - intros Hrefused. unfold retryWithBackoff. rewrite En.
    pose proof (retryLoop_refused_first retryConfig operation Hlogs n 0
                  (initialDelay retryConfig) None s Hrefused).
    lia.
Qed.

(** The theorem at the default configuration, a limiter that holds ten
    requests which have all left the window, and an operation that always
    answers with a quota error: three invocations, timers of 2 and 4
    seconds. *)
Lemma retry_exhaustion_witness :
  let s := mkSys 100000 (CacheManager.mk [] (repeat 0 10)) (mkStorage NoItem true)
                 initialUI [] [] 0 in
  let run := retryWithBackoff alwaysQuota RETRY_CONFIG s in
  invocations (snd run) = 3%nat /\
  slept (snd run) = [2000; 4000] /\
  fst run = Threw (ErrorObject "API quota exceeded. Retrying automatically...").
Proof.
  intros s.
  destruct (retry_exhaustion alwaysQuota RETRY_CONFIG s) as [Hadmitted _].
  - intros s0. exists (ErrorObject "API quota exceeded. Retrying automatically..."), s0.
    split; reflexivity.
  - intros s0. split; reflexivity.
  - intros s0 Hs. exact Hs.
  - simpl. lia.
  - simpl. lia.
  - simpl. lia.
  - destruct (Hadmitted eq_refl) as (error & sLast & delays & H1 & H2 & _ & H4 & H5 & H6 & _).
    vm_compute. repeat split.
Defined.

(** C6, as stated, fails when the limiter refuses the attempts: with ten
    requests recorded at the current time, an operation that always answers
    with a quota error is never invoked, and the error raised is the
    limiter's. *)
Lemma retry_saturated_window_counterexample :
  failsRetryably alwaysQuota /\
  (let run := retryWithBackoff alwaysQuota RETRY_CONFIG (saturatedSystem 1000) in
   invocations (snd run) = 0%nat /\
   slept (snd run) = [2000; 4000] /\
   fst run = Threw (ErrorObject "Rate limit reached. Please wait 54 seconds.")).
Proof.
  split.
  - intros s. exists (ErrorObject "API quota exceeded. Retrying automatically..."), s.
    split; reflexivity.
  - vm_compute. repeat split.
Qed.

(** ** The durable store *)

Lemma generateImageHash_run (P : Platform) (imageUrl digest : string) (s : Sys) :
  imageDigest P imageUrl = Some digest ->
  generateImageHash P imageUrl s = (Returned digest, hashed P imageUrl s).
Proof. intros H. unfold generateImageHash. now rewrite H. Qed.

Lemma cacheManager_get_run (P : Platform) (imageUrl prompt digest : string) (s : Sys) :
  imageDigest P imageUrl = Some digest ->
  let now := clock s + hashTime P (clock s) imageUrl in
  cacheManager_get P imageUrl prompt s =
  (Returned (fst (CacheManager.get now digest prompt (manager s))),
   mkSys now (snd (CacheManager.get now digest prompt (manager s)))
         (localStorage s) (ui s) (sent s) (slept s) (invocations s)).
Proof.
  intros Hdigest now. unfold cacheManager_get, bind.
  rewrite (generateImageHash_run P imageUrl digest s Hdigest).
  unfold withManager, hashed. cbn [clock manager localStorage ui sent slept invocations].
  fold now. destruct (CacheManager.get now digest prompt (manager s)); reflexivity.
Qed.

Lemma cacheManager_set_run (P : Platform) (imageUrl prompt digest : string)
    (v : JSValue) (s : Sys) :
  imageDigest P imageUrl = Some digest ->
  let now := clock s + hashTime P (clock s) imageUrl in
  cacheManager_set P imageUrl prompt v s =
  (Returned tt,
   mkSys now
         (fst (CacheManager.set now digest prompt v (manager s) (localStorage s)))
         (snd (CacheManager.set now digest prompt v (manager s) (localStorage s)))
         (ui s) (sent s) (slept s) (invocations s)).
Proof.
  intros Hdigest now. unfold cacheManager_set, bind.
  rewrite (generateImageHash_run P imageUrl digest s Hdigest).
  unfold hashed. cbn [clock manager localStorage ui sent slept invocations].
  fold now. destruct (CacheManager.set now digest prompt v (manager s) (localStorage s));
    reflexivity.
Qed.

Lemma cacheManager_get_storage (P : Platform) (imageUrl prompt : string) (s : Sys) :
  localStorage (snd (cacheManager_get P imageUrl prompt s)) = localStorage s.
Proof.
  unfold cacheManager_get, generateImageHash, bind.
  destruct (imageDigest P imageUrl) as [digest|]; [|reflexivity].
  unfold withManager.
  destruct (CacheManager.get _ digest prompt _); reflexivity.
Qed.

(** C10 (amended). [get] never writes the durable store: [localStorage] is
    the same before and after every lookup.  Hence an expired entry that the
    lookup deletes from the in-memory map, and that the durable store held,
    is still in the durable store afterwards, and a manager constructed from
    the store then loads it again.  This lasts until the next [set]: [set]
    rewrites the stored record from the in-memory map, so that after a [set]
    that follows the lookup a manager constructed from the store binds the
    key to an entry stamped with the time of that [set], if the [set] was for
    that key, and to nothing otherwise. *)
Theorem get_never_writes_durable_store
    (P : Platform) (s : Sys) (imageUrl prompt : string) :
  let lookup := cacheManager_get P imageUrl prompt s in
  localStorage (snd lookup) = localStorage s /\
  forall digest saved entry,
    let key := CacheManager.cacheKey digest prompt in
    imageDigest P imageUrl = Some digest ->
    geminiApiCache (localStorage s) = SavedCache saved ->
    Map_get key saved = Some entry ->
    Map_get key (CacheManager.cache (manager s)) = Some entry ->
    CACHE_CONFIG.maxAge <= clock s + hashTime P (clock s) imageUrl - timestamp entry ->
    fst lookup = Returned None /\
    Map_get key (CacheManager.cache (manager (snd lookup))) = None /\
    Map_get key (CacheManager.cache (CacheManager.new (localStorage (snd lookup))))
      = Some entry /\
    forall (later : Sys) (imageUrl' prompt' digest' : string) (v : JSValue),
      CacheManager.cache (manager later) = CacheManager.cache (manager (snd lookup)) ->
      localStorage later = localStorage (snd lookup) ->
      writable (localStorage s) = true ->
      imageDigest P imageUrl' = Some digest' ->
      let after := snd (cacheManager_set P imageUrl' prompt' v later) in
      option_map timestamp
        (Map_get key (CacheManager.cache (CacheManager.new (localStorage after)))) =
        if (CacheManager.cacheKey digest' prompt' =? key)%string
        then Some (clock after)
        else None.
Proof.
  intros lookup. split; [apply cacheManager_get_storage|].
  intros digest saved entry key Hdigest Hsaved Hdurable Hmemory Hold.
  assert (Hstore : localStorage (snd lookup) = localStorage s)
    by apply cacheManager_get_storage.
  assert (Hlookup : lookup =
    (Returned None,
     mkSys (clock s + hashTime P (clock s) imageUrl)
           (CacheManager.with_cache
              (Map_delete key (CacheManager.cache (manager s))) (manager s))
           (localStorage s) (ui s) (sent s) (slept s) (invocations s))).
  { unfold lookup. rewrite (cacheManager_get_run P imageUrl prompt digest s Hdigest).
    cbn zeta. unfold CacheManager.get. fold key. rewrite Hmemory. cbn zeta.
    replace (clock s + hashTime P (clock s) imageUrl - timestamp entry
             <? CACHE_CONFIG.maxAge) with false
      by (symmetry; apply Z.ltb_ge; lia).
    reflexivity. }
  assert (Hgone : Map_get key (CacheManager.cache (manager (snd lookup))) = None).
  { rewrite Hlookup. cbn. apply Map_get_delete_same. }
  split; [now rewrite Hlookup|]. split; [exact Hgone|]. split.
  - rewrite Hstore. unfold CacheManager.new, CacheManager.loadFromLocalStorage.
    rewrite Hsaved. exact Hdurable.
  - intros later imageUrl' prompt' digest' v Hcache Hls Hwritable Hdigest' after.
    unfold after.
    rewrite (cacheManager_set_run P imageUrl' prompt' digest' v later Hdigest').
    cbn zeta. cbn [snd localStorage clock].
    unfold CacheManager.set, CacheManager.saveToLocalStorage. cbn [snd].
    rewrite Hls, Hstore, Hwritable.
    unfold CacheManager.new, CacheManager.loadFromLocalStorage.
    cbn [geminiApiCache CacheManager.cache CacheManager.with_cache].
    rewrite Hcache.
    destruct (CacheManager.cacheKey digest' prompt' =? key)%string eqn:E.
    + apply String.eqb_eq in E. rewrite <- E. now rewrite Map_get_set_same.
    + rewrite Map_get_set_other.
      * now rewrite Map_get_evictOldest_absent.
      * intros Heq. rewrite Heq, String.eqb_refl in E. discriminate.
Qed.

(** The theorem at an entry created at time 0, held both in memory and in
    the durable store, and looked up exactly [maxAge] later; a [set] for the
    same request follows. *)
Lemma get_never_writes_durable_store_witness :
  let entry := mkEntry (JStr "old analysis") 0 "img" in
  let store := mkStorage (SavedCache [("img-p", entry)]) true in
  let s := mkSys 86400000 (CacheManager.new store) store initialUI [] [] 0 in
  let P := browser (Some "k") [] in
  let lookup := cacheManager_get P "img" "p" s in
  let after := snd (cacheManager_set P "img" "p" (JStr "new analysis") (snd lookup)) in
  fst lookup = Returned None /\
  CacheManager.cache (manager (snd lookup)) = [] /\
  localStorage (snd lookup) = store /\
  CacheManager.cache (CacheManager.new (localStorage (snd lookup))) = [("img-p", entry)] /\
  option_map timestamp
    (Map_get "img-p" (CacheManager.cache (CacheManager.new (localStorage after))))
    = Some 86400000.
Proof.
  intros entry store s P lookup after.
  destruct (get_never_writes_durable_store P s "img" "p") as [Hstore Hexpired].
  destruct (Hexpired "img" [("img-p", entry)] entry)
    as (Hnull & _ & Hreload & Hlater).
  - reflexivity.
  - reflexivity.
  - reflexivity.
  - reflexivity.
  - vm_compute. discriminate.
  - split; [exact Hnull|]. split; [reflexivity|]. split; [exact Hstore|].
    split; [reflexivity|].
    apply (Hlater (snd lookup) "img" "p" "img" (JStr "new analysis"));
      reflexivity.
Defined.

(** C10, as stated, fails once the analysis of the same image has been
    answered: the lookup deletes the expired entry from memory, the answer
    is [set], and the store then holds the new entry instead of the expired
    one, which the next session does not load. *)
Lemma expired_entry_overwritten_counterexample :
  let entry := mkEntry (JStr "old analysis") 0 "blob:1" in
  let store := mkStorage (SavedCache [("blob:1-p", entry)]) true in
  let s := mkSys 86400000 (CacheManager.new store) store readyUI [] [] 0 in
  let P := browser (Some "k") [(100, candidateReply "new analysis")] in
  let run := callGeminiVision P "blob:1" "blob:1" "p" s in
  Map_get "blob:1-p" (CacheManager.cache (manager s)) = Some entry /\
  fst run = Returned (JStr "new analysis") /\
  CacheManager.cache (CacheManager.new (localStorage (snd run)))
    = [("blob:1-p", mkEntry (JStr "new analysis") 86400100 "blob:1")].
Proof. vm_compute. repeat split. Qed.

(** ** What asynchronous code keeps of the component state *)

Section Keeps.

Context (Q : UIState -> Prop).

Lemma keeps_ret {A} (a : A) : keeps Q (ret a).
Proof. intros s H. exact H. Qed.

Lemma keeps_throw {A} (e : Thrown) : keeps Q (@throw A e).
Proof. intros s H. exact H. Qed.

Lemma keeps_lift {A} (o : Outcome A) : keeps Q (lift o).
Proof. intros s H. exact H. Qed.

Lemma keeps_bind {A B} (c : M A) (k : A -> M B) :
  keeps Q c -> (forall a, keeps Q (k a)) -> keeps Q (bind c k).
Proof.
  intros Hc Hk s H. unfold bind. specialize (Hc s H).
  destruct (c s) as [[a|e] s']; simpl in *; [now apply Hk | exact Hc].
Qed.

Lemma keeps_tryCatch {A} (body : M A) (handler : Thrown -> M A) :
  keeps Q body -> (forall e, keeps Q (handler e)) -> keeps Q (tryCatch body handler).
Proof.
  intros Hb Hh s H. unfold tryCatch. specialize (Hb s H).
  destruct (body s) as [[a|e] s']; simpl in *; [exact Hb | now apply Hh].
Qed.

Lemma keeps_tryFinally {A} (body : M A) (finalizer : M unit) :
  keeps Q body -> keeps Q finalizer -> keeps Q (tryFinally body finalizer).
Proof.
  intros Hb Hf s H. unfold tryFinally. specialize (Hb s H).
  destruct (body s) as [r s']; simpl in *. specialize (Hf s' Hb).
  destruct (finalizer s') as [[u|e] s'']; exact Hf.
Qed.

Lemma keeps_setState (f : UIState -> UIState) :
  (forall u, Q u -> Q (f u)) -> keeps Q (setState f).
Proof. intros Hf s H. simpl. now apply Hf. Qed.

Lemma keeps_withManager {A} (f : Z -> CacheManager.t -> A * CacheManager.t) :
  keeps Q (withManager f).
Proof.
  intros s H. unfold withManager.
  destruct (f (clock s) (manager s)); exact H.
Qed.

Lemma keeps_sleep (delay : Z) : keeps Q (sleep delay).
Proof. intros s H. exact H. Qed.

Lemma keeps_invoke {A} (operation : M A) : keeps Q operation -> keeps Q (invoke operation).
Proof. intros Hop s H. unfold invoke. now apply Hop. Qed.

Lemma keeps_json (body : Body) : keeps Q (json body).
Proof. destruct body; [apply keeps_ret | apply keeps_throw]. Qed.

Lemma keeps_fetch (P : Platform) (req : Request) : keeps Q (fetch P req).
Proof.
  intros s H. unfold fetch.
  destruct (respond P (sent s ++ [req])) as [elapsed [message|status body]]; exact H.
Qed.

Lemma keeps_generateImageHash (P : Platform) (imageUrl : string) :
  keeps Q (generateImageHash P imageUrl).
Proof.
  intros s H. unfold generateImageHash.
  destruct (imageDigest P imageUrl); exact H.
Qed.

Lemma keeps_cacheManager_get (P : Platform) (imageUrl prompt : string) :
  keeps Q (cacheManager_get P imageUrl prompt).
Proof.
  apply keeps_bind; [apply keeps_generateImageHash | intros; apply keeps_withManager].
Qed.

Lemma keeps_cacheManager_set (P : Platform) (imageUrl prompt : string) (v : JSValue) :
  keeps Q (cacheManager_set P imageUrl prompt v).
Proof.
  apply keeps_bind; [apply keeps_generateImageHash|].
  intros digest s H.
  destruct (CacheManager.set (clock s) digest prompt v (manager s) (localStorage s));
    exact H.
Qed.

Lemma keeps_retryLoop {T} (retryConfig : RetryConfig) (operation : M T) :
  keeps Q operation ->
  forall n attempt delay lastError,
    keeps Q (retryLoop retryConfig operation n attempt delay lastError).
Proof.
  intros Hop n. induction n as [|n IH]; intros attempt delay lastError.
  - simpl. destruct lastError; apply keeps_throw.
  - intros s H. cbn [retryLoop].
    match goal with
    | |- Q (ui (snd (match ?body s with _ => _ end))) =>
        assert (Hbody : keeps Q body)
    end.
    { apply keeps_bind; [apply keeps_withManager|]. intros permitted.
      destruct permitted; cbn [negb].
      - apply keeps_bind; [now apply keeps_invoke|]. intros result.
        apply keeps_bind; [apply keeps_withManager | intros; apply keeps_ret].
      - apply keeps_bind; [apply keeps_withManager | intros; apply keeps_throw]. }
    specialize (Hbody s H).
    match goal with
    | |- Q (ui (snd (match ?body with _ => _ end))) => destruct body as [[result|error] s']
    end; [exact Hbody|].
    simpl in Hbody.
    destruct (negb (retryable (messageOf (asError error)))); [exact Hbody|].
    destruct (attempt <? maxRetries retryConfig - 1).
    + apply (keeps_bind (sleep delay)); [apply keeps_sleep | intros; apply IH | exact Hbody].
    + now apply IH.
Qed.

Lemma keeps_retryWithBackoff {T} (operation : M T) (retryConfig : RetryConfig) :
  keeps Q operation -> keeps Q (retryWithBackoff operation retryConfig).
Proof. intros Hop. unfold retryWithBackoff. now apply keeps_retryLoop. Qed.

End Keeps.

(** Symbolic traversal of a computation for [keeps]. *)
Ltac keeps_step :=
  match goal with
  | |- keeps _ (bind _ _) => apply keeps_bind; [|intros ?]
  | |- keeps _ (tryCatch _ _) => apply keeps_tryCatch; [|intros ?]
  | |- keeps _ (ret _) => apply keeps_ret
  | |- keeps _ (throw _) => apply keeps_throw
  | |- keeps _ (lift _) => apply keeps_lift
  | |- keeps _ (json _) => apply keeps_json
  | |- keeps _ (fetch _ _) => apply keeps_fetch
  | |- keeps _ (sleep _) => apply keeps_sleep
  | |- keeps _ (cacheManager_get _ _ _) => apply keeps_cacheManager_get
  | |- keeps _ (cacheManager_set _ _ _ _) => apply keeps_cacheManager_set
  | |- keeps _ cacheManager_canMakeRequest => apply keeps_withManager
  | |- keeps _ cacheManager_recordRequest => apply keeps_withManager
  | |- keeps _ cacheManager_getNextAvailableTime => apply keeps_withManager
  | |- keeps _ (retryWithBackoff _ _) => apply keeps_retryWithBackoff
  | |- keeps _ (setState _) => apply keeps_setState; auto
  | |- keeps _ (if ?b then _ else _) => destruct b
  | |- keeps _ (match ?x with _ => _ end) => destruct x
  end.

Lemma keeps_analysisOperation (P : Platform) (Q : UIState -> Prop)
    (apiKey uploadedImage imageBase64 prompt : string) :
  aboveAnalysis Q ->
  keeps Q (analysisOperation P apiKey uploadedImage imageBase64 prompt).
Proof.
  intros (Hcache & Hrate & Hcount & Hdelay).
  unfold analysisOperation. repeat keeps_step.
Qed.

Lemma keeps_callGeminiVision (P : Platform) (Q : UIState -> Prop)
    (uploadedImage imageBase64 prompt : string) :
  aboveAnalysis Q ->
  keeps Q (callGeminiVision P uploadedImage imageBase64 prompt).
Proof.
  intros HQ. pose proof HQ as (Hcache & Hrate & Hcount & Hdelay).
  unfold callGeminiVision.
  repeat (keeps_step || (apply keeps_analysisOperation; exact HQ)).
Qed.

Lemma keeps_generateImageDescription (P : Platform) (Q : UIState -> Prop)
    (analysisText : JSValue) :
  keeps Q (generateImageDescription P analysisText).
Proof. unfold generateImageDescription. repeat keeps_step. Qed.

Lemma keeps_generateRepairedImageWithGemini (P : Platform) (Q : UIState -> Prop)
    (description : JSValue) :
  keeps Q (generateRepairedImageWithGemini P description).
Proof.
  unfold generateRepairedImageWithGemini.
  repeat (keeps_step || apply keeps_generateImageDescription).
Qed.

(** ** The run, step by step *)

Lemma click_runs (P : Platform) (s : Sys) (image : string) :
  uploadedImage (ui s) = Some image ->
  image <> "" ->
  blank (userDescription (ui s)) = false ->
  click P s =
  tryFinally
    (tryCatch (runReport P image (userDescription (ui s)))
              (reportFailure (retryCount (ui s))))
    (releaseLoading (retryCount (ui s)))
    (snd (startRun s)).
Proof.
  intros Himage Hnonempty Hblank.
  unfold click, handleGenerateReport. rewrite Himage.
  destruct (image =? "")%string eqn:E; [apply String.eqb_eq in E; contradiction|].
  rewrite Hblank. reflexivity.
Qed.

Lemma runReport_steps (P : Platform) (image description base64 : string) (s0 : Sys) :
  loadImage P image = Some base64 ->
  runReport P image description s0 =
  (analysisResponse <- callGeminiVision P image base64 (fullPrompt description) ;;
   setState (ui_setProcessingStep "Generating completed infrastructure visualization...") ;;
   repairedImageUrl <- generateRepairedImageWithGemini P analysisResponse ;;
   parsedResponse <- parseStep P analysisResponse ;;
   finalReportData <- lift (assemble P repairedImageUrl parsedResponse) ;;
   setState (ui_setReportData (Some finalReportData)) ;;
   setState (ui_setProcessingStep ""))
    (snd (setState (ui_setProcessingStep "Analyzing infrastructure with Gemini AI...") s0)).
Proof.
  intros Hload. unfold runReport, convertImageToBase64. rewrite Hload. reflexivity.
Qed.

Lemma atAnalysis_unfold (s : Sys) :
  snd (setState (ui_setProcessingStep "Analyzing infrastructure with Gemini AI...")
                (snd (startRun s))) = atAnalysis s.
Proof. reflexivity. Qed.


Lemma error_at_analysis (s : Sys) : error (ui (atAnalysis s)) = None.
Proof. reflexivity. Qed.

Lemma aboveAnalysis_error (x : option string) : aboveAnalysis (fun u => error u = x).
Proof. repeat split; intros; assumption. Qed.

Lemma aboveAnalysis_isLoading (x : bool) : aboveAnalysis (fun u => isLoading u = x).
Proof. repeat split; intros; assumption. Qed.

Lemma aboveAnalysis_reportData (x : option ReportData) :
  aboveAnalysis (fun u => reportData u = x).
Proof. repeat split; intros; assumption. Qed.

(** A run whose steps all return: the state it ends in. *)
Lemma click_success
    (P : Platform) (s s1 s2 : Sys) (image base64 response url : string)
    (report : ReportData) :
  uploadedImage (ui s) = Some image ->
  image <> "" ->
  blank (userDescription (ui s)) = false ->
  loadImage P image = Some base64 ->
  callGeminiVision P image base64 (fullPrompt (userDescription (ui s))) (atAnalysis s)
    = (Returned (JStr response), s1) ->
  generateRepairedImageWithGemini P (JStr response) (atVisualization s1)
    = (Returned url, s2) ->
  assemble P url (parseAnalysis P response) = Returned report ->
  click P s =
  (Returned tt,
   snd (releaseLoading (retryCount (ui s))
          (snd ((setState (ui_setReportData (Some report)) ;;
                 setState (ui_setProcessingStep "")) s2)))).
Proof.
  intros Himage Hnonempty Hblank Hload Hanalysis Hvisual Hassemble.
  rewrite (click_runs P s image Himage Hnonempty Hblank).
  unfold tryFinally, tryCatch.
  rewrite (runReport_steps P image _ base64 _ Hload), atAnalysis_unfold.
  unfold bind at 1. rewrite Hanalysis.
  unfold bind at 1. cbn [setState].
  change (mkSys (clock s1) (manager s1) (localStorage s1) _ (sent s1) (slept s1)
                (invocations s1)) with (atVisualization s1).
  unfold bind at 1. rewrite Hvisual.
  unfold bind at 1, parseStep, ret.
  unfold bind at 1, lift. rewrite Hassemble.
  cbn. unfold releaseLoading.
  destruct (retryCount (ui s) >=? maxRetries RETRY_CONFIG); reflexivity.
Qed.

(** A run whose analysis step returns and whose visualization step throws:
    the state it ends in. *)
Lemma click_visualization_failure
    (P : Platform) (s s1 s2 : Sys) (image base64 : string) (analysis : JSValue)
    (e : Thrown) :
  uploadedImage (ui s) = Some image ->
  image <> "" ->
  blank (userDescription (ui s)) = false ->
  loadImage P image = Some base64 ->
  callGeminiVision P image base64 (fullPrompt (userDescription (ui s))) (atAnalysis s)
    = (Returned analysis, s1) ->
  generateRepairedImageWithGemini P analysis (atVisualization s1) = (Threw e, s2) ->
  click P s =
  (Returned tt,
   snd (releaseLoading (retryCount (ui s))
          (snd (reportFailure (retryCount (ui s)) e s2)))).
Proof.
  intros Himage Hnonempty Hblank Hload Hanalysis Hvisual.
  rewrite (click_runs P s image Himage Hnonempty Hblank).
  unfold tryFinally, tryCatch.
  rewrite (runReport_steps P image _ base64 _ Hload), atAnalysis_unfold.
  unfold bind at 1. rewrite Hanalysis.
  unfold bind at 1. cbn [setState].
  change (mkSys (clock s1) (manager s1) (localStorage s1) _ (sent s1) (slept s1)
                (invocations s1)) with (atVisualization s1).
  unfold bind at 1. rewrite Hvisual.
  unfold releaseLoading, reportFailure.
  destruct (retryCount (ui s) >=? maxRetries RETRY_CONFIG);
    destruct (negb (includes (errorMessageFor (retryCount (ui s)) e) "Retrying"));
    reflexivity.
Qed.

Lemma analysis_keeps (P : Platform) (Q : UIState -> Prop) (s s1 : Sys)
    (image base64 prompt : string) (r : Outcome JSValue) :
  aboveAnalysis Q ->
  callGeminiVision P image base64 prompt s = (r, s1) ->
  Q (ui s) -> Q (ui s1).
Proof.
  intros HQ Hrun H.
  pose proof (keeps_callGeminiVision P Q image base64 prompt HQ s H) as H1.
  now rewrite Hrun in H1.
Qed.

Lemma visualization_keeps (P : Platform) (Q : UIState -> Prop) (s s1 : Sys)
    (description : JSValue) (r : Outcome string) :
  generateRepairedImageWithGemini P description s = (r, s1) ->
  Q (ui s) -> Q (ui s1).
Proof.
  intros Hrun H.
  pose proof (keeps_generateRepairedImageWithGemini P Q description s H) as H1.
  now rewrite Hrun in H1.
Qed.




(** ** The visualization step *)

(** The outcome of [generateImageDescription], by the reply to its
    request. *)
Lemma generateImageDescription_outcome
    (P : Platform) (k response : string) (s : Sys) (elapsed : Z) (reply : Reply) :
  presentKey P = Some k ->
  respond P (sent s ++ [mkRequest GenerateContent k (imagePrompt response) None])
    = (elapsed, reply) ->
  fst (generateImageDescription P (JStr response) s) =
    match reply with
    | Rejected message => Threw (ErrorObject message)
    | Responded status (NotJson message) => Threw (ErrorObject message)
    | Responded status (Json d) =>
        if ok status then candidateText d
        else
          match errorMessageOf d with
          | Returned message =>
              Threw (newError ("Gemini API error: " ++
                               (if truthy message then toString message
                                else "Unknown error")))
          | Threw e => Threw e
          end
    end.
Proof.
  intros Hkey Hrespond. unfold generateImageDescription. rewrite Hkey.
  unfold bind at 1, fetch. rewrite Hrespond.
  destruct reply as [message|status [d|message]]; [reflexivity | |].
  - destruct (ok status); cbn [negb].
    + unfold bind, json, ret, lift. reflexivity.
    + unfold bind at 1, json, ret. unfold bind, lift.
      destruct (errorMessageOf d); reflexivity.
  - destruct (ok status); reflexivity.
Qed.

(** The outcome of the image request, once the description is there. *)
Lemma generateRepairedImageWithGemini_outcome
    (P : Platform) (k : string) (analysis enhanced : JSValue) (s s2 : Sys)
    (elapsed : Z) (reply : Reply) :
  presentKey P = Some k ->
  generateImageDescription P analysis s = (Returned enhanced, s2) ->
  respond P (sent s2 ++ [mkRequest GenerateImage k (synthesisPrompt enhanced) None])
    = (elapsed, reply) ->
  fst (generateRepairedImageWithGemini P analysis s) =
    match reply with
    | Rejected message => Threw (ErrorObject message)
    | Responded status (NotJson message) => Threw (ErrorObject message)
    | Responded status (Json data) =>
        if ok status then
          match generatedImage data with
          | Returned (Some url) => Returned url
          | Returned None => Returned placeholderImage
          | Threw e => Threw e
          end
        else Returned placeholderImage
    end.
Proof.
  intros Hkey Hdescribe Hrespond. unfold generateRepairedImageWithGemini. rewrite Hkey.
  unfold bind at 1. rewrite Hdescribe.
  unfold bind at 1, fetch. rewrite Hrespond.
  destruct reply as [message|status [data|message]]; [reflexivity | |].
  - destruct (ok status); cbn [negb].
    + unfold bind at 1, json, ret. unfold bind, lift.
      destruct (generatedImage data) as [[url|]|e]; reflexivity.
    + reflexivity.
  - destruct (ok status); reflexivity.
Qed.

(** C1 (a defect of the code). In a run whose analysis step returns, the
    visualization step is not best-effort:
    - whenever [generateRepairedImageWithGemini] throws, the run sets no
      report and ends with the error message derived from that error;
    - an error thrown by [generateImageDescription] is thrown on by
      [generateRepairedImageWithGemini]: nothing catches it on the way;
    - [generateImageDescription] throws on a transport failure, on a body
      that is not JSON, on every non-2xx answer, and on a 2xx answer in which
      the text cannot be read;
    - once the description is there, the image request gives the placeholder
      on a non-2xx answer with a JSON body and on a 2xx answer with no
      generated image, and in no other case: it throws on a transport
      failure, on a body that is not JSON, and on a 2xx body on which the
      read of [generatedImages] throws. *)
Theorem visualization_failures
    (P : Platform) (s s1 : Sys) (image base64 k : string) (analysis : JSValue) :
  uploadedImage (ui s) = Some image ->
  image <> "" ->
  blank (userDescription (ui s)) = false ->
  loadImage P image = Some base64 ->
  presentKey P = Some k ->
  callGeminiVision P image base64 (fullPrompt (userDescription (ui s))) (atAnalysis s)
    = (Returned analysis, s1) ->
  let visualization := generateRepairedImageWithGemini P analysis (atVisualization s1) in
  (forall e s2,
     visualization = (Threw e, s2) ->
     fst (click P s) = Returned tt /\
     reportData (ui (snd (click P s))) = reportData (ui s) /\
     error (ui (snd (click P s))) = Some (errorMessageFor (retryCount (ui s)) e))
  /\
  (forall e s2,
     generateImageDescription P analysis (atVisualization s1) = (Threw e, s2) ->
     visualization = (Threw e, s2))
  /\
  (forall response elapsed reply,
     analysis = JStr response ->
     respond P (sent (atVisualization s1)
                ++ [mkRequest GenerateContent k (imagePrompt response) None])
       = (elapsed, reply) ->
     fst (generateImageDescription P analysis (atVisualization s1)) =
       match reply with
       | Rejected message => Threw (ErrorObject message)
       | Responded status (NotJson message) => Threw (ErrorObject message)
       | Responded status (Json d) =>
           if ok status then candidateText d
           else
             match errorMessageOf d with
             | Returned message =>
                 Threw (newError ("Gemini API error: " ++
                                  (if truthy message then toString message
                                   else "Unknown error")))
             | Threw e => Threw e
             end
       end)
  /\
  (forall enhanced s2 elapsed reply,
     generateImageDescription P analysis (atVisualization s1) = (Returned enhanced, s2) ->
     respond P (sent s2 ++ [mkRequest GenerateImage k (synthesisPrompt enhanced) None])
       = (elapsed, reply) ->
     fst visualization =
       match reply with
       | Rejected message => Threw (ErrorObject message)
       | Responded status (NotJson message) => Threw (ErrorObject message)
       | Responded status (Json data) =>
           if ok status then
             match generatedImage data with
             | Returned (Some url) => Returned url
             | Returned None => Returned placeholderImage
             | Threw e => Threw e
             end
           else Returned placeholderImage
       end).
Proof.
  intros Himage Hnonempty Hblank Hload Hkey Hanalysis visualization.
  split; [|split; [|split]].
  - intros e s2 Hvisual.
    rewrite (click_visualization_failure P s s1 s2 image base64 analysis e
               Himage Hnonempty Hblank Hload Hanalysis Hvisual).
    assert (Hreport : reportData (ui s2) = reportData (ui s)).
    { apply (visualization_keeps P (fun u => reportData u = reportData (ui s))
               _ _ _ _ Hvisual).
      apply (analysis_keeps P (fun u => reportData u = reportData (ui s)) _ _ _ _ _ _
               (aboveAnalysis_reportData _) Hanalysis).
      reflexivity. }
    unfold releaseLoading, reportFailure.
    destruct (retryCount (ui s) >=? maxRetries RETRY_CONFIG);
      destruct (negb (includes (errorMessageFor (retryCount (ui s)) e) "Retrying"));
      cbn; repeat split; assumption.
  - intros e s2 Hdescribe. unfold visualization, generateRepairedImageWithGemini.
    rewrite Hkey. unfold bind at 1. now rewrite Hdescribe.
  - intros response elapsed reply -> Hrespond.
    now apply (generateImageDescription_outcome P k response _ elapsed reply).
  - intros enhanced s2 elapsed reply Hdescribe Hrespond.
    now apply (generateRepairedImageWithGemini_outcome P k analysis enhanced _ s2
                 elapsed reply).
Qed.

(** The theorem at a run whose analysis is answered and whose description
    request receives a 500: the run ends with the error message and no
    report. *)
Lemma visualization_failures_witness :
  let P := browser (Some "k")
             [(100, candidateReply "all fine"); (100, serverErrorReply)] in
  let s := freshSystem 1000 readyUI in
  fst (callGeminiVision P "blob:1" "blob:1" (fullPrompt "crack in beam") (atAnalysis s))
    = Returned (JStr "all fine") /\
  fst (click P s) = Returned tt /\
  reportData (ui (snd (click P s))) = None /\
  error (ui (snd (click P s))) =
    Some "Failed to generate report. Gemini API error: Internal error encountered.".
Proof.
  intros P s.
  pose (a := callGeminiVision P "blob:1" "blob:1" (fullPrompt "crack in beam")
               (atAnalysis s)).
  pose (v := generateRepairedImageWithGemini P (JStr "all fine")
               (atVisualization (snd a))).
  destruct (visualization_failures P s (snd a) "blob:1" "blob:1" "k" (JStr "all fine"))
    as (Habort & _).
  - reflexivity.
  - discriminate.
  - reflexivity.
  - reflexivity.
  - reflexivity.
  - vm_compute. reflexivity.
  - destruct (Habort (ErrorObject "Gemini API error: Internal error encountered.")
                (snd v)) as (Hret & Hreport & Herror).
    + vm_compute. reflexivity.
    + split; [vm_compute; reflexivity|]. split; [exact Hret|].
      split; [exact Hreport | exact Herror].
Defined.

(** ** What a returning computation establishes *)

Section Ensures.

Context (R : UIState -> Prop).

Lemma ensures_throw {A} (e : Thrown) : ensures R (@throw A e).
Proof. intros s a s' H. discriminate. Qed.

Lemma ensures_bind_tail {A B} (c : M A) (k : A -> M B) :
  (forall a, ensures R (k a)) -> ensures R (bind c k).
Proof.
  intros Hk s b s' H. unfold bind in H.
  destruct (c s) as [[a|e] s1]; [|discriminate]. now apply (Hk a s1 b).
Qed.

Lemma ensures_bind_head {A B} (c : M A) (k : A -> M B) :
  ensures R c -> (forall a, keeps R (k a)) -> ensures R (bind c k).
Proof.
  intros Hc Hk s b s' H. unfold bind in H.
  destruct (c s) as [[a|e] s1] eqn:E; [|discriminate].
  pose proof (Hk a s1 (Hc s a s1 E)) as H1. now rewrite H in H1.
Qed.

Lemma ensures_tryCatch {A} (body : M A) (handler : Thrown -> M A) :
  ensures R body -> (forall e, ensures R (handler e)) -> ensures R (tryCatch body handler).
Proof.
  intros Hb Hh s a s' H. unfold tryCatch in H.
  destruct (body s) as [[a0|e] s1] eqn:E.
  - injection H as <- <-. now apply (Hb s a0).
  - now apply (Hh e s1 a).
Qed.

Lemma ensures_setState (f : UIState -> UIState) :
  (forall u, R (f u)) -> ensures R (setState f).
Proof. intros Hf s a s' H. injection H as _ <-. apply Hf. Qed.

Lemma ensures_invoke {A} (operation : M A) :
  ensures R operation -> ensures R (invoke operation).
Proof. intros Hop s a s' H. unfold invoke in H. exact (Hop _ a s' H). Qed.

Lemma ensures_retryLoop {T} (retryConfig : RetryConfig) (operation : M T) :
  ensures R operation ->
  forall n attempt delay lastError,
    ensures R (retryLoop retryConfig operation n attempt delay lastError).
Proof.
  intros Hop n. induction n as [|n IH]; intros attempt delay lastError.
  - simpl. destruct lastError; apply ensures_throw.
  - intros s a s' H. cbn [retryLoop] in H.
    match type of H with
    | (match ?body s with _ => _ end) = _ => assert (Hbody : ensures R body)
    end.
    { apply ensures_bind_tail. intros permitted.
      destruct permitted; cbn [negb].
      - apply ensures_bind_head; [now apply ensures_invoke|]. intros result.
        apply keeps_bind; [apply keeps_withManager | intros; apply keeps_ret].
      - apply ensures_bind_tail. intros. apply ensures_throw. }
    match type of H with
    | (match ?body with _ => _ end) = _ => destruct body as [[result|error] s1] eqn:E
    end.
    + injection H as <- <-. now apply (Hbody s result).
    + destruct (negb (retryable (messageOf (asError error)))); [discriminate|].
      destruct (attempt <? maxRetries retryConfig - 1).
      * unfold bind, sleep in H. now apply IH in H.
      * now apply IH in H.
Qed.

End Ensures.

Lemma ensures_analysisOperation (P : Platform)
    (apiKey uploadedImage imageBase64 prompt : string) :
  ensures (fun u => retryCount u = 0)
          (analysisOperation P apiKey uploadedImage imageBase64 prompt).
Proof.
  unfold analysisOperation. apply ensures_tryCatch.
  - do 3 (apply ensures_bind_tail; intros ?).
    match goal with |- ensures _ (let (_, _) := ?x in _) => destruct x end.
    do 6 (apply ensures_bind_tail; intros ?).
    apply ensures_bind_head; [now apply ensures_setState|].
    intros ?. repeat keeps_step.
  - intros e. destruct e; apply ensures_throw.
Qed.

Lemma callGeminiVision_resets_retryCount (P : Platform)
    (uploadedImage imageBase64 prompt : string) (s s1 : Sys) (v : JSValue) :
  retryCount (ui s) = 0 ->
  callGeminiVision P uploadedImage imageBase64 prompt s = (Returned v, s1) ->
  retryCount (ui s1) = 0.
Proof.
  intros Hzero Hrun. unfold callGeminiVision in Hrun.
  destruct (presentKey P) as [k|]; [|discriminate].
  unfold bind at 1 in Hrun.
  pose proof (keeps_cacheManager_get (fun u => retryCount u = 0) P uploadedImage
                prompt s Hzero) as Hget.
  destruct (cacheManager_get P uploadedImage prompt s) as [[cached|e] s0];
    [|discriminate].
  simpl in Hget.
  assert (Hmiss : ensures (fun u => retryCount u = 0)
    (setState (ui_setCacheStatus (Some "Cache miss - calling API")) ;;
     retryWithBackoff (analysisOperation P k uploadedImage imageBase64 prompt)
       RETRY_CONFIG)).
  { apply ensures_bind_tail. intros _.
    unfold retryWithBackoff. apply ensures_retryLoop.
    apply ensures_analysisOperation. }
  destruct cached as [cachedValue|]; [|exact (Hmiss s0 v s1 Hrun)].
  destruct (truthy cachedValue); [|exact (Hmiss s0 v s1 Hrun)].
  injection Hrun as _ <-. exact Hget.
Qed.

(** ** The in-progress flag *)

(** What the body of the outer [try] leaves behind: a zero retry counter
    when it returns, no report when it throws. *)
Lemma runReport_outcome (P : Platform) (image description : string) (s0 : Sys) :
  retryCount (ui s0) = 0 ->
  reportData (ui s0) = None ->
  match runReport P image description s0 with
  | (Returned _, s') => retryCount (ui s') = 0
  | (Threw _, s') => reportData (ui s') = None
  end.
Proof.
  intros Hcount Hreport. unfold runReport, convertImageToBase64.
  destruct (loadImage P image) as [base64|]; [|exact Hreport].
  unfold bind at 1, ret. unfold bind at 1. cbn [setState].
  set (sA := mkSys _ _ _ _ _ _ _).
  unfold bind at 1.
  destruct (callGeminiVision P image base64 (fullPrompt description) sA)
    as [[analysis|e] s1] eqn:Hanalysis.
  - assert (Hcount1 : retryCount (ui s1) = 0).
    { eapply callGeminiVision_resets_retryCount; [|exact Hanalysis]. exact Hcount. }
    assert (Hreport1 : reportData (ui s1) = None).
    { eapply (analysis_keeps P (fun u => reportData u = None));
        [apply aboveAnalysis_reportData | exact Hanalysis | exact Hreport]. }
    unfold bind at 1. cbn [setState].
    set (sV := mkSys _ _ _ _ _ _ _).
    unfold bind at 1.
    destruct (generateRepairedImageWithGemini P analysis sV) as [[url|e] s2] eqn:Hvisual.
    + assert (Hcount2 : retryCount (ui s2) = 0).
      { eapply (visualization_keeps P (fun u => retryCount u = 0));
          [exact Hvisual | exact Hcount1]. }
      assert (Hreport2 : reportData (ui s2) = None).
      { eapply (visualization_keeps P (fun u => reportData u = None));
          [exact Hvisual | exact Hreport1]. }
      unfold bind at 1.
      destruct analysis; cbn [parseStep throw ret]; try exact Hreport2.
      unfold bind at 1, lift.
      destruct (assemble P url (parseAnalysis P s)) as [report|e]; [|exact Hreport2].
      cbn. exact Hcount2.
    + eapply (visualization_keeps P (fun u => reportData u = None));
        [exact Hvisual | exact Hreport1].
  - eapply (analysis_keeps P (fun u => reportData u = None));
      [apply aboveAnalysis_reportData | exact Hanalysis | exact Hreport].
Qed.

Lemma keeps_runReport (P : Platform) (Q : UIState -> Prop) (image description : string) :
  aboveAnalysis Q ->
  (forall v u, Q u -> Q (ui_setProcessingStep v u)) ->
  (forall v u, Q u -> Q (ui_setReportData v u)) ->
  keeps Q (runReport P image description).
Proof.
  intros HQ Hstep Hreport. unfold runReport, convertImageToBase64.
  repeat (keeps_step
          || (apply keeps_callGeminiVision; exact HQ)
          || apply keeps_generateRepairedImageWithGemini).
  all: unfold parseStep; repeat keeps_step.
Qed.

Lemma keeps_reportFailure (Q : UIState -> Prop) (retryCount : Z) (e : Thrown) :
  (forall v u, Q u -> Q (ui_setError v u)) ->
  (forall v u, Q u -> Q (ui_setProcessingStep v u)) ->
  keeps Q (reportFailure retryCount e).
Proof. intros Herror Hstep. unfold reportFailure. repeat keeps_step. Qed.

(** A click that passes the input checks, on a handler whose captured
    [retryCount] is below [maxRetries], leaves [isLoading] set. *)
Lemma click_leaves_loading (P : Platform) (s : Sys) (image : string) :
  uploadedImage (ui s) = Some image ->
  image <> "" ->
  blank (userDescription (ui s)) = false ->
  retryCount (ui s) < maxRetries RETRY_CONFIG ->
  isLoading (ui (snd (click P s))) = true.
Proof.
  intros Himage Hnonempty Hblank Hcount.
  rewrite (click_runs P s image Himage Hnonempty Hblank).
  apply (keeps_tryFinally (fun u => isLoading u = true)).
  - apply keeps_tryCatch.
    + apply keeps_runReport; [apply aboveAnalysis_isLoading | auto | auto].
    + intros e. apply keeps_reportFailure; auto.
  - unfold releaseLoading.
    replace (retryCount (ui s) >=? maxRetries RETRY_CONFIG) with false
      by (symmetry; rewrite Z.geb_leb; apply Z.leb_gt; lia).
    apply keeps_ret.
  - reflexivity.
Qed.

Lemma canGenerateReport_true (u : UIState) :
  canGenerateReport u = true ->
  exists image, uploadedImage u = Some image /\ image <> "" /\ isLoading u = false.
Proof.
  unfold canGenerateReport. destruct (uploadedImage u) as [image|]; [|discriminate].
  intros H. apply andb_true_iff in H. destruct H as [H1 H2].
  exists image. repeat split.
  - intros ->. discriminate.
  - now destruct (isLoading u).
Qed.

(** While no run has started, the retry counter is zero and there is no
    report. *)
Lemma evolves_idle (P : Platform) (s0 s : Sys) :
  evolves P s0 s ->
  (isLoading (ui s0) = false -> retryCount (ui s0) = 0 /\ reportData (ui s0) = None) ->
  isLoading (ui s) = false -> retryCount (ui s) = 0 /\ reportData (ui s) = None.
Proof.
  intros Hev Hstart.
  induction Hev as [| s imageUrl Hs IH | s text Hs IH | s Hs IH Hcan
                    | s elapsed Hs IH Hpos]; intros Hidle.
  - exact (Hstart Hidle).
  - cbn in *. destruct (IH Hidle) as [H1 _]. split; [exact H1 | reflexivity].
  - cbn in *. exact (IH Hidle).
  - destruct (canGenerateReport_true _ Hcan) as (image & Himage & Hnonempty & Hfalse).
    destruct (IH Hfalse) as [Hcount Hreport].
    destruct (blank (userDescription (ui s))) eqn:Hblank.
    + unfold click, handleGenerateReport in *. rewrite Himage in *.
      destruct (image =? "")%string; rewrite ?Hblank in *; cbn in *; now split.
    + pose proof (click_leaves_loading P s image Himage Hnonempty Hblank) as Hloading.
      rewrite Hloading in Hidle; [discriminate|]. rewrite Hcount. reflexivity.
  - cbn in *. exact (IH Hidle).
Qed.

Lemma reachable_idle (P : Platform) (s : Sys) :
  reachable P s ->
  isLoading (ui s) = false -> retryCount (ui s) = 0 /\ reportData (ui s) = None.
Proof.
  intros (now & ls & Hev). apply (evolves_idle P _ s Hev).
  intros _. split; reflexivity.
Qed.

(** Once [isLoading] is set in a state the session can reach, nothing the
    user can do clears it: the button is disabled, and no other event
    touches the flag. *)
Lemma evolves_keeps_loading (P : Platform) (s0 s : Sys) :
  evolves P s0 s -> isLoading (ui s0) = true -> isLoading (ui s) = true.
Proof.
  intros Hev Hstart.
  induction Hev as [| s imageUrl Hs IH | s text Hs IH | s Hs IH Hcan
                    | s elapsed Hs IH Hpos].
  - exact Hstart.
  - exact IH.
  - exact IH.
  - destruct (canGenerateReport_true _ Hcan) as (image & _ & _ & Hfalse).
    rewrite IH in Hfalse. discriminate.
  - exact IH.
Qed.

(** C9. After a run that completes successfully, started by a click on the
    enabled button in a state the session can reach, [isLoading] is still
    true: the handler that ran captured [retryCount = 0], so the guard
    [retryCount >= maxRetries] of the [finally] block is false; the
    component's [retryCount] is 0 at the end of the run; the button is
    disabled; and [isLoading] stays true however the session evolves from
    there. *)
Theorem loading_flag_stays_set_after_success (P : Platform) (s : Sys) :
  reachable P s ->
  canGenerateReport (ui s) = true ->
  reportData (ui (snd (click P s))) <> None ->
  (retryCount (ui s) >=? maxRetries RETRY_CONFIG) = false /\
  isLoading (ui (snd (click P s))) = true /\
  retryCount (ui (snd (click P s))) = 0 /\
  canGenerateReport (ui (snd (click P s))) = false /\
  forall s', evolves P (snd (click P s)) s' -> isLoading (ui s') = true.
Proof.
  intros Hreach Hcan Hdone.
  destruct (canGenerateReport_true _ Hcan) as (image & Himage & Hnonempty & Hfalse).
  destruct (reachable_idle P s Hreach Hfalse) as [Hcount Hreport].
  destruct (blank (userDescription (ui s))) eqn:Hblank.
  { exfalso. apply Hdone. unfold click, handleGenerateReport.
    rewrite Himage. destruct (image =? "")%string; rewrite ?Hblank; exact Hreport. }
  assert (Hloading : isLoading (ui (snd (click P s))) = true).
  { apply (click_leaves_loading P s image Himage Hnonempty Hblank).
    rewrite Hcount. reflexivity. }
  split; [now rewrite Hcount|]. split; [exact Hloading|]. split; [|split].
  - revert Hdone. rewrite (click_runs P s image Himage Hnonempty Hblank).
    unfold tryFinally, tryCatch. rewrite Hcount.
    pose proof (runReport_outcome P image (userDescription (ui s)) (snd (startRun s))
                  eq_refl Hreport) as Hout.
    destruct (runReport P image (userDescription (ui s)) (snd (startRun s)))
      as [[u|e] s'].
    + intros _. exact Hout.
    + intros Hdone. exfalso. apply Hdone.
      unfold reportFailure.
      destruct (negb (includes (errorMessageFor 0 e) "Retrying")); exact Hout.
  - unfold canGenerateReport. rewrite Hloading.
    destruct (uploadedImage (ui (snd (click P s)))); [apply andb_false_r | reflexivity].
  - intros s' Hev. exact (evolves_keeps_loading P _ s' Hev Hloading).
Qed.

(** ** The analysis step and the cache *)



(** What one invocation of the analysis operation sends and stores: one
    request at most; when it returns, exactly one, and the text it returns
    is bound to the key in the cache. *)
Lemma analysisOperation_effect
    (P : Platform) (k image base64 prompt digest : string) (s s' : Sys)
    (outcome : Outcome JSValue) :
  imageDigest P image = Some digest ->
  analysisOperation P k image base64 prompt s = (outcome, s') ->
  let request := mkRequest GenerateContent k prompt (Some base64) in
  match outcome with
  | Returned result =>
      sent s' = (sent s ++ [request])%list /\
      exists stamped,
        Map_get (CacheManager.cacheKey digest prompt) (CacheManager.cache (manager s'))
        = Some (mkEntry result stamped digest)
  | Threw _ =>
      sent s' = sent s \/ sent s' = (sent s ++ [request])%list
  end.
Proof.
  intros Hdigest H request.
  unfold analysisOperation, tryCatch in H.
  unfold bind at 1 in H. rewrite canMakeRequest_run in H.
  destruct (fst (CacheManager.canMakeRequest (clock s) (manager s))); cbn [negb] in H.
  2: { unfold bind at 1 in H.
       unfold bind at 1, cacheManager_getNextAvailableTime, withManager in H.
       cbn [clock manager] in H.
       destruct (CacheManager.getNextAvailableTime _ _) as [w m'].
       cbn in H. injection H as <- <-. cbn. now left. }
  unfold bind at 1, ret in H. unfold bind at 1, fetch in H.
  cbn [sent clock manager localStorage ui slept invocations] in H. fold request in H.
  destruct (respond P (sent s ++ [request])) as [elapsed [message|status body]].
  { cbn in H. injection H as <- <-. cbn. now right. }
  destruct (ok status); cbn [negb] in H.
  2: { unfold bind at 1 in H.
       destruct body as [errorData|message]; cbn [json] in H;
         [|cbn in H; injection H as <- <-; cbn; now right].
       unfold bind at 1, ret in H. unfold bind at 1 in H.
       destruct (status =? 429); [cbn in H; injection H as <- <-; cbn; now right|].
       unfold ret in H.
       destruct (status =? 403); [cbn in H; injection H as <- <-; cbn; now right|].
       unfold bind at 1, lift in H.
       destruct (errorMessageOf errorData) as [message|e];
         [|destruct e; cbn in H; injection H as <- <-; cbn; now right].
       destruct (truthy message); cbn in H; injection H as <- <-; cbn; now right. }
  unfold bind at 1, ret in H.
  destruct body as [data|message]; cbn [json] in H;
    [|cbn in H; injection H as <- <-; cbn; now right].
  unfold bind at 1, ret in H. unfold bind at 1, lift in H.
  destruct (noCandidate data) as [missing|e];
    [|destruct e; cbn in H; injection H as <- <-; cbn; now right].
  unfold bind at 1 in H.
  destruct missing; [cbn in H; injection H as <- <-; cbn; now right|].
  unfold ret in H. unfold bind at 1, lift in H.
  destruct (candidateText data) as [result|e];
    [|destruct e; cbn in H; injection H as <- <-; cbn; now right].
  unfold bind at 1 in H.
  rewrite (cacheManager_set_run P image prompt digest result _ Hdigest) in H.
  cbn in H. injection H as <- <-. cbn.
  split; [reflexivity|]. eexists. apply Map_get_set_same.
Qed.

(** The loop of the retry controller around the analysis operation: it
    sends the analysis request only, once per iteration at most; when it
    returns, one request at least was sent and the text returned is bound to
    the key in the cache. *)
Lemma retryLoop_analysis_effect
    (P : Platform) (k image base64 prompt digest : string) :
  imageDigest P image = Some digest ->
  let request := mkRequest GenerateContent k prompt (Some base64) in
  forall (n : nat) (attempt delay : Z) (lastError : option Thrown) (s s' : Sys)
         (outcome : Outcome JSValue),
    retryLoop RETRY_CONFIG (analysisOperation P k image base64 prompt)
              n attempt delay lastError s = (outcome, s') ->
    exists count,
      (count <= n)%nat /\
      sent s' = (sent s ++ repeat request count)%list /\
      forall result,
        outcome = Returned result ->
        (1 <= count)%nat /\
        exists stamped,
          Map_get (CacheManager.cacheKey digest prompt) (CacheManager.cache (manager s'))
          = Some (mkEntry result stamped digest).
Proof.
  intros Hdigest request n.
  induction n as [|n IH]; intros attempt delay lastError s s' outcome H.
  - exists 0%nat. simpl in H.
    destruct lastError; injection H as <- <-; simpl; rewrite app_nil_r;
      repeat split; try lia; discriminate.
  - cbn [retryLoop] in H.
    set (body :=
      (permitted <- cacheManager_canMakeRequest ;;
       (if negb permitted then
          waitTime <- cacheManager_getNextAvailableTime ;;
          throw (newError (rateLimitMessage waitTime))
        else
          result <- invoke (analysisOperation P k image base64 prompt) ;;
          cacheManager_recordRequest ;;
          ret result))) in H.
    assert (Hbody : forall o s1,
      body s = (o, s1) ->
      match o with
      | Returned result =>
          sent s1 = (sent s ++ [request])%list /\
          exists stamped,
            Map_get (CacheManager.cacheKey digest prompt)
                    (CacheManager.cache (manager s1))
            = Some (mkEntry result stamped digest)
      | Threw _ => sent s1 = sent s \/ sent s1 = (sent s ++ [request])%list
      end).
    { intros o s1 Hb. unfold body in Hb. unfold bind at 1 in Hb.
      rewrite canMakeRequest_run in Hb.
      destruct (fst (CacheManager.canMakeRequest (clock s) (manager s)));
        cbn [negb] in Hb.
      - unfold bind at 1, invoke in Hb.
        match type of Hb with
        | context [analysisOperation P k image base64 prompt ?s0] =>
            destruct (analysisOperation P k image base64 prompt s0)
              as [outcome0 s2] eqn:Hop;
            apply (analysisOperation_effect P k image base64 prompt digest s0 s2
                     outcome0 Hdigest) in Hop;
            cbn zeta in Hop; cbn [sent] in Hop
        end.
        destruct outcome0 as [result|e]; cbn in Hb; injection Hb as <- <-; cbn;
          exact Hop.
      - unfold bind at 1, cacheManager_getNextAvailableTime, withManager in Hb.
        cbn [clock manager] in Hb.
        destruct (CacheManager.getNextAvailableTime _ _) as [w m'].
        cbn in Hb. injection Hb as <- <-. cbn. now left. }
    destruct (body s) as [[result|error] s1] eqn:Hrun;
      pose proof (Hbody _ _ eq_refl) as Hfirst; cbn beta iota in Hfirst.
    + injection H as <- <-. exists 1%nat. destruct Hfirst as [Hsent Hcached].
      split; [lia|]. split; [exact Hsent|].
      intros result' Hresult. injection Hresult as <-. split; [lia | exact Hcached].
    + assert (Hone : exists c, (c <= 1)%nat /\ sent s1 = (sent s ++ repeat request c)%list).
      { destruct Hfirst as [Hs|Hs]; [exists 0%nat | exists 1%nat];
          (split; [lia|]); rewrite Hs; simpl; now rewrite ?app_nil_r. }
      destruct Hone as (c & Hc & Hsent).
      destruct (negb (retryable (messageOf (asError error)))).
      { injection H as <- <-. exists c. split; [lia|]. split; [exact Hsent | discriminate]. }
      assert (Hrest : forall a d l s2,
                sent s2 = sent s1 ->
                retryLoop RETRY_CONFIG (analysisOperation P k image base64 prompt)
                          n a d l s2 = (outcome, s') ->
                exists count,
                  (count <= S n)%nat /\
                  sent s' = (sent s ++ repeat request count)%list /\
                  forall result,
                    outcome = Returned result ->
                    (1 <= count)%nat /\
                    exists stamped,
                      Map_get (CacheManager.cacheKey digest prompt)
                              (CacheManager.cache (manager s'))
                      = Some (mkEntry result stamped digest)).
      { intros a d l s2 Hs2 Hloop.
        destruct (IH a d l s2 s' outcome Hloop) as (c' & Hc' & Hsent' & Hret').
        exists (c + c')%nat. split; [lia|]. split.
        - rewrite Hsent', Hs2, Hsent, <- app_assoc, repeat_app. reflexivity.
        - intros result Hresult. destruct (Hret' result Hresult) as [Hpos Hcached].
          split; [lia | exact Hcached]. }
      destruct (attempt <? maxRetries RETRY_CONFIG - 1).
      * unfold bind at 1 in H. cbn [sleep] in H.
        eapply Hrest; [|exact H]. reflexivity.
      * eapply Hrest; [|exact H]. reflexivity.
Qed.

(** C5 (amended). The analysis step, with the API key present and the image
    hashed:
    - when the cache holds an entry for the key (hash(image), prompt) that
      has not expired at the time of the lookup and whose value is truthy (a
      non-empty text), no request is sent and the cached value is returned;
    - otherwise (no entry, an expired entry, or an entry whose value is
      empty), the outcome of the call is the outcome of the retry controller
      run on the analysis operation; the requests sent are copies of the
      analysis request, at most [maxRetries] of them; and whenever the call
      returns, at whichever attempt and whatever the limiter held, one
      request at least was sent and the text returned is bound to the key in
      the cache of the state in which the call returns. *)
Theorem cache_hit_skips_network_miss_dispatches
    (P : Platform) (s : Sys) (image base64 prompt k digest : string) :
  presentKey P = Some k ->
  imageDigest P image = Some digest ->
  let run := callGeminiVision P image base64 prompt s in
  let request := mkRequest GenerateContent k prompt (Some base64) in
  let key := CacheManager.cacheKey digest prompt in
  let lookupTime := clock s + hashTime P (clock s) image in
  (forall entry,
     Map_get key (CacheManager.cache (manager s)) = Some entry ->
     lookupTime - timestamp entry < CACHE_CONFIG.maxAge ->
     truthy (data entry) = true ->
     fst run = Returned (data entry) /\
     sent (snd run) = sent s /\
     invocations (snd run) = invocations s)
  /\
  ((forall v, fst (CacheManager.get lookupTime digest prompt (manager s)) = Some v ->
              truthy v = false) ->
   run = retryWithBackoff (analysisOperation P k image base64 prompt) RETRY_CONFIG
           (snd (setState (ui_setCacheStatus (Some "Cache miss - calling API"))
                          (snd (cacheManager_get P image prompt s)))) /\
   exists count,
     (count <= Z.to_nat (maxRetries RETRY_CONFIG))%nat /\
     sent (snd run) = (sent s ++ repeat request count)%list /\
     forall result,
       fst run = Returned result ->
       (1 <= count)%nat /\
       exists stamped,
         Map_get key (CacheManager.cache (manager (snd run)))
         = Some (mkEntry result stamped digest)).
Proof.
  intros Hkey Hdigest run request key lookupTime. split.
  - intros entry Hentry Hfresh Htruthy.
    assert (Hrun : run =
      (Returned (data entry),
       snd (setState (ui_setCacheStatus (Some "Using cached result"))
                     (hashed P image s)))).
    { unfold run, callGeminiVision. rewrite Hkey.
      unfold bind at 1. rewrite (cacheManager_get_run P image prompt digest s Hdigest).
      cbn zeta. fold lookupTime.
      unfold CacheManager.get. fold key. rewrite Hentry. cbn zeta.
      replace (lookupTime - timestamp entry <? CACHE_CONFIG.maxAge) with true
        by (symmetry; apply Z.ltb_lt; lia).
      cbn [fst snd]. rewrite Htruthy. reflexivity. }
    rewrite Hrun. repeat split.
  - intros Hmiss.
    set (sM := snd (setState (ui_setCacheStatus (Some "Cache miss - calling API"))
                             (snd (cacheManager_get P image prompt s)))).
    assert (HsentM : sent sM = sent s).
    { unfold sM. rewrite (cacheManager_get_run P image prompt digest s Hdigest).
      reflexivity. }
    assert (Hrun : run =
      retryWithBackoff (analysisOperation P k image base64 prompt) RETRY_CONFIG sM).
    { unfold run, callGeminiVision. rewrite Hkey. unfold bind at 1.
      unfold sM. rewrite (cacheManager_get_run P image prompt digest s Hdigest).
      cbn zeta. fold lookupTime.
      destruct (fst (CacheManager.get lookupTime digest prompt (manager s)))
        as [v|] eqn:Hlookup; [rewrite (Hmiss v eq_refl)|]; reflexivity. }
    split; [exact Hrun|].
    rewrite Hrun. unfold retryWithBackoff.
    destruct (retryLoop RETRY_CONFIG (analysisOperation P k image base64 prompt)
                (Z.to_nat (maxRetries RETRY_CONFIG)) 0 (initialDelay RETRY_CONFIG)
                None sM) as [outcome s'] eqn:Hloop.
    destruct (retryLoop_analysis_effect P k image base64 prompt digest Hdigest
                _ _ _ _ _ _ _ Hloop) as (count & Hcount & Hsent & Hreturned).
    exists count. cbn [fst snd]. rewrite <- HsentM.
    split; [exact Hcount|]. split; [exact Hsent | exact Hreturned].
Qed.

(** The theorem at the two calls of a run made while the limiter holds ten
    requests that have all left the window, on a platform where hashing an
    image takes 25 ms: the first call finds no entry, is refused once for
    quota, is answered at its second attempt and caches the text; the
    second, made from the state the first returned in, finds the entry and
    sends nothing. *)
Lemma cache_hit_skips_network_miss_dispatches_witness :
  let P := withHashTime 25
             (browser (Some "k") [(100, quotaReply); (300, candidateReply "all fine")]) in
  let s := mkSys 100000 (CacheManager.mk [] (repeat 0 10)) (mkStorage NoItem true)
                 readyUI [] [] 0 in
  let request := mkRequest GenerateContent "k" "p" (Some "blob:1") in
  let first := callGeminiVision P "blob:1" "blob:1" "p" s in
  let second := callGeminiVision P "blob:1" "blob:1" "p" (snd first) in
  (exists count, (1 <= count <= 3)%nat /\ sent (snd first) = repeat request count) /\
  (exists stamped,
     Map_get "blob:1-p" (CacheManager.cache (manager (snd first)))
     = Some (mkEntry (JStr "all fine") stamped "blob:1")) /\
  fst second = Returned (JStr "all fine") /\
  sent (snd second) = sent (snd first).
Proof.
  intros P s request first second.
  destruct (cache_hit_skips_network_miss_dispatches P s "blob:1" "blob:1" "p" "k" "blob:1"
              eq_refl eq_refl) as [_ Hmiss].
  destruct Hmiss as (_ & count & Hcount & Hsent & Hreturned).
  { intros v Hv. vm_compute in Hv. discriminate. }
  destruct (Hreturned (JStr "all fine")) as (Hpos & stamped & Hcached).
  { vm_compute. reflexivity. }
  destruct (cache_hit_skips_network_miss_dispatches P (snd first)
              "blob:1" "blob:1" "p" "k" "blob:1" eq_refl eq_refl) as [Hhit _].
  destruct (Hhit (mkEntry (JStr "all fine") 102450 "blob:1"))
    as (Hsecond & Hsame & _).
  - vm_compute. reflexivity.
  - vm_compute. reflexivity.
  - reflexivity.
  - split; [exists count; split; [split; [exact Hpos | exact Hcount] | exact Hsent]|].
    split; [exists stamped; exact Hcached|].
    split; [exact Hsecond | exact Hsame].
Defined.

(** C5, as stated, fails on a cached value that is the empty text: the
    first call receives an empty generated text, caches and persists it; in
    the next session the manager loads that entry, still unexpired, and the
    call sends a request all the same, because the test on the cached value
    is its truthiness. *)
Lemma empty_cached_value_counterexample :
  let P := browser (Some "k") [(100, candidateReply ""); (100, candidateReply "all fine")] in
  let prompt := fullPrompt "crack in beam" in
  let first := callGeminiVision P "blob:1" "blob:1" prompt (freshSystem 1000 readyUI) in
  let store := localStorage (snd first) in
  let nextSession :=
    mkSys 5000 (CacheManager.new store) store readyUI (sent (snd first)) [] 0 in
  let second := callGeminiVision P "blob:1" "blob:1" prompt nextSession in
  fst first = Returned (JStr "") /\
  fst (CacheManager.get (clock nextSession) "blob:1" prompt (manager nextSession))
    = Some (JStr "") /\
  List.length (sent (snd first)) = 1%nat /\
  List.length (sent (snd second)) = 2%nat /\
  fst second = Returned (JStr "all fine").
Proof. vm_compute. repeat split. Qed.

(** ** The structured-output match *)

Lemma fromFirstOpen_sound (s tail : string) :
  fromFirstOpen s = Some tail ->
  exists before rest,
    s = before ++ String openBrace rest /\
    tail = String openBrace rest /\
    occurs openBrace before = false.
Proof.
  induction s as [|c s IH]; simpl; [discriminate|].
  destruct (Ascii.eqb c openBrace) eqn:E.
  - intros H. injection H as <-. apply Ascii.eqb_eq in E. subst c.
    exists "", s. repeat split.
  - intros H. destruct (IH H) as (before & rest & -> & -> & Hfree).
    exists (String c before), rest. simpl. rewrite E, Hfree. repeat split.
Qed.

Lemma fromFirstOpen_complete (before rest : string) :
  occurs openBrace before = false ->
  fromFirstOpen (before ++ String openBrace rest) = Some (String openBrace rest).
Proof.
  induction before as [|c before IH]; simpl.
  - intros _. reflexivity.
  - intros H. apply orb_false_iff in H. destruct H as [Hc Hrest].
    rewrite Hc. now apply IH.
Qed.

Lemma throughLastClose_none (s : string) :
  occurs closeBrace s = false -> throughLastClose s = None.
Proof.
  induction s as [|c s IH]; simpl; [reflexivity|].
  intros H. apply orb_false_iff in H. destruct H as [Hc Hrest].
  now rewrite (IH Hrest), Hc.
Qed.

Lemma throughLastClose_sound (s block : string) :
  throughLastClose s = Some block ->
  exists body after,
    s = body ++ String closeBrace after /\
    block = body ++ String closeBrace "" /\
    occurs closeBrace after = false.
Proof.
  revert block. induction s as [|c s IH]; simpl; intros block; [discriminate|].
  destruct (throughLastClose s) as [p|] eqn:E.
  - intros H. injection H as <-.
    destruct (IH p eq_refl) as (body & after & -> & -> & Hfree).
    exists (String c body), after. repeat split. exact Hfree.
  - destruct (Ascii.eqb c closeBrace) eqn:Ec; [|discriminate].
    intros H. injection H as <-. apply Ascii.eqb_eq in Ec. subst c.
    exists "", s. repeat split.
    clear IH. induction s as [|c s IHs]; [reflexivity|].
    simpl in *. destruct (throughLastClose s); [discriminate|].
    destruct (Ascii.eqb c closeBrace); [discriminate|]. now apply IHs.
Qed.

Lemma throughLastClose_complete (body after : string) :
  occurs closeBrace after = false ->
  throughLastClose (body ++ String closeBrace after) = Some (body ++ String closeBrace "").
Proof.
  intros Hfree. induction body as [|c body IH]; simpl.
  - now rewrite (throughLastClose_none after Hfree).
  - now rewrite IH.
Qed.

(** C3 (amended). The structured-output parse step takes the span of the
    response that runs from its first opening brace to its last closing
    brace (the match of a greedy pattern), which need not be a balanced
    block, and hands that span to [JSON.parse]; the parsed value, when there
    is one, is the parsed response, and otherwise the fallback is. *)
Theorem structured_block_is_greedy_span (P : Platform) (analysisResponse : string) :
  (forall block,
     jsonMatch analysisResponse = Some block <->
     exists before middle after,
       analysisResponse
         = before ++ String openBrace (middle ++ String closeBrace after) /\
       block = String openBrace (middle ++ String closeBrace "") /\
       occurs openBrace before = false /\
       occurs closeBrace after = false)
  /\
  parseAnalysis P analysisResponse =
    match jsonMatch analysisResponse with
    | Some block =>
        match JSON_parse P block with
        | Some parsed => parsed
        | None => fallbackResponse analysisResponse
        end
    | None => fallbackResponse analysisResponse
    end.
Proof.
  split; [|reflexivity].
  intros block. unfold jsonMatch. split.
  - destruct (fromFirstOpen analysisResponse) as [tail|] eqn:E; [|discriminate].
    intros H.
    destruct (fromFirstOpen_sound _ _ E) as (before & rest & -> & -> & Hbefore).
    destruct (throughLastClose_sound _ _ H) as (body & after & Hsplit & -> & Hafter).
    destruct body as [|c body].
    + simpl in Hsplit. injection Hsplit as Hc _. discriminate.
    + simpl in Hsplit. injection Hsplit as <- ->.
      exists before, body, after. repeat split; assumption.
  - intros (before & middle & after & -> & -> & Hbefore & Hafter).
    rewrite (fromFirstOpen_complete before _ Hbefore).
    apply (throughLastClose_complete (String openBrace middle) after Hafter).
Qed.

(** C3, as stated, fails on a response with text between two blocks: the
    match is the whole span from the first opening brace to the last
    closing brace, not the first balanced block, and [JSON.parse] rejects
    it, so the report is the fallback although the first block alone would
    have parsed. *)
Lemma greedy_match_counterexample :
  let response := "Plan A: {} or plan B: {}" in
  jsonMatch response = Some "{} or plan B: {}" /\
  spec_firstBalancedBlock response = Some "{}" /\
  Json.parse "{} or plan B: {}" = None /\
  Json.parse "{}" = Some (JObj []) /\
  parseAnalysis (browser (Some "k") []) response = fallbackResponse response.
Proof. vm_compute. repeat split. Qed.

(** ** Concrete runs *)

(** The theorem at a first run on a fresh session that receives a generated
    text and a placeholder picture. *)
Lemma loading_flag_stays_set_after_success_witness :
  let P := browser (Some "k")
             [(100, candidateReply "all fine"); (100, candidateReply "a restored viaduct");
              (100, modelNotFoundReply)] in
  let run := click P (freshSystem 1000 readyUI) in
  isLoading (ui (snd run)) = true /\
  retryCount (ui (snd run)) = 0 /\
  canGenerateReport (ui (snd run)) = false.
Proof.
  intros P run.
  destruct (loading_flag_stays_set_after_success P (freshSystem 1000 readyUI))
    as (_ & Hloading & Hcount & Hdisabled & _).
  - exists 1000, (mkStorage NoItem true).
    exact (evolves_edit P _ _ "crack in beam"
             (evolves_upload P _ _ "blob:1" (evolves_here P _))).
  - reflexivity.
  - vm_compute. discriminate.
  - repeat split; assumption.
Defined.

(** The message of the outer [catch] for a quota error, on a handler that
    captured a retry counter below [maxRetries]: never the text about the
    maximum of attempts. *)
Lemma quota_message_of_first_render (retryCount : Z) (message : string) :
  retryCount < maxRetries RETRY_CONFIG ->
  includes message "quota" || includes message "429" = true ->
  errorMessageFor retryCount (ErrorObject message) =
    "Retrying automatically (Attempt " ++ showZ (retryCount + 1) ++ "/3)...".
Proof.
  intros Hcount Hquota. unfold errorMessageFor. rewrite Hquota.
  replace (retryCount >=? maxRetries RETRY_CONFIG) with false
    by (symmetry; rewrite Z.geb_leb; apply Z.leb_gt; lia).
  reflexivity.
Qed.

(** A run whose analysis answer carries a JSON block between two sentences:
    the block is parsed and the cost total of the report is the text the
    service gave. *)
Example structured_answer_run :
  let answer :=
    "Here is the plan. {" ++ dq ++ "cost_estimation" ++ dq ++ ": {" ++ dq ++ "total" ++ dq
    ++ ": " ++ dq ++ "₹3,00,000 INR" ++ dq ++ "}} Thank you." in
  let P := browser (Some "k")
             [(100, candidateReply answer); (100, candidateReply "a restored viaduct");
              (100, modelNotFoundReply)] in
  let run := click P (freshSystem 1000 readyUI) in
  option_map cost_estimation (reportData (ui (snd run)))
    = Some (JObj [("total", JStr "₹3,00,000 INR")]) /\
  option_map promptText (nth_error (sent (snd run)) 1)
    = Some (imagePrompt answer).
Proof. vm_compute. split; reflexivity. Qed.

(** Whatever the session did before, a click on the enabled button whose
    analysis step ends in a quota-class error sets the message about
    retrying: the handler captured a retry counter of 0, whatever the
    setters made of the component's counter meanwhile. *)
Lemma quota_failure_on_enabled_click
    (P : Platform) (s s1 : Sys) (image base64 message : string) :
  reachable P s ->
  canGenerateReport (ui s) = true ->
  uploadedImage (ui s) = Some image ->
  blank (userDescription (ui s)) = false ->
  loadImage P image = Some base64 ->
  callGeminiVision P image base64 (fullPrompt (userDescription (ui s))) (atAnalysis s)
    = (Threw (ErrorObject message), s1) ->
  includes message "quota" || includes message "429" = true ->
  error (ui (snd (click P s))) = Some "Retrying automatically (Attempt 1/3)..." /\
  isLoading (ui (snd (click P s))) = true.
Proof.
  intros Hreach Hcan Himage Hblank Hload Hanalysis Hquota.
  destruct (canGenerateReport_true _ Hcan) as (image' & Himage' & Hnonempty & Hfalse).
  rewrite Himage in Himage'. injection Himage' as <-.
  destruct (reachable_idle P s Hreach Hfalse) as [Hcount _].
  split.
  - rewrite (click_runs P s image Himage Hnonempty Hblank).
    unfold tryFinally, tryCatch.
    rewrite (runReport_steps P image _ base64 _ Hload), atAnalysis_unfold.
    unfold bind at 1. rewrite Hanalysis. rewrite Hcount.
    unfold reportFailure.
    rewrite (quota_message_of_first_render 0 message ltac:(cbn; lia) Hquota).
    reflexivity.
  - apply (click_leaves_loading P s image Himage Hnonempty Hblank).
    rewrite Hcount. reflexivity.
Qed.

(** C2. The run whose analysis call receives HTTP 429 three times, on a
    fresh session: three requests are sent, with timers of 2 and 4 seconds
    between them, and the component's retry counter reaches 3; but the
    handler reads the counter its render captured, which is 0, so the
    message set is the one about retrying, not the one about the maximum of
    attempts, and [isLoading] is left set. *)
Theorem three_quota_refusals_run :
  let P := browser (Some "k") [(100, quotaReply); (100, quotaReply); (100, quotaReply)] in
  let run := click P (freshSystem 1000 readyUI) in
  List.length (sent (snd run)) = 3%nat /\
  invocations (snd run) = 3%nat /\
  slept (snd run) = [2000; 4000] /\
  retryCount (ui (snd run)) = 3 /\
  error (ui (snd run)) = Some "Retrying automatically (Attempt 1/3)..." /\
  option_map (fun message => includes message "aximum retry attempts reached")
             (error (ui (snd run))) = Some false /\
  isLoading (ui (snd run)) = true /\
  errorMessageFor 3 (ErrorObject quotaMessage) = "Failed to generate report. " ++ maxRetriesText.
Proof. vm_compute. repeat split. Qed.

(** * Further properties of the code *)

(** ** Capacity and eviction of the cache *)

Lemma Map_delete_cons (k k' : string) (e' : CacheEntry) (m : JsMap) :
  Map_delete k ((k', e') :: m) =
  if (k' =? k)%string then Map_delete k m else (k', e') :: Map_delete k m.
Proof. unfold Map_delete. simpl. now destruct (k' =? k)%string. Qed.

Lemma Map_delete_length (k : string) (m : JsMap) :
  (List.length (Map_delete k m) <= List.length m)%nat.
Proof. apply filter_length_le. Qed.

Lemma Map_delete_present (k : string) (e : CacheEntry) (m : JsMap) :
  Map_get k m = Some e -> (List.length (Map_delete k m) < List.length m)%nat.
Proof.
  induction m as [|[k' e'] m IH]; [discriminate|].
  rewrite Map_delete_cons. simpl.
  destruct (k' =? k)%string.
  - intros _. pose proof (Map_delete_length k m). lia.
  - intros H. specialize (IH H). simpl. lia.
Qed.

Lemma Map_get_In (k : string) (m : JsMap) :
  In k (keysOf m) -> exists e, Map_get k m = Some e.
Proof.
  induction m as [|[k' e'] m IH]; simpl; [contradiction|].
  destruct (k' =? k)%string eqn:E.
  - intros _. now exists e'.
  - intros [H|H]; [subst; rewrite String.eqb_refl in E; discriminate | now apply IH].
Qed.

Lemma Map_get_None (k : string) (m : JsMap) :
  Map_get k m = None -> ~ In k (keysOf m).
Proof.
  intros H Hin. destruct (Map_get_In k m Hin) as [e He]. congruence.
Qed.

Lemma Map_set_length (k : string) (e : CacheEntry) (m : JsMap) :
  (List.length (Map_set k e m) <= S (List.length m))%nat.
Proof.
  induction m as [|[k' e'] m IH]; simpl; [lia|].
  destruct (k' =? k)%string; simpl; lia.
Qed.

Lemma keysOf_Map_delete (k : string) (m : JsMap) :
  keysOf (Map_delete k m) = filter (fun k' => negb (k' =? k)%string) (keysOf m).
Proof.
  induction m as [|[k' e'] m IH]; [reflexivity|].
  rewrite Map_delete_cons. simpl.
  destruct (k' =? k)%string; simpl; now rewrite IH.
Qed.

Lemma NoDup_filter_keys {A} (f : A -> bool) (l : list A) : NoDup l -> NoDup (filter f l).
Proof.
  induction 1 as [|x l Hx Hl IH]; simpl; [constructor|].
  destruct (f x); [constructor; [|exact IH] | exact IH].
  intros Hin. apply filter_In in Hin. tauto.
Qed.

Lemma keysOf_Map_set (k : string) (e : CacheEntry) (m : JsMap) :
  keysOf (Map_set k e m) =
  match Map_get k m with
  | Some _ => keysOf m
  | None => (keysOf m ++ [k])%list
  end.
Proof.
  induction m as [|[k' e'] m IH]; simpl; [reflexivity|].
  destruct (k' =? k)%string eqn:E; simpl.
  - apply String.eqb_eq in E. now subst.
  - rewrite IH. now destruct (Map_get k m).
Qed.

Lemma NoDup_Map_set (k : string) (e : CacheEntry) (m : JsMap) :
  NoDup (keysOf m) -> NoDup (keysOf (Map_set k e m)).
Proof.
  intros H. rewrite keysOf_Map_set.
  destruct (Map_get k m) eqn:E; [exact H|].
  apply NoDup_app; [exact H | constructor; [intros []|constructor] |].
  intros x Hx [<-|[]]. now apply (Map_get_None k m).
Qed.

Lemma insertByTimestamp_length (x : string * CacheEntry) (l : JsMap) :
  List.length (insertByTimestamp x l) = S (List.length l).
Proof.
  induction l as [|y l IH]; simpl; [reflexivity|].
  destruct (timestamp (snd x) <=? timestamp (snd y)); simpl; [reflexivity|].
  now rewrite IH.
Qed.

Lemma sortByTimestamp_length (m : JsMap) :
  List.length (sortByTimestamp m) = List.length m.
Proof.
  induction m as [|x m IH]; simpl; [reflexivity|].
  now rewrite insertByTimestamp_length, IH.
Qed.

(** The head of the sorted entries is the first entry, in insertion order,
    among those of least timestamp. *)
Lemma sortByTimestamp_head (m : JsMap) (x : string * CacheEntry) (rest : JsMap) :
  sortByTimestamp m = x :: rest ->
  exists before after,
    m = (before ++ x :: after)%list /\
    (forall y, In y before -> timestamp (snd x) < timestamp (snd y)) /\
    (forall y, In y after -> timestamp (snd x) <= timestamp (snd y)).
Proof.
  revert x rest. induction m as [|y m IH]; intros x rest; simpl; [discriminate|].
  destruct (sortByTimestamp m) as [|h t] eqn:Hs.
  - pose proof (sortByTimestamp_length m) as Hlen. rewrite Hs in Hlen.
    destruct m; [|discriminate]. simpl. intros H. injection H as <- _.
    exists [], []. repeat split; intros z [].
  - destruct (IH h t eq_refl) as (before & after & -> & Hbefore & Hafter).
    simpl. destruct (timestamp (snd y) <=? timestamp (snd h)) eqn:E.
    + apply Z.leb_le in E. intros H. injection H as <- _.
      exists [], (before ++ h :: after)%list. split; [reflexivity|].
      split; [intros z []|].
      intros z Hz. apply in_app_or in Hz. destruct Hz as [Hz|[<-|Hz]].
      * specialize (Hbefore z Hz). lia.
      * exact E.
      * specialize (Hafter z Hz). lia.
    + apply Z.leb_gt in E. intros H. injection H as <- _.
      exists (y :: before), after. split; [reflexivity|].
      split; [|exact Hafter].
      intros z [<-|Hz]; [exact E | now apply Hbefore].
Qed.

Lemma Map_get_middle (before after : JsMap) (k : string) (e : CacheEntry) :
  NoDup (keysOf (before ++ (k, e) :: after)%list) ->
  Map_get k (before ++ (k, e) :: after)%list = Some e.
Proof.
  induction before as [|[k' e'] before IH]; simpl.
  - intros _. now rewrite String.eqb_refl.
  - intros H. inversion H as [|? ? Hnotin Hrest]; subst.
    destruct (k' =? k)%string eqn:E; [|now apply IH].
    apply String.eqb_eq in E. subst k'. exfalso. apply Hnotin.
    unfold keysOf. rewrite map_app. apply in_or_app. right. now left.
Qed.

(** The eviction step leaves room for one entry. *)
Lemma evictOldest_makes_room (m : JsMap) :
  NoDup (keysOf m) ->
  Map_size m <= CACHE_CONFIG.maxEntries ->
  NoDup (keysOf (CacheManager.evictOldest m)) /\
  Map_size (CacheManager.evictOldest m) < CACHE_CONFIG.maxEntries.
Proof.
  intros Hdistinct Hsize. unfold CacheManager.evictOldest.
  destruct (Map_size m >=? CACHE_CONFIG.maxEntries) eqn:Efull.
  - rewrite Z.geb_leb in Efull. apply Z.leb_le in Efull.
    destruct (sortByTimestamp m) as [|[oldestKey oldest] rest] eqn:Hs.
    + pose proof (sortByTimestamp_length m) as Hlen. rewrite Hs in Hlen.
      unfold Map_size, CACHE_CONFIG.maxEntries in *. simpl in Hlen. lia.
    + destruct (sortByTimestamp_head m _ _ Hs) as (before & after' & Hm & _ & _).
      split.
      * rewrite keysOf_Map_delete. now apply NoDup_filter_keys.
      * assert (Hget : Map_get oldestKey m = Some oldest).
        { rewrite Hm. apply Map_get_middle. rewrite <- Hm. exact Hdistinct. }
        pose proof (Map_delete_present oldestKey oldest m Hget).
        unfold Map_size in *. lia.
  - rewrite Z.geb_leb in Efull. apply Z.leb_gt in Efull. split; assumption.
Qed.

Lemma set_within_capacity
    (now : Z) (digest prompt : string) (v : JSValue) (this : CacheManager.t)
    (ls : LocalStorage) :
  NoDup (keysOf (CacheManager.cache this)) ->
  Map_size (CacheManager.cache this) <= CACHE_CONFIG.maxEntries ->
  NoDup (keysOf (CacheManager.cache (fst (CacheManager.set now digest prompt v this ls)))) /\
  Map_size (CacheManager.cache (fst (CacheManager.set now digest prompt v this ls)))
    <= CACHE_CONFIG.maxEntries.
Proof.
  intros Hdistinct Hsize. unfold CacheManager.set.
  cbn [fst CacheManager.cache CacheManager.with_cache].
  destruct (evictOldest_makes_room _ Hdistinct Hsize) as [Hd Hs]. split.
  - now apply NoDup_Map_set.
  - pose proof (Map_set_length (CacheManager.cacheKey digest prompt)
                  (mkEntry v now digest)
                  (CacheManager.evictOldest (CacheManager.cache this))).
    unfold Map_size in *. lia.
Qed.

(** X1. The capacity of the cache: a [set] on a map of distinct keys that
    holds at most [maxEntries] entries leaves a map of distinct keys that
    holds at most [maxEntries] entries, and in which the key just set is
    bound to the new entry. *)
Theorem set_keeps_capacity
    (now : Z) (digest prompt : string) (v : JSValue) (this : CacheManager.t)
    (ls : LocalStorage) :
  NoDup (keysOf (CacheManager.cache this)) ->
  Map_size (CacheManager.cache this) <= CACHE_CONFIG.maxEntries ->
  let after := CacheManager.cache (fst (CacheManager.set now digest prompt v this ls)) in
  NoDup (keysOf after) /\
  Map_size after <= CACHE_CONFIG.maxEntries /\
  Map_get (CacheManager.cacheKey digest prompt) after = Some (mkEntry v now digest).
Proof.
  intros Hdistinct Hsize after.
  destruct (set_within_capacity now digest prompt v this ls Hdistinct Hsize)
    as [Hd Hs].
  split; [exact Hd|]. split; [exact Hs|].
  unfold after, CacheManager.set.
  cbn [fst CacheManager.cache CacheManager.with_cache].
  apply Map_get_set_same.
Qed.

(** The theorem at a map of two entries. *)
Lemma set_keeps_capacity_witness :
  let this := CacheManager.mk [("a-p", mkEntry (JStr "one") 10 "a");
                               ("b-p", mkEntry (JStr "two") 20 "b")] [] in
  let after :=
    CacheManager.cache
      (fst (CacheManager.set 30 "c" "p" (JStr "three") this (mkStorage NoItem true))) in
  Map_size after <= CACHE_CONFIG.maxEntries /\
  Map_get "c-p" after = Some (mkEntry (JStr "three") 30 "c").
Proof.
  destruct (set_keeps_capacity 30 "c" "p" (JStr "three")
              (CacheManager.mk [("a-p", mkEntry (JStr "one") 10 "a");
                                ("b-p", mkEntry (JStr "two") 20 "b")] [])
              (mkStorage NoItem true))
    as (_ & Hsize & Hget).
  - simpl. repeat constructor; simpl; intuition discriminate.
  - vm_compute. discriminate.
  - split; assumption.
Defined.

(** X2. Eviction: a [set] on a map of distinct keys that holds
    [maxEntries] entries or more deletes the first entry, in insertion
    order, among those of least timestamp, and no other; this happens
    whether or not the key being set is already bound.  Every key other
    than the victim's and the one being set is bound as before. *)
Theorem set_evicts_the_oldest
    (now : Z) (digest prompt : string) (v : JSValue) (this : CacheManager.t)
    (ls : LocalStorage) :
  NoDup (keysOf (CacheManager.cache this)) ->
  CACHE_CONFIG.maxEntries <= Map_size (CacheManager.cache this) ->
  let after := CacheManager.cache (fst (CacheManager.set now digest prompt v this ls)) in
  exists before victim later,
    CacheManager.cache this = (before ++ victim :: later)%list /\
    (forall y, In y before -> timestamp (snd victim) < timestamp (snd y)) /\
    (forall y, In y later -> timestamp (snd victim) <= timestamp (snd y)) /\
    (forall k, k <> CacheManager.cacheKey digest prompt ->
       Map_get k after =
       if (k =? fst victim)%string then None else Map_get k (CacheManager.cache this)).
Proof.
  intros Hdistinct Hfull after. unfold after, CacheManager.set.
  cbn [fst CacheManager.cache CacheManager.with_cache].
  set (m := CacheManager.cache this) in *.
  unfold CacheManager.evictOldest.
  replace (Map_size m >=? CACHE_CONFIG.maxEntries) with true
    by (symmetry; rewrite Z.geb_leb; apply Z.leb_le; exact Hfull).
  destruct (sortByTimestamp m) as [|[oldestKey oldest] rest] eqn:Hs.
  { pose proof (sortByTimestamp_length m) as Hlen. rewrite Hs in Hlen.
    unfold Map_size, CACHE_CONFIG.maxEntries in *. simpl in Hlen. lia. }
  destruct (sortByTimestamp_head m _ _ Hs) as (before & later & Hm & Hbefore & Hlater).
  exists before, (oldestKey, oldest), later.
  split; [exact Hm|]. split; [exact Hbefore|]. split; [exact Hlater|].
  intros k Hk. rewrite (Map_get_set_other _ k _ _ Hk). cbn [fst].
  destruct (k =? oldestKey)%string eqn:E.
  - apply String.eqb_eq in E. subst k. apply Map_get_delete_same.
  - apply Map_get_delete_other. intros ->. now rewrite String.eqb_refl in E.
Qed.

(** The theorem at a full map of fifty entries. *)
Lemma set_evicts_the_oldest_witness :
  let this := CacheManager.mk (numberedEntries 50) [] in
  let after :=
    CacheManager.cache
      (fst (CacheManager.set 5000 "new" "p" (JStr "fresh") this (mkStorage NoItem true))) in
  exists before victim later,
    CacheManager.cache this = (before ++ victim :: later)%list /\
    (forall y, In y before -> timestamp (snd victim) < timestamp (snd y)) /\
    (forall y, In y later -> timestamp (snd victim) <= timestamp (snd y)) /\
    (forall k, k <> CacheManager.cacheKey "new" "p" ->
       Map_get k after =
       if (k =? fst victim)%string then None else Map_get k (CacheManager.cache this)).
Proof.
  apply (set_evicts_the_oldest 5000 "new" "p" (JStr "fresh")
           (CacheManager.mk (numberedEntries 50) []) (mkStorage NoItem true)).
  - replace (keysOf (CacheManager.cache (CacheManager.mk (numberedEntries 50) [])))
      with (nodup string_dec (keysOf (numberedEntries 50)))
      by (vm_compute; reflexivity).
    apply NoDup_nodup.
  - vm_compute. discriminate.
Defined.

(** What the fifty-first entry does to the first one. *)
Example fifty_first_entry :
  let this := CacheManager.mk (numberedEntries 50) [] in
  let after :=
    CacheManager.cache
      (fst (CacheManager.set 5000 "new" "p" (JStr "fresh") this (mkStorage NoItem true))) in
  Map_size after = 50 /\
  Map_get "0-p" after = None /\
  Map_get "1-p" after = Some (mkEntry (JStr "kept") 1001 "1") /\
  Map_get "new-p" after = Some (mkEntry (JStr "fresh") 5000 "new").
Proof. vm_compute. repeat split. Qed.

(** ** The rate limiter *)

Lemma filter_filter_length {A} (f g : A -> bool) (l : list A) :
  (List.length (filter g (filter f l)) <= List.length (filter f l))%nat.
Proof. apply filter_length_le. Qed.

(** X4. The wait announced by the limiter: [getNextAvailableTime] is 0
    exactly when [canMakeRequest] answers true; when the limiter refuses
    while holding at most [maxRequestsPerMinute] timestamps, the wait is
    positive, and once it has elapsed [canMakeRequest] answers true with no
    further call in between. *)
Theorem announced_wait_is_enough (now : Z) (this : CacheManager.t) :
  Z.of_nat (List.length (CacheManager.requestTimestamps this))
    <= RATE_LIMIT_CONFIG.maxRequestsPerMinute ->
  let (wait, waiting) := CacheManager.getNextAvailableTime now this in
  (fst (CacheManager.canMakeRequest now this) = true -> wait = 0) /\
  (fst (CacheManager.canMakeRequest now this) = false ->
   0 < wait /\ fst (CacheManager.canMakeRequest (now + wait) waiting) = true).
Proof.
  intros Hbound. unfold CacheManager.getNextAvailableTime.
  destruct (CacheManager.canMakeRequest now this) as [permitted pruned] eqn:Hcheck.
  pose proof (canMakeRequest_answer now this) as Hanswer.
  pose proof (canMakeRequest_timestamps now this) as Hkept.
  rewrite Hcheck in Hanswer, Hkept. cbn [fst snd] in *.
  destruct permitted.
  - split; [reflexivity | discriminate].
  - symmetry in Hanswer. apply Z.ltb_ge in Hanswer.
    destruct (CacheManager.requestTimestamps pruned) as [|oldest rest] eqn:Hts.
    { rewrite <- Hkept in Hanswer. simpl in Hanswer.
      unfold RATE_LIMIT_CONFIG.maxRequestsPerMinute in Hanswer. lia. }
    split; [discriminate|]. intros _.
    assert (Hin : In oldest
      (filter (fun t => now - t <? RATE_LIMIT_CONFIG.cooldownPeriod)
              (CacheManager.requestTimestamps this))).
    { rewrite <- Hkept. now left. }
    apply filter_In in Hin. destruct Hin as [_ Hwindow]. apply Z.ltb_lt in Hwindow.
    assert (Hwait : Z.max 0 (oldest + RATE_LIMIT_CONFIG.cooldownPeriod - now)
                    = oldest + RATE_LIMIT_CONFIG.cooldownPeriod - now) by lia.
    rewrite Hwait. split; [lia|].
    rewrite canMakeRequest_answer, Hts. apply Z.ltb_lt.
    pose proof (filter_drops_one
      (fun t => now + (oldest + RATE_LIMIT_CONFIG.cooldownPeriod - now) - t
                <? RATE_LIMIT_CONFIG.cooldownPeriod)
      (oldest :: rest) oldest (or_introl eq_refl)) as Hdrop.
    assert (Hgone :
      (now + (oldest + RATE_LIMIT_CONFIG.cooldownPeriod - now) - oldest
       <? RATE_LIMIT_CONFIG.cooldownPeriod) = false) by (apply Z.ltb_ge; lia).
    specialize (Hdrop Hgone).
    pose proof (filter_length_le
      (fun t => now - t <? RATE_LIMIT_CONFIG.cooldownPeriod)
      (CacheManager.requestTimestamps this)) as Hle.
    rewrite <- Hkept in Hle. simpl in Hle, Hdrop |- *. lia.
Qed.

(** The theorem at a window of ten requests made at time 1000, asked at
    time 31000: the wait is 30 seconds. *)
Lemma announced_wait_is_enough_witness :
  let this := CacheManager.mk [] (repeat 1000 10) in
  let (wait, waiting) := CacheManager.getNextAvailableTime 31000 this in
  (fst (CacheManager.canMakeRequest 31000 this) = true -> wait = 0) /\
  (fst (CacheManager.canMakeRequest 31000 this) = false ->
   0 < wait /\ fst (CacheManager.canMakeRequest (31000 + wait) waiting) = true).
Proof.
  apply (announced_wait_is_enough 31000 (CacheManager.mk [] (repeat 1000 10))).
  vm_compute. discriminate.
Defined.

Example thirty_seconds_left :
  fst (CacheManager.getNextAvailableTime 31000 (CacheManager.mk [] (repeat 1000 10)))
  = 30000.
Proof. reflexivity. Qed.

(** X5. Admission lasts until a request is recorded: once [canMakeRequest]
    has answered true, it answers true again at every later call, at
    whatever times the calls are made, as long as [recordRequest] is not
    called. *)
Theorem admission_lasts_until_a_record
    (now later : Z) (times : list Z) (this : CacheManager.t) :
  fst (CacheManager.canMakeRequest now this) = true ->
  fst (CacheManager.canMakeRequest later
         (askedAgain times (snd (CacheManager.canMakeRequest now this)))) = true.
Proof.
  intros Hfirst. rewrite canMakeRequest_answer in Hfirst. apply Z.ltb_lt in Hfirst.
  rewrite <- canMakeRequest_timestamps in Hfirst.
  generalize dependent (snd (CacheManager.canMakeRequest now this)).
  intros m Hm. revert m Hm.
  unfold askedAgain.
  induction times as [|t times IH]; intros m Hm; cbn [fold_left].
  - rewrite canMakeRequest_answer. apply Z.ltb_lt.
    pose proof (filter_length_le
      (fun t => later - t <? RATE_LIMIT_CONFIG.cooldownPeriod)
      (CacheManager.requestTimestamps m)). lia.
  - apply IH. rewrite canMakeRequest_timestamps.
    pose proof (filter_length_le
      (fun t0 => t - t0 <? RATE_LIMIT_CONFIG.cooldownPeriod)
      (CacheManager.requestTimestamps m)). lia.
Qed.

(** The theorem at a window of nine requests, asked three more times. *)
Lemma admission_lasts_until_a_record_witness :
  let this := CacheManager.mk [] (repeat 1000 9) in
  fst (CacheManager.canMakeRequest 3000
         (askedAgain [1500; 1200; 2500] (snd (CacheManager.canMakeRequest 1100 this))))
  = true.
Proof.
  apply (admission_lasts_until_a_record 1100 3000 [1500; 1200; 2500]
           (CacheManager.mk [] (repeat 1000 9))).
  reflexivity.
Defined.

(** ** What asynchronous code maintains of the manager *)

Section Maintains.

Context (J : CacheManager.t -> Prop).

Lemma maintains_ret {A} (a : A) : maintains J (ret a).
Proof. intros s H. exact H. Qed.

Lemma maintains_throw {A} (e : Thrown) : maintains J (@throw A e).
Proof. intros s H. exact H. Qed.

Lemma maintains_lift {A} (o : Outcome A) : maintains J (lift o).
Proof. intros s H. exact H. Qed.

Lemma maintains_bind {A B} (c : M A) (k : A -> M B) :
  maintains J c -> (forall a, maintains J (k a)) -> maintains J (bind c k).
Proof.
  intros Hc Hk s H. unfold bind. specialize (Hc s H).
  destruct (c s) as [[a|e] s']; simpl in *; [now apply Hk | exact Hc].
Qed.

Lemma maintains_tryCatch {A} (body : M A) (handler : Thrown -> M A) :
  maintains J body -> (forall e, maintains J (handler e)) ->
  maintains J (tryCatch body handler).
Proof.
  intros Hb Hh s H. unfold tryCatch. specialize (Hb s H).
  destruct (body s) as [[a|e] s']; simpl in *; [exact Hb | now apply Hh].
Qed.

Lemma maintains_tryFinally {A} (body : M A) (finalizer : M unit) :
  maintains J body -> maintains J finalizer -> maintains J (tryFinally body finalizer).
Proof.
  intros Hb Hf s H. unfold tryFinally. specialize (Hb s H).
  destruct (body s) as [r s']; simpl in *. specialize (Hf s' Hb).
  destruct (finalizer s') as [[u|e] s'']; exact Hf.
Qed.

Lemma maintains_setState (f : UIState -> UIState) : maintains J (setState f).
Proof. intros s H. exact H. Qed.

Lemma maintains_sleep (delay : Z) : maintains J (sleep delay).
Proof. intros s H. exact H. Qed.

Lemma maintains_invoke {A} (operation : M A) :
  maintains J operation -> maintains J (invoke operation).
Proof. intros Hop s H. unfold invoke. now apply Hop. Qed.

Lemma maintains_json (body : Body) : maintains J (json body).
Proof. destruct body; [apply maintains_ret | apply maintains_throw]. Qed.

Lemma maintains_fetch (P : Platform) (req : Request) : maintains J (fetch P req).
Proof.
  intros s H. unfold fetch.
  destruct (respond P (sent s ++ [req])) as [elapsed [message|status body]]; exact H.
Qed.

Lemma maintains_generateImageHash (P : Platform) (imageUrl : string) :
  maintains J (generateImageHash P imageUrl).
Proof.
  intros s H. unfold generateImageHash.
  destruct (imageDigest P imageUrl); exact H.
Qed.

Hypothesis Jstands : withstands J.

Lemma maintains_cacheManager_get (P : Platform) (imageUrl prompt : string) :
  maintains J (cacheManager_get P imageUrl prompt).
Proof.
  apply maintains_bind; [apply maintains_generateImageHash|].
  intros digest s H. unfold withManager.
  destruct Jstands as (Hget & _ & _). specialize (Hget (clock s) digest prompt _ H).
  destruct (CacheManager.get (clock s) digest prompt (manager s)); exact Hget.
Qed.

Lemma maintains_cacheManager_set (P : Platform) (imageUrl prompt : string) (v : JSValue) :
  maintains J (cacheManager_set P imageUrl prompt v).
Proof.
  apply maintains_bind; [apply maintains_generateImageHash|].
  intros digest s H.
  destruct Jstands as (_ & Hset & _).
  specialize (Hset (clock s) digest prompt v _ (localStorage s) H).
  destruct (CacheManager.set (clock s) digest prompt v (manager s) (localStorage s));
    exact Hset.
Qed.

Lemma maintains_canMakeRequest : maintains J cacheManager_canMakeRequest.
Proof.
  intros s H. rewrite canMakeRequest_run. destruct Jstands as (_ & _ & Hprune).
  now apply Hprune.
Qed.

Lemma getNextAvailableTime_state (now : Z) (m : CacheManager.t) :
  snd (CacheManager.getNextAvailableTime now m) = snd (CacheManager.canMakeRequest now m).
Proof.
  unfold CacheManager.getNextAvailableTime.
  destruct (CacheManager.canMakeRequest now m) as [[|] pruned]; [reflexivity|].
  cbn [snd]. destruct (CacheManager.requestTimestamps pruned); reflexivity.
Qed.

Lemma maintains_getNextAvailableTime : maintains J cacheManager_getNextAvailableTime.
Proof.
  intros s H. unfold cacheManager_getNextAvailableTime, withManager.
  pose proof (getNextAvailableTime_state (clock s) (manager s)) as Hstate.
  destruct (CacheManager.getNextAvailableTime (clock s) (manager s)) as [w m'].
  cbn [snd manager] in *. rewrite Hstate.
  destruct Jstands as (_ & _ & Hprune). now apply Hprune.
Qed.

End Maintains.

Ltac maintains_step :=
  match goal with
  | |- maintains _ (bind _ _) => apply maintains_bind; [|intros ?]
  | |- maintains _ (tryCatch _ _) => apply maintains_tryCatch; [|intros ?]
  | |- maintains _ (ret _) => apply maintains_ret
  | |- maintains _ (throw _) => apply maintains_throw
  | |- maintains _ (lift _) => apply maintains_lift
  | |- maintains _ (json _) => apply maintains_json
  | |- maintains _ (fetch _ _) => apply maintains_fetch
  | |- maintains _ (sleep _) => apply maintains_sleep
  | |- maintains _ (setState _) => apply maintains_setState
  | |- maintains _ (cacheManager_get _ _ _) => apply maintains_cacheManager_get; assumption
  | |- maintains _ (cacheManager_set _ _ _ _) => apply maintains_cacheManager_set; assumption
  | |- maintains _ cacheManager_canMakeRequest => apply maintains_canMakeRequest; assumption
  | |- maintains _ cacheManager_getNextAvailableTime =>
      apply maintains_getNextAvailableTime; assumption
  | |- maintains _ (if ?b then _ else _) => destruct b
  | |- maintains _ (match ?x with _ => _ end) => destruct x
  end.

Lemma maintains_analysisOperation (P : Platform) (J : CacheManager.t -> Prop)
    (apiKey uploadedImage imageBase64 prompt : string) :
  withstands J ->
  maintains J (analysisOperation P apiKey uploadedImage imageBase64 prompt).
Proof. intros HJ. unfold analysisOperation. repeat maintains_step. Qed.

Lemma maintains_generateRepairedImageWithGemini (P : Platform)
    (J : CacheManager.t -> Prop) (description : JSValue) :
  maintains J (generateRepairedImageWithGemini P description).
Proof.
  unfold generateRepairedImageWithGemini, generateImageDescription.
  repeat maintains_step.
Qed.

Lemma withstands_withinBounds : withstands withinBounds.
Proof.
  split; [|split].
  - intros now h p m (Hd & Hs & Ht). unfold CacheManager.get.
    destruct (Map_get _ _) as [entry|]; [|now repeat split].
    destruct (_ <? _); [now repeat split|].
    unfold withinBounds, CacheManager.with_cache.
    cbn [snd CacheManager.cache CacheManager.requestTimestamps].
    repeat split; [| | exact Ht].
    + rewrite keysOf_Map_delete. now apply NoDup_filter_keys.
    + pose proof (Map_delete_length (CacheManager.cacheKey h p) (CacheManager.cache m)).
      unfold Map_size in *. lia.
  - intros now h p v m ls (Hd & Hs & Ht).
    destruct (set_within_capacity now h p v m ls Hd Hs) as (Hd' & Hs').
    repeat split; assumption.
  - intros now m (Hd & Hs & Ht). repeat split; [exact Hd | exact Hs |].
    rewrite canMakeRequest_timestamps.
    pose proof (filter_length_le
      (fun t => now - t <? RATE_LIMIT_CONFIG.cooldownPeriod)
      (CacheManager.requestTimestamps m)). lia.
Qed.

Lemma withstands_withRoom : withstands withRoom.
Proof.
  split; [|split].
  - intros now h p m (Hd & Hs & Ht).
    destruct withstands_withinBounds as (Hget & _ & _).
    destruct (Hget now h p m) as (Hd' & Hs' & _).
    { repeat split; [exact Hd | exact Hs | lia]. }
    repeat split; [exact Hd' | exact Hs' |].
    unfold CacheManager.get. destruct (Map_get _ _); [|exact Ht].
    destruct (_ <? _); exact Ht.
  - intros now h p v m ls (Hd & Hs & Ht).
    destruct (set_within_capacity now h p v m ls Hd Hs) as (Hd' & Hs').
    repeat split; assumption.
  - intros now m (Hd & Hs & Ht). repeat split; [exact Hd | exact Hs |].
    rewrite canMakeRequest_timestamps.
    pose proof (filter_length_le
      (fun t => now - t <? RATE_LIMIT_CONFIG.cooldownPeriod)
      (CacheManager.requestTimestamps m)). lia.
Qed.

Lemma admitted_has_room (now : Z) (m : CacheManager.t) :
  withinBounds m ->
  fst (CacheManager.canMakeRequest now m) = true ->
  withRoom (snd (CacheManager.canMakeRequest now m)).
Proof.
  intros (Hd & Hs & Ht) Hok. rewrite canMakeRequest_answer in Hok.
  apply Z.ltb_lt in Hok. repeat split; [exact Hd | exact Hs |].
  now rewrite canMakeRequest_timestamps.
Qed.

Lemma record_fills_room (now : Z) (m : CacheManager.t) :
  withRoom m -> withinBounds (CacheManager.recordRequest now m).
Proof.
  intros (Hd & Hs & Ht). repeat split; [exact Hd | exact Hs |].
  cbn. rewrite length_app. simpl. lia.
Qed.

Lemma maintains_retryLoop {T} (retryConfig : RetryConfig) (operation : M T) :
  maintains withinBounds operation ->
  maintains withRoom operation ->
  forall n attempt delay lastError,
    maintains withinBounds (retryLoop retryConfig operation n attempt delay lastError).
Proof.
  intros Hop Hroom n. induction n as [|n IH]; intros attempt delay lastError.
  - simpl. destruct lastError; apply maintains_throw.
  - intros s H. cbn [retryLoop].
    match goal with
    | |- withinBounds (manager (snd (match ?body s with _ => _ end))) =>
        assert (Hbody : withinBounds (manager (snd (body s))))
    end.
    { unfold bind at 1. rewrite canMakeRequest_run.
      destruct (fst (CacheManager.canMakeRequest (clock s) (manager s))) eqn:Hok;
        cbn [negb].
      - pose proof (admitted_has_room _ _ H Hok) as Hr.
        unfold bind at 1.
        match goal with
        | |- context [invoke operation ?s1] =>
            pose proof (maintains_invoke withRoom operation Hroom s1 Hr) as Hafter;
            destruct (invoke operation s1) as [[result|e] s2]
        end; [|cbn in *; destruct Hafter as (? & ? & ?); repeat split; try assumption; lia].
        cbn in *. now apply record_fills_room.
      - apply (maintains_bind withinBounds cacheManager_getNextAvailableTime).
        + apply maintains_getNextAvailableTime. apply withstands_withinBounds.
        + intros w. apply maintains_throw.
        + destruct withstands_withinBounds as (_ & _ & Hprune). now apply Hprune. }
    match goal with
    | |- withinBounds (manager (snd (match ?body with _ => _ end))) =>
        destruct body as [[result|error] s']
    end; [exact Hbody|].
    simpl in Hbody.
    destruct (negb (retryable (messageOf (asError error)))); [exact Hbody|].
    destruct (attempt <? maxRetries retryConfig - 1).
    + apply (maintains_bind withinBounds (sleep delay));
        [apply maintains_sleep | intros; apply IH | exact Hbody].
    + now apply IH.
Qed.

Lemma maintains_callGeminiVision (P : Platform)
    (uploadedImage imageBase64 prompt : string) :
  maintains withinBounds (callGeminiVision P uploadedImage imageBase64 prompt).
Proof.
  pose proof withstands_withinBounds as HJ.
  unfold callGeminiVision.
  repeat (maintains_step
          || (unfold retryWithBackoff; apply maintains_retryLoop;
              apply maintains_analysisOperation;
              [apply withstands_withinBounds | apply withstands_withRoom])).
Qed.

Lemma maintains_click (P : Platform) : maintains withinBounds (click P).
Proof.
  pose proof withstands_withinBounds as HJ.
  assert (Hhandler : forall render, maintains withinBounds (handleGenerateReport P render)).
  { intros render. unfold handleGenerateReport, startRun, runReport,
      convertImageToBase64, parseStep, reportFailure, releaseLoading.
    repeat (maintains_step
            || apply maintains_tryFinally
            || apply maintains_callGeminiVision
            || apply maintains_generateRepairedImageWithGemini). }
  intros s. apply Hhandler.
Qed.

(** X6. The bounds of the manager hold throughout a session: if the cache
    holds distinct keys, at most [maxEntries] of them, and the limiter at
    most [maxRequestsPerMinute] timestamps, the same holds after any
    sequence of uploads, edits, waits and clicks, whatever the network
    answers and whether the runs end with a report or with an error. *)
Theorem session_keeps_manager_within_bounds (P : Platform) (s0 s : Sys) :
  withinBounds (manager s0) -> evolves P s0 s -> withinBounds (manager s).
Proof.
  intros Hstart Hsession.
  induction Hsession as [|s imageUrl _ IH|s text _ IH|s _ IH _|s elapsed _ IH _].
  - exact Hstart.
  - exact IH.
  - exact IH.
  - now apply maintains_click.
  - exact IH.
Qed.

(** The theorem at a manager that is full (fifty entries, nine timestamps),
    after a click whose analysis is answered. *)
Lemma session_keeps_manager_within_bounds_witness :
  let P := browser (Some "k")
             [(100, candidateReply "all fine"); (100, candidateReply "a restored viaduct");
              (100, modelNotFoundReply)] in
  let s0 := mkSys 2000 (CacheManager.mk (numberedEntries 50) (repeat 1000 9))
                  (mkStorage NoItem true) readyUI [] [] 0 in
  withinBounds (manager (snd (click P s0))).
Proof.
  intros P s0.
  apply (session_keeps_manager_within_bounds P s0 (snd (click P s0))).
  - repeat split.
    + replace (keysOf (CacheManager.cache (manager s0)))
        with (nodup string_dec (keysOf (numberedEntries 50)))
        by (vm_compute; reflexivity).
      apply NoDup_nodup.
    + vm_compute. discriminate.
    + vm_compute. discriminate.
  - apply evolves_click; [apply evolves_here | reflexivity].
Defined.

Example full_manager_after_a_click :
  let P := browser (Some "k")
             [(100, candidateReply "all fine"); (100, candidateReply "a restored viaduct");
              (100, modelNotFoundReply)] in
  let s0 := mkSys 2000 (CacheManager.mk (numberedEntries 50) (repeat 1000 9))
                  (mkStorage NoItem true) readyUI [] [] 0 in
  let m := manager (snd (click P s0)) in
  Map_size (CacheManager.cache m) = 50 /\
  CacheManager.requestTimestamps m = (repeat 1000 9 ++ [2100])%list.
Proof. vm_compute. split; reflexivity. Qed.

(** ** Refusals of the service *)






(** ** How a click ends *)

(** A run that returns has set a report and cleared the progress text. *)
Lemma runReport_returns (P : Platform) (image description : string) (s0 s' : Sys) (u : unit) :
  runReport P image description s0 = (Returned u, s') ->
  processingStep (ui s') = "" /\ exists report, reportData (ui s') = Some report.
Proof.
  unfold runReport, convertImageToBase64.
  destruct (loadImage P image) as [base64|]; [|discriminate].
  unfold bind at 1, ret. unfold bind at 1. cbn [setState].
  set (sA := mkSys _ _ _ _ _ _ _).
  unfold bind at 1.
  destruct (callGeminiVision P image base64 (fullPrompt description) sA)
    as [[analysis|e] s1]; [|discriminate].
  unfold bind at 1. cbn [setState].
  set (sV := mkSys _ _ _ _ _ _ _).
  unfold bind at 1.
  destruct (generateRepairedImageWithGemini P analysis sV) as [[url|e] s2];
    [|discriminate].
  unfold bind at 1.
  destruct analysis; cbn [parseStep throw ret]; try discriminate.
  unfold bind at 1, lift.
  destruct (assemble P url (parseAnalysis P s)) as [report|e]; [|discriminate].
  cbn. intros H. injection H as _ <-. cbn. split; [reflexivity | now exists report].
Qed.

Lemma releaseLoading_frame (retryCount : Z) (s : Sys) :
  fst (releaseLoading retryCount s) = Returned tt /\
  error (ui (snd (releaseLoading retryCount s))) = error (ui s) /\
  processingStep (ui (snd (releaseLoading retryCount s))) = processingStep (ui s) /\
  reportData (ui (snd (releaseLoading retryCount s))) = reportData (ui s).
Proof. unfold releaseLoading. destruct (_ >=? _); repeat split. Qed.

Lemma reportFailure_sets_message (retryCount : Z) (e : Thrown) (s : Sys) :
  fst (reportFailure retryCount e s) = Returned tt /\
  error (ui (snd (reportFailure retryCount e s))) = Some (errorMessageFor retryCount e).
Proof.
  unfold reportFailure. unfold bind at 1. cbn [setState].
  destruct (negb _); split; reflexivity.
Qed.

(** X9. The click handler never throws, and it never ends silently: when it
    returns, either an error message is set, or no error is set, the
    progress text is empty and a report is set. *)
Theorem click_ends_with_a_message_or_a_report (P : Platform) (s : Sys) :
  fst (click P s) = Returned tt /\
  ((exists message, error (ui (snd (click P s))) = Some message) \/
   (error (ui (snd (click P s))) = None /\
    processingStep (ui (snd (click P s))) = "" /\
    exists report, reportData (ui (snd (click P s))) = Some report)).
Proof.
  destruct (uploadedImage (ui s)) as [image|] eqn:Himage.
  2: { unfold click, handleGenerateReport. rewrite Himage.
       split; [reflexivity | left; eexists; reflexivity]. }
  destruct (image =? "")%string eqn:Hempty.
  { unfold click, handleGenerateReport. rewrite Himage, Hempty.
    split; [reflexivity | left; eexists; reflexivity]. }
  destruct (blank (userDescription (ui s))) eqn:Hblank.
  { unfold click, handleGenerateReport. rewrite Himage, Hempty, Hblank.
    split; [reflexivity | left; eexists; reflexivity]. }
  assert (Hnonempty : image <> "").
  { intros ->. discriminate. }
  rewrite (click_runs P s image Himage Hnonempty Hblank).
  unfold tryFinally, tryCatch.
  destruct (runReport P image (userDescription (ui s)) (snd (startRun s)))
    as [[u|e] s'] eqn:Hrun.
  - destruct (runReport_returns _ _ _ _ _ _ Hrun) as (Hstep & report & Hreport).
    assert (Herror : error (ui s') = None).
    { pose proof (keeps_runReport P (fun u => error u = None) image
                    (userDescription (ui s)) (aboveAnalysis_error None)
                    (fun _ _ H => H) (fun _ _ H => H) (snd (startRun s)) eq_refl) as H.
      rewrite Hrun in H. exact H. }
    destruct (releaseLoading_frame (retryCount (ui s)) s') as (Hret & He & Hp & Hr).
    destruct (releaseLoading (retryCount (ui s)) s') as [[[]|e] final];
      [|discriminate]. cbn [fst snd] in *. destruct u.
    split; [reflexivity|]. right.
    rewrite He, Hp, Hr. repeat split; [exact Herror | exact Hstep | now exists report].
  - destruct (reportFailure_sets_message (retryCount (ui s)) e s') as (Hret & Hmessage).
    destruct (reportFailure (retryCount (ui s)) e s') as [[[]|e'] s''];
      [|discriminate]. cbn [fst snd] in *.
    destruct (releaseLoading_frame (retryCount (ui s)) s'') as (Hret' & He & _).
    destruct (releaseLoading (retryCount (ui s)) s'') as [[[]|e'] final];
      [|discriminate]. cbn [fst snd] in *.
    split; [reflexivity|]. left. rewrite He, Hmessage. eexists; reflexivity.
Qed.

(** X10. No request leaves the browser when an input or the key is
    missing: if no image is uploaded, the description is blank, the image
    cannot be loaded, or the API key is absent or empty, a click sends
    nothing, leaves the cache manager, the durable store and the report
    shown as they were, and sets an error message. *)
Theorem no_request_without_inputs (P : Platform) (s : Sys) :
  uploadedImage (ui s) = None \/
  uploadedImage (ui s) = Some "" \/
  blank (userDescription (ui s)) = true \/
  (exists image, uploadedImage (ui s) = Some image /\ loadImage P image = None) \/
  presentKey P = None ->
  sent (snd (click P s)) = sent s /\
  manager (snd (click P s)) = manager s /\
  localStorage (snd (click P s)) = localStorage s /\
  reportData (ui (snd (click P s))) = reportData (ui s) /\
  exists message, error (ui (snd (click P s))) = Some message.
Proof.
  intros Hmissing.
  destruct (uploadedImage (ui s)) as [image|] eqn:Himage.
  2: { unfold click, handleGenerateReport. rewrite Himage.
       repeat split. eexists; reflexivity. }
  destruct (image =? "")%string eqn:Hempty.
  { unfold click, handleGenerateReport. rewrite Himage, Hempty.
    repeat split. eexists; reflexivity. }
  destruct (blank (userDescription (ui s))) eqn:Hblank.
  { unfold click, handleGenerateReport. rewrite Himage, Hempty, Hblank.
    repeat split. eexists; reflexivity. }
  assert (Hnonempty : image <> "").
  { intros ->. discriminate. }
  assert (Hcases : loadImage P image = None \/ presentKey P = None).
  { destruct Hmissing as [H|[H|[H|[(image' & H & Hload)|H]]]];
      try discriminate.
    - injection H as ->. discriminate.
    - injection H as <-. now left.
    - now right. }
  rewrite (click_runs P s image Himage Hnonempty Hblank).
  unfold tryFinally, tryCatch, runReport, convertImageToBase64.
  destruct (loadImage P image) as [base64|] eqn:Hload.
  - destruct Hcases as [|Hkey]; [discriminate|].
    unfold callGeminiVision. rewrite Hkey.
    unfold releaseLoading, reportFailure.
    destruct (retryCount (ui s) >=? maxRetries RETRY_CONFIG);
      cbn; repeat split; eexists; reflexivity.
  - unfold releaseLoading, reportFailure.
    destruct (retryCount (ui s) >=? maxRetries RETRY_CONFIG);
      cbn; repeat split; eexists; reflexivity.
Qed.

(** The theorem at a configuration with no API key. *)
Lemma no_request_without_inputs_witness :
  let P := browser None [(100, candidateReply "all fine")] in
  let s := freshSystem 1000 readyUI in
  sent (snd (click P s)) = sent s /\
  manager (snd (click P s)) = manager s /\
  localStorage (snd (click P s)) = localStorage s /\
  reportData (ui (snd (click P s))) = reportData (ui s) /\
  exists message, error (ui (snd (click P s))) = Some message.
Proof.
  intros P s. apply (no_request_without_inputs P s).
  right. right. right. right. reflexivity.
Defined.

Example message_without_key :
  let P := browser None [(100, candidateReply "all fine")] in
  error (ui (snd (click P (freshSystem 1000 readyUI))))
  = Some ("Failed to generate report. " ++ missingKeyMessage).
Proof. vm_compute. reflexivity. Qed.

(** A description made of a no-break space and a space is blank. *)
Example no_break_space_is_blank :
  blank (String (ascii_of_nat 194) (String (ascii_of_nat 160) " ")) = true /\
  blank "crack in beam" = false.
Proof. split; reflexivity. Qed.

(** ** The report of a structured answer *)

(** X11. A structured answer passes through unchecked: in a run whose
    analysis step returns the text [response] and whose visualization step
    returns an image, when the block matched in [response] parses to an
    object, the click handler returns with no error message, no progress
    text, and a report whose three sections are the members
    [repair_description], [cost_estimation] and [timeline] of that object,
    as they are; a member the object lacks is [undefined] in the report. *)
Theorem structured_report_passes_through
    (P : Platform) (s s1 s2 : Sys) (image base64 response url block : string)
    (fields : list (string * JSValue)) :
  uploadedImage (ui s) = Some image ->
  image <> "" ->
  blank (userDescription (ui s)) = false ->
  loadImage P image = Some base64 ->
  callGeminiVision P image base64 (fullPrompt (userDescription (ui s))) (atAnalysis s)
    = (Returned (JStr response), s1) ->
  generateRepairedImageWithGemini P (JStr response) (atVisualization s1)
    = (Returned url, s2) ->
  jsonMatch response = Some block ->
  JSON_parse P block = Some (JObj fields) ->
  exists final,
    click P s = (Returned tt, final) /\
    error (ui final) = None /\
    processingStep (ui final) = "" /\
    reportData (ui final) =
      Some {| repaired_image_url := url;
              repair_description :=
                JSON_stringify P (lookupField "repair_description" fields);
              cost_estimation := lookupField "cost_estimation" fields;
              timeline := lookupField "timeline" fields |}.
Proof.
  intros Himage Hnonempty Hblank Hload Hanalysis Hvisual Hblock Hparsed.
  assert (Herror : error (ui s2) = None).
  { apply (visualization_keeps P (fun u => error u = None) _ _ _ _ Hvisual).
    apply (analysis_keeps P (fun u => error u = None) _ _ _ _ _ _
             (aboveAnalysis_error None) Hanalysis).
    reflexivity. }
  eexists. split.
  - apply (click_success P s s1 s2 image base64 response url); try eassumption.
    unfold parseAnalysis. rewrite Hblock, Hparsed. reflexivity.
  - unfold releaseLoading.
    destruct (retryCount (ui s) >=? maxRetries RETRY_CONFIG);
      cbn; repeat split; exact Herror.
Qed.

(** The theorem at an answer that holds a cost estimation only. *)
Lemma structured_report_passes_through_witness :
  let answer :=
    "Here is the plan. {" ++ dq ++ "cost_estimation" ++ dq ++ ": {" ++ dq ++ "total" ++ dq
    ++ ": " ++ dq ++ "12" ++ dq ++ "}} Thank you." in
  let P := browser (Some "k")
             [(100, candidateReply answer); (100, candidateReply "a restored viaduct");
              (100, modelNotFoundReply)] in
  let run := click P (freshSystem 1000 readyUI) in
  fst run = Returned tt /\
  error (ui (snd run)) = None /\
  option_map cost_estimation (reportData (ui (snd run)))
    = Some (JObj [("total", JStr "12")]) /\
  option_map timeline (reportData (ui (snd run))) = Some JUndefined.
Proof.
  intros answer P run.
  pose (s := freshSystem 1000 readyUI).
  pose (a := callGeminiVision P "blob:1" "blob:1" (fullPrompt "crack in beam")
               (atAnalysis s)).
  pose (v := generateRepairedImageWithGemini P (JStr answer) (atVisualization (snd a))).
  destruct (structured_report_passes_through P s (snd a) (snd v)
              "blob:1" "blob:1" answer placeholderImage
              ("{" ++ dq ++ "cost_estimation" ++ dq ++ ": {" ++ dq ++ "total" ++ dq
               ++ ": " ++ dq ++ "12" ++ dq ++ "}}")
              [("cost_estimation", JObj [("total", JStr "12")])])
    as (final & Hclick & Herror & _ & Hreport).
  - reflexivity.
  - discriminate.
  - reflexivity.
  - reflexivity.
  - vm_compute. reflexivity.
  - vm_compute. reflexivity.
  - vm_compute. reflexivity.
  - vm_compute. reflexivity.
  - unfold run. fold s. rewrite Hclick. cbn [fst snd].
    split; [reflexivity|]. split; [exact Herror|].
    rewrite Hreport. split; reflexivity.
Defined.

(** ** The keys of the cache *)

Lemma append_dash_injective (h1 h2 p1 p2 : string) :
  String.length h1 = String.length h2 ->
  h1 ++ "-" ++ p1 = h2 ++ "-" ++ p2 -> h1 = h2 /\ p1 = p2.
Proof.
  revert h2. induction h1 as [|c h1 IH]; intros [|c2 h2] Hlen Heq;
    simpl in Hlen; try discriminate.
  - simpl in Heq. injection Heq as ->. now split.
  - simpl in Heq. injection Heq as -> Hrest.
    destruct (IH h2) as [-> ->]; [lia | exact Hrest | now split].
Qed.

Lemma dash_free_same_length (h1 h2 p1 p2 : string) :
  occurs "-"%char h1 = false -> occurs "-"%char h2 = false ->
  h1 ++ "-" ++ p1 = h2 ++ "-" ++ p2 -> String.length h1 = String.length h2.
Proof.
  revert h2. induction h1 as [|c h1 IH]; intros [|c2 h2] H1 H2 Heq.
  - reflexivity.
  - simpl in Heq, H2. injection Heq as <- _.
    rewrite Ascii.eqb_refl in H2. discriminate.
  - simpl in Heq, H1. injection Heq as -> _.
    rewrite Ascii.eqb_refl in H1. discriminate.
  - simpl in Heq, H1, H2. injection Heq as _ Hrest.
    apply orb_false_iff in H1, H2. simpl. f_equal.
    apply IH; tauto.
Qed.

(** X12. Two requests share a cache entry only if they are the same
    request: for image hashes of equal length, or with no dash in them (the
    hexadecimal digests that [generateImageHash] produces are both), equal
    cache keys mean equal hashes and equal prompts. *)
Theorem cacheKey_separates_requests (h1 h2 p1 p2 : string) :
  String.length h1 = String.length h2 \/
  (occurs "-"%char h1 = false /\ occurs "-"%char h2 = false) ->
  CacheManager.cacheKey h1 p1 = CacheManager.cacheKey h2 p2 ->
  h1 = h2 /\ p1 = p2.
Proof.
  unfold CacheManager.cacheKey. intros [Hlen|[H1 H2]] Heq.
  - now apply append_dash_injective.
  - apply append_dash_injective; [|exact Heq].
    now apply (dash_free_same_length h1 h2 p1 p2).
Qed.

(** The theorem at two digests of the same length. *)
Lemma cacheKey_separates_requests_witness :
  "ab12" = "ab12" /\ "repair the beam" = "repair the beam".
Proof.
  apply (cacheKey_separates_requests "ab12" "ab12" "repair the beam" "repair the beam").
  - left. reflexivity.
  - reflexivity.
Defined.

(** Without the condition on the hashes, two different requests can meet. *)
Example cacheKey_collision :
  CacheManager.cacheKey "a-b" "c" = CacheManager.cacheKey "a" "b-c".
Proof. reflexivity. Qed.

(** ** The name of the saved file *)

Lemma replaceColons_no_colon (s : string) :
  occurs ":"%char (PDFGenerator.replaceColons s) = false.
Proof.
  induction s as [|c s IH]; [reflexivity|]. simpl. rewrite IH.
  destruct (Ascii.eqb c ":"%char) eqn:E; [reflexivity|].
  rewrite E. reflexivity.
Qed.

Lemma occurs_append (c : ascii) (a b : string) :
  occurs c (a ++ b) = occurs c a || occurs c b.
Proof.
  induction a as [|x a IH]; [reflexivity|]. simpl. rewrite IH. apply orb_assoc.
Qed.

Lemma replaceColons_length (s : string) :
  String.length (PDFGenerator.replaceColons s) = String.length s.
Proof. induction s as [|c s IH]; [reflexivity|]. simpl. now rewrite IH. Qed.

Lemma substring0_length (n : nat) (s : string) :
  String.length (substring 0 n s) = Nat.min n (String.length s).
Proof.
  revert s. induction n as [|n IH]; intros [|c s]; simpl; try reflexivity.
  now rewrite IH.
Qed.

(** X13. The name under which the PDF is saved holds no colon, whatever
    the clock prints, and its time part is as long as the first nineteen
    characters of the ISO text. *)
Theorem pdf_file_name_has_no_colon (iso : string) :
  occurs ":"%char (PDFGenerator.fileName iso) = false /\
  String.length (PDFGenerator.timestamp iso) = Nat.min 19 (String.length iso).
Proof.
  split.
  - unfold PDFGenerator.fileName, PDFGenerator.timestamp.
    rewrite !occurs_append, replaceColons_no_colon. reflexivity.
  - unfold PDFGenerator.timestamp. now rewrite replaceColons_length, substring0_length.
Qed.

Example pdf_file_name_of_a_date :
  PDFGenerator.fileName "2024-05-17T09:41:07.123Z"
  = "Infrastructure-Completion-Report-2024-05-17T09-41-07.pdf".
Proof. reflexivity. Qed.

(** ** What the limiter counts *)

Lemma besidesNetwork_refl (s : Sys) : besidesNetwork s s.
Proof. repeat split. Qed.

Lemma besidesNetwork_trans (s s' s'' : Sys) :
  besidesNetwork s s' -> besidesNetwork s' s'' -> besidesNetwork s s''.
Proof.
  intros (A & B & C & D & E) (A' & B' & C' & D' & E').
  repeat split; congruence.
Qed.

Lemma fetch_besidesNetwork (P : Platform) (req : Request) (s : Sys) :
  besidesNetwork s (snd (fetch P req s)) /\
  sent (snd (fetch P req s)) = (sent s ++ [req])%list.
Proof.
  unfold fetch.
  destruct (respond P (sent s ++ [req])) as [elapsed [message|status body]];
    cbn; repeat split.
Qed.

Lemma sendsAtMost_refl (n : nat) (s : Sys) : sendsAtMost n s s.
Proof. split; [apply besidesNetwork_refl | lia]. Qed.

Lemma sendsAtMost_more (n : nat) (s s' : Sys) : sendsAtMost n s s' -> sendsAtMost (S n) s s'.
Proof. intros [H Hlen]. split; [exact H | lia]. Qed.

Lemma sendsAtMost_fetch (P : Platform) (req : Request) (n : nat) (s s' : Sys) :
  sendsAtMost n s s' -> sendsAtMost (S n) s (snd (fetch P req s')).
Proof.
  intros [H Hlen]. destruct (fetch_besidesNetwork P req s') as [Hframe Hsent].
  split; [now apply (besidesNetwork_trans s s') |].
  rewrite Hsent, length_app. simpl. lia.
Qed.

Lemma generateImageDescription_sendsAtMost
    (P : Platform) (analysisText : JSValue) (s : Sys) :
  sendsAtMost 1 s (snd (generateImageDescription P analysisText s)).
Proof.
  unfold generateImageDescription.
  destruct (presentKey P) as [k|]; [|apply sendsAtMost_refl].
  destruct analysisText; try apply sendsAtMost_refl.
  unfold bind at 1.
  pose proof (sendsAtMost_fetch P (mkRequest GenerateContent k (imagePrompt s0) None)
                0 s s (sendsAtMost_refl 0 s)) as Hfetch.
  destruct (fetch P (mkRequest GenerateContent k (imagePrompt s0) None) s)
    as [[[status body]|e] s1]; cbn [snd] in *; [|exact Hfetch].
  destruct (negb (ok status)).
  - destruct body as [v|message]; cbn; [|exact Hfetch].
    destruct (errorMessageOf v); cbn; exact Hfetch.
  - destruct body as [v|message]; cbn; [|exact Hfetch].
    destruct (candidateText v); cbn; exact Hfetch.
Qed.

(** X14. The visualization step goes past the limiter and the cache:
    [generateRepairedImageWithGemini] sends at most two requests and,
    however they end, neither asks nor updates the cache manager: the
    manager, the durable store, the backoff log and the component state
    are what they were. *)
Theorem visualization_bypasses_limiter_and_cache
    (P : Platform) (description : JSValue) (s : Sys) :
  let run := generateRepairedImageWithGemini P description s in
  manager (snd run) = manager s /\
  localStorage (snd run) = localStorage s /\
  slept (snd run) = slept s /\
  ui (snd run) = ui s /\
  (List.length (sent (snd run)) <= 2 + List.length (sent s))%nat.
Proof.
  intros run.
  assert (H : sendsAtMost 2 s (snd run)).
  { unfold run, generateRepairedImageWithGemini.
    destruct (presentKey P) as [k|]; [|apply sendsAtMost_refl].
    unfold bind at 1.
    pose proof (generateImageDescription_sendsAtMost P description s) as Hfirst.
    destruct (generateImageDescription P description s) as [[enhanced|e] s1];
      cbn [snd] in *; [|now apply sendsAtMost_more].
    unfold bind at 1.
    pose proof (sendsAtMost_fetch P
                  (mkRequest GenerateImage k (synthesisPrompt enhanced) None)
                  1 s s1 Hfirst) as Hsecond.
    destruct (fetch P (mkRequest GenerateImage k (synthesisPrompt enhanced) None) s1)
      as [[[status body]|e] s2]; cbn [snd] in *; [|exact Hsecond].
    destruct (negb (ok status)).
    - destruct body as [v|message]; cbn; exact Hsecond.
    - destruct body as [v|message]; cbn; [|exact Hsecond].
      destruct (generatedImage v) as [[url|]|e]; cbn; exact Hsecond. }
  destruct H as [(Hm & Hl & Hs & _ & Hu) Hlen]. repeat split; assumption.
Qed.




(** Three refusals leave the window empty; one answer fills one place. *)
Example window_after_refusals_and_after_an_answer :
  let refused := browser (Some "k") [(100, quotaReply); (100, quotaReply); (100, quotaReply)] in
  let answered := browser (Some "k") [(100, candidateReply "all fine")] in
  let s := freshSystem 1000 readyUI in
  CacheManager.requestTimestamps
    (manager (snd (callGeminiVision refused "blob:1" "blob:1" "p" s))) = [] /\
  List.length (sent (snd (callGeminiVision refused "blob:1" "blob:1" "p" s))) = 3%nat /\
  CacheManager.requestTimestamps
    (manager (snd (callGeminiVision answered "blob:1" "blob:1" "p" s))) = [1100].
Proof. vm_compute. repeat split. Qed.

(** ** The limiter check of the operation *)

(** The operation handed to [retryWithBackoff] asks the limiter again; when
    the window is open this second check passes, so the branch that sets
    the rate-limit text is not taken. *)
Lemma analysisOperation_keeps_no_banner
    (P : Platform) (k image base64 prompt : string) (s : Sys) :
  windowOpen s ->
  rateLimitStatus (ui s) = None ->
  rateLimitStatus (ui (snd (analysisOperation P k image base64 prompt s))) = None.
Proof.
  intros Hopen H. unfold analysisOperation.
  match goal with
  | |- context [tryCatch (bind cacheManager_canMakeRequest ?k) _] =>
      assert (Hk : keeps (fun u => rateLimitStatus u = None) (k true))
  end.
  { cbn beta. cbn [negb]. repeat keeps_step. }
  unfold tryCatch. unfold bind at 1.
  rewrite canMakeRequest_run, (windowOpen_admits s Hopen).
  match goal with
  | |- context [match ?body ?s1 with _ => _ end] =>
      specialize (Hk s1 H); destruct (body s1) as [[result|e] s']
  end; cbn [snd] in *; [exact Hk|].
  destruct e; exact Hk.
Qed.

Lemma retryLoop_keeps_no_banner {T} (retryConfig : RetryConfig) (operation : M T) :
  (forall s, windowOpen s -> rateLimitStatus (ui s) = None ->
             rateLimitStatus (ui (snd (operation s))) = None) ->
  forall n attempt delay lastError,
    keeps (fun u => rateLimitStatus u = None)
          (retryLoop retryConfig operation n attempt delay lastError).
Proof.
  intros Hop n. induction n as [|n IH]; intros attempt delay lastError.
  - simpl. destruct lastError; apply keeps_throw.
  - intros s H. cbn [retryLoop].
    match goal with
    | |- rateLimitStatus (ui (snd (match ?body s with _ => _ end))) = None =>
        assert (Hbody : rateLimitStatus (ui (snd (body s))) = None)
    end.
    { unfold bind at 1. rewrite canMakeRequest_run.
      destruct (fst (CacheManager.canMakeRequest (clock s) (manager s))) eqn:Hok;
        cbn [negb].
      - unfold bind at 1. unfold invoke.
        match goal with
        | |- context [operation ?s1] =>
            assert (Hafter : rateLimitStatus (ui (snd (operation s1))) = None);
            [ apply Hop; [|exact H] | destruct (operation s1) as [[result|e] s2] ]
        end.
        + unfold windowOpen. cbn [manager].
          rewrite canMakeRequest_timestamps.
          rewrite canMakeRequest_answer in Hok. now apply Z.ltb_lt in Hok.
        + exact Hafter.
        + exact Hafter.
      - unfold bind at 1.
        match goal with
        | |- context [cacheManager_getNextAvailableTime ?s1] =>
            pose proof (keeps_withManager (fun u => rateLimitStatus u = None)
                          CacheManager.getNextAvailableTime s1 H) as Hafter;
            fold cacheManager_getNextAvailableTime in Hafter;
            destruct (cacheManager_getNextAvailableTime s1) as [[w|e] s2]
        end; exact Hafter. }
    match goal with
    | |- _ (ui (snd (match ?body with _ => _ end))) = None =>
        destruct body as [[result|error] s']
    end; [exact Hbody|].
    simpl in Hbody.
    destruct (negb (retryable (messageOf (asError error)))); [exact Hbody|].
    destruct (attempt <? maxRetries retryConfig - 1).
    + apply (keeps_bind (fun u => rateLimitStatus u = None) (sleep delay));
        [apply keeps_sleep | intros; apply IH | exact Hbody].
    + now apply IH.
Qed.

Lemma callGeminiVision_keeps_no_banner (P : Platform) (image base64 prompt : string) :
  keeps (fun u => rateLimitStatus u = None) (callGeminiVision P image base64 prompt).
Proof.
  unfold callGeminiVision.
  repeat ((unfold retryWithBackoff; apply retryLoop_keeps_no_banner;
           intros; now apply analysisOperation_keeps_no_banner)
          || keeps_step).
Qed.

Lemma click_keeps_no_banner (P : Platform) :
  keeps (fun u => rateLimitStatus u = None) (click P).
Proof.
  assert (Hhandler : forall render,
            keeps (fun u => rateLimitStatus u = None) (handleGenerateReport P render)).
  { intros render. unfold handleGenerateReport, startRun, runReport,
      convertImageToBase64, parseStep, reportFailure, releaseLoading.
    repeat (keeps_step
            || apply keeps_tryFinally
            || apply callGeminiVision_keeps_no_banner
            || apply keeps_generateRepairedImageWithGemini). }
  intros s. apply Hhandler.
Qed.

(** X16. The rate-limit text is never shown: the only statement that sets
    [rateLimitStatus] to a text is the limiter check inside the operation,
    and the retry controller calls the operation only after the same check
    has passed, so that statement is never reached.  From a state with no
    rate-limit text, no sequence of uploads, edits, waits and clicks leads
    to a state with one, even when the retry controller itself is refused
    by the limiter. *)
Theorem rate_limit_text_is_never_set (P : Platform) (s0 s : Sys) :
  rateLimitStatus (ui s0) = None -> evolves P s0 s -> rateLimitStatus (ui s) = None.
Proof.
  intros Hstart Hsession.
  induction Hsession as [|s imageUrl _ IH|s text _ IH|s _ IH _|s elapsed _ IH _].
  - exact Hstart.
  - exact IH.
  - exact IH.
  - now apply click_keeps_no_banner.
  - exact IH.
Qed.

(** The theorem at a click made while the limiter holds ten fresh
    requests: the run fails on the limiter, and no rate-limit text is set. *)
Lemma rate_limit_text_is_never_set_witness :
  let P := browser (Some "k") [(100, candidateReply "all fine")] in
  let s0 := mkSys 2000 (CacheManager.mk [] (repeat 1000 10))
                  (mkStorage NoItem true) readyUI [] [] 0 in
  rateLimitStatus (ui (snd (click P s0))) = None.
Proof.
  intros P s0.
  apply (rate_limit_text_is_never_set P s0 (snd (click P s0))).
  - reflexivity.
  - apply evolves_click; [apply evolves_here | reflexivity].
Defined.

Example refused_by_the_limiter_without_text :
  let P := browser (Some "k") [(100, candidateReply "all fine")] in
  let s0 := mkSys 2000 (CacheManager.mk [] (repeat 1000 10))
                  (mkStorage NoItem true) readyUI [] [] 0 in
  sent (snd (click P s0)) = [] /\
  slept (snd (click P s0)) = [2000; 4000] /\
  error (ui (snd (click P s0)))
    = Some "Failed to generate report. Rate limit reached. Please wait 53 seconds." /\
  rateLimitStatus (ui (snd (click P s0))) = None.
Proof. vm_compute. repeat split. Qed.
